(** * Reprojection of an image onto another pixel grid: [util/resample.py]

    A shallow embedding of [resample_with_wcs] and [_lanczos_interpolate]
    together with the properties of the resampling pipeline.

    Numbers.  Python floats are idealised as exact rationals ([Q]); integer
    arrays ([dtype=int]) are lists of [Z]; numpy arrays are lists, 2-d arrays
    are lists of rows and [.flat] is the row-major concatenation.  Equality of
    resampled values is [Qeq] ([==]).

    External collaborators.  The two WCS objects are records of functions;
    scipy's [RectBivariateSpline], [miscutils.lanczos_filter] and the optional
    [util.lanczos3_filter_table] are not part of [resample.py] and are Section
    variables of the model.

    Limits.  Element-wise operations are written for arrays of equal length,
    as they are in every call made by [resample_with_wcs] (numpy raises on a
    mismatch).  A division by a zero normalisation sum, which numpy turns
    into [nan] or [inf], is [0] in [Q]; the statements about values assume a
    non-zero sum or compare with the same quotient.  The debugging plots
    ([ps] is [None]) are left out. *)

From Stdlib Require Import ZArith QArith Qround Qminmax Qabs List Bool Lia Lqa.
Import ListNotations.

Local Open Scope Z_scope.

(** ** Exceptions and the error monad *)

Inductive Exception : Type :=
| NoOverlapError
| SmallOverlapError
| AssertionError
| ZeroDivisionError
| IndexError.

Inductive Result (A : Type) : Type :=
| Ok (a : A)
| Raise (e : Exception).

Arguments Ok {A} a.
Arguments Raise {A} e.

Definition bind {A B : Type} (r : Result A) (k : A -> Result B) : Result B :=
  match r with
  | Ok a => k a
  | Raise e => Raise e
  end.

Notation "x <- c ;; k" := (bind c (fun x => k))
  (at level 61, c at next level, right associativity).
Notation "c ;;; k" := (bind c (fun _ => k))
  (at level 61, right associativity).

(** [assert(cond)] *)
Definition assert_ (cond : bool) : Result unit :=
  if cond then Ok tt else Raise AssertionError.

(** ** The numpy operations the module uses *)

Module Np.

(** [np.arange(a, b, dtype=int)]: [a, a+1, ..., b-1]; empty when [b <= a]. *)
Definition arange (a b : Z) : list Z :=
  map (fun i => a + Z.of_nat i) (seq 0 (Z.to_nat (b - a))).

(** Element-wise binary operation on two arrays of the same length. *)
Fixpoint zipWith {A B C : Type} (f : A -> B -> C) (xs : list A) (ys : list B)
  : list C :=
  match xs, ys with
  | x :: xs', y :: ys' => f x y :: zipWith f xs' ys'
  | _, _ => []
  end.

(** [y[-1] = v] on a non-empty array. *)
Definition set_last {A : Type} (l : list A) (v : A) : list A :=
  match l with
  | [] => []
  | _ => removelast l ++ [v]
  end.

(** [np.linspace(start, stop, num)] with [endpoint=True], as in the numpy
    releases that accept a float [num]: [num = int(num)], an empty array for
    [num <= 0], [[start]] for [num == 1], and otherwise
    [arange(0, num) * step + start] with the last entry set to [stop]. *)
Definition linspace (start stop : Q) (num : Z) : list Q :=
  if num <=? 0 then []
  else if num =? 1 then [start]
  else
    let step := ((stop - start) / inject_Z (num - 1))%Q in
    set_last (map (fun i => (inject_Z i * step + start)%Q) (arange 0 num)) stop.

(** [np.round(x).astype(int)]: round to nearest, ties to the even integer. *)
Definition round (q : Q) : Z :=
  let f := Qfloor q in
  match (q - inject_Z f ?= 1 # 2)%Q with
  | Lt => f
  | Gt => f + 1
  | Eq => if Z.even f then f else f + 1
  end.

(** [np.clip(a, lo, hi)], element-wise [minimum(maximum(a, lo), hi)]. *)
Definition clip (a lo hi : Z) : Z := Z.min (Z.max a lo) hi.

(** [np.flatnonzero(mask)]: positions of the true entries, in order. *)
Fixpoint flatnonzero_from (k : nat) (mask : list bool) : list nat :=
  match mask with
  | [] => []
  | b :: mask' =>
      if b then k :: flatnonzero_from (S k) mask'
      else flatnonzero_from (S k) mask'
  end.

Definition flatnonzero (mask : list bool) : list nat := flatnonzero_from 0 mask.

(** [a.flat[I]] for an index array [I]. *)
Definition take {A : Type} (d : A) (a : list A) (I : list nat) : list A :=
  map (fun i => nth i a d) I.

(** [np.unravel_index(I, (rows, cols))]: row and column of each flat index. *)
Definition unravel_index (I : list nat) (cols : nat) : list nat * list nat :=
  (map (fun k => Nat.div k cols) I, map (fun k => Nat.modulo k cols) I).

(** [a.T] of a 2-d array given as its list of rows. *)
Fixpoint transpose {A : Type} (m : list (list A)) : list (list A) :=
  match m with
  | [] => []
  | r :: m' =>
      match m' with
      | [] => map (fun a => [a]) r
      | _ => zipWith cons r (transpose m')
      end
  end.

(** [a.min()] and [a.max()] of a non-empty 1-d array. *)
Definition amin (l : list Q) : Q :=
  match l with
  | [] => 0%Q
  | x :: l' => fold_left Qmin l' x
  end.

Definition amax (l : list Q) : Q :=
  match l with
  | [] => 0%Q
  | x :: l' => fold_left Qmax l' x
  end.

(** [np.zeros(n)] *)
Definition zeros (n : nat) : list Q := repeat 0%Q n.

End Np.

(** ** Data *)

(** A duck-typed WCS object: [imagew], [imageh] (already through [int(...)])
    and the two conversions, in FITS (1-indexed) pixel coordinates.  The
    vectorised, broadcasting calls of the source are applied element by
    element. *)
Record WCS : Type := {
  imagew : Z;
  imageh : Z;
  pixelxy2radec : Q -> Q -> Q * Q;
  radec2pixelxy : Q -> Q -> bool * Q * Q
}.

(** A 2-d image: [im.shape == (h, w)] and [im[y, x]].  The samples are only
    read at indices clipped to [[0,h-1] x [0,w-1]], which are in range for
    every image that has a pixel. *)
Record Image : Type := {
  shape : Z * Z;
  pixel : Z -> Z -> Q
}.

Definition shape_eqb (s t : Z * Z) : bool :=
  (fst s =? fst t) && (snd s =? snd t).

(** The value [(Yo, Xo, Yi, Xi, ims)] returned by [resample_with_wcs]. *)
Definition ResampleResult : Type :=
  (list Z * list Z * list Z * list Z * list (list Q))%type.

(** ** The model *)

Section Model.

(** Modelled from the spec: [miscutils.lanczos_filter(order, x, out)] is not
    in [resample.py]; it writes into [out] the 1-D Lanczos kernel weight of
    each offset of [x].  The scalar kernel is a parameter. *)
Variable lanczos_filter : Z -> Q -> Q.

(** Modelled from the spec: [util.lanczos3_filter_table(x, out)], the
    lookup-table kernel of order 3; [None] when the import fails. *)
Variable lanczos3_filter_table : option (Q -> Q).

(** [scipy.interpolate.RectBivariateSpline(x, y, z)]: the fitted surface, as
    the function it evaluates. *)
Variable RectBivariateSpline : list Q -> list Q -> list (list Q) -> Q -> Q -> Q.

(** *** Bounding box (lines 80-88) *)

Definition corners (w h : Z) : list (Z * Z) :=
  [(0, 0); (w - 1, 0); (w - 1, h - 1); (0, h - 1)].

(** One iteration of the loop over the corners: source pixel -> sky ->
    target pixel, back to 0-indexed. *)
Definition project_corner (targetwcs wcs : WCS) (xy : Z * Z) : Q * Q :=
  let '(x, y) := xy in
  let '(ra, dec) := pixelxy2radec wcs (inject_Z (x + 1)) (inject_Z (y + 1)) in
  let '(ok, xw, yw) := radec2pixelxy targetwcs ra dec in
  ((xw - 1)%Q, (yw - 1)%Q).

Definition corner_XY (targetwcs wcs : WCS) : list (Q * Q) :=
  map (project_corner targetwcs wcs) (corners (imagew wcs) (imageh wcs)).

(** [(x0, y0, x1, y1)] *)
Definition bbox (targetwcs wcs : WCS) : Z * Z * Z * Z :=
  let XY := corner_XY targetwcs wcs in
  let x0 := Np.round (Np.amin (map fst XY)) in
  let y0 := Np.round (Np.amin (map snd XY)) in
  let x1 := Np.round (Np.amax (map fst XY)) in
  let y1 := Np.round (Np.amax (map snd XY)) in
  (x0, y0, x1, y1).

(** *** Spline nodes and mode selection (lines 89-130) *)

(** [xx] (or [yy]) from the box side [[c0, c1]] and the target size [W]. *)
Definition axis_lo (c0 margin : Z) : Z := Z.max 0 (c0 - margin).
Definition axis_hi (W c1 margin : Z) : Z := Z.min W (c1 + margin).

Definition spline_axis (W c0 c1 margin step : Z) : list Q :=
  let xlo := axis_lo c0 margin in
  let xhi := axis_hi W c1 margin in
  let nx := Qceiling (inject_Z (xhi - xlo) / inject_Z step) + 1 in
  Np.linspace (inject_Z xlo) (inject_Z xhi) nx.

Definition spline_nodes (targetwcs wcs : WCS) (splineStep splineMargin : Z)
  : list Q * list Q :=
  let '(x0, y0, x1, y1) := bbox targetwcs wcs in
  (spline_axis (imagew targetwcs) x0 x1 splineMargin splineStep,
   spline_axis (imageh targetwcs) y0 y1 splineMargin splineStep).

(** The first [if spline:] block.  [Some (xx, yy)] when the spline is kept,
    [None] when the direct mapper is used. *)
Definition select_mode (targetwcs wcs : WCS) (spline splineFallback : bool)
    (splineStep splineMargin : Z) : Result (option (list Q * list Q)) :=
  if spline then
    if splineStep =? 0 then Raise ZeroDivisionError
    else
      let '(xx, yy) := spline_nodes targetwcs wcs splineStep splineMargin in
      if (length xx =? 0)%nat || (length yy =? 0)%nat then
        Raise NoOverlapError
      else if (length xx <=? 3)%nat || (length yy <=? 3)%nat then
        if splineFallback then Ok None else Raise SmallOverlapError
      else Ok (Some (xx, yy))
  else Ok None.

(** *** Target pixel -> source pixel *)

(** The target mapper's [pixelxy2radec(x + 1, y + 1)] fed to the source
    mapper's [radec2pixelxy], followed by the subtraction of 1 from both
    coordinates. *)
Definition target2source (targetwcs wcs : WCS) (x y : Q) : Q * Q :=
  let '(ra, dec) := pixelxy2radec targetwcs (x + 1)%Q (y + 1)%Q in
  let '(ok, xs, ys) := radec2pixelxy wcs ra dec in
  ((xs - 1)%Q, (ys - 1)%Q).

(** Broadcast of a row vector [xs[np.newaxis,:]] against a column vector
    [ys[:,np.newaxis]]: shape [(len ys, len xs)]. *)
Definition broadcast {A : Type} (f : Q -> Q -> A) (xs ys : list Q)
  : list (list A) :=
  map (fun y => map (fun x => f x y) xs) ys.

(** A fitted spline called on two coordinate vectors: shape
    [(len xs, len ys)]. *)
Definition spline_call (s : Q -> Q -> Q) (xs ys : list Z) : list (list Q) :=
  map (fun x => map (fun y => s (inject_Z x) (inject_Z y)) ys) xs.

(** Lines 132-159: the two fitted surfaces. *)
Definition fit_splines (targetwcs wcs : WCS) (xx yy : list Q)
  : (Q -> Q -> Q) * (Q -> Q -> Q) :=
  let XoYo := broadcast (target2source targetwcs wcs) xx yy in
  let Xo := map (map fst) XoYo in
  let Yo := map (map snd) XoYo in
  (RectBivariateSpline xx yy (Np.transpose Xo),
   RectBivariateSpline xx yy (Np.transpose Yo)).

(** Lines 165-166: the dense target grid. *)
Definition dense_axis (W c0 c1 margin : Z) : list Z :=
  Np.arange (Z.max 0 (c0 - margin)) (Z.min W (c1 + margin + 1)).

(** Lines 171-213: [fxi], [fyi], of shape [(len iyo, len ixo)]. *)
Definition source_coords (targetwcs wcs : WCS)
    (mode : option (list Q * list Q)) (ixo iyo : list Z)
  : list (list Q) * list (list Q) :=
  match mode with
  | Some (xx, yy) =>
      let '(xspline, yspline) := fit_splines targetwcs wcs xx yy in
      (Np.transpose (spline_call xspline ixo iyo),
       Np.transpose (spline_call yspline ixo iyo))
  | None =>
      let g := broadcast (target2source targetwcs wcs)
                 (map inject_Z ixo) (map inject_Z iyo) in
      (map (map fst) g, map (map snd) g)
  end.

(** *** Lanczos interpolation (lines 290-326) *)

(** The kernel selected at lines 301-308. *)
Definition lfunc (L : Z) : Z -> Q -> Q :=
  if L =? 3 then
    match lanczos3_filter_table with
    | Some table => fun _ x => table x
    | None => lanczos_filter
    end
  else lanczos_filter.

(** [lfunc(L, -o + d, out)]: the new contents of [out]. *)
Definition kernel_row (L o : Z) (d : list Q) : list Q :=
  map (fun v => lfunc L L (- inject_Z o + v)%Q) d.

(** [im[np.clip(iyi + oy, 0, h-1), np.clip(ixi + ox, 0, w-1)]] *)
Definition gather (im : Image) (h w oy ox : Z) (iyi ixi : list Z) : list Q :=
  Np.zipWith (fun y x => pixel im (Np.clip (y + oy) 0 (h - 1))
                                  (Np.clip (x + ox) 0 (w - 1))) iyi ixi.

(** The loop [for lacc,im in zip(laccs, limages)] with its two updates. *)
Fixpoint image_loop (fx fy : list Q) (h w oy ox : Z) (iyi ixi : list Z)
    (laccs : list (list Q)) (limages : list Image) (fsum : list Q)
  : list (list Q) * list Q :=
  match laccs, limages with
  | lacc :: laccs', im :: limages' =>
      let fxfy := Np.zipWith Qmult fx fy in
      let lacc' :=
        Np.zipWith Qplus lacc
          (Np.zipWith Qmult fxfy (gather im h w oy ox iyi ixi)) in
      let fsum' := Np.zipWith Qplus fsum fxfy in
      let '(rest, fsum'') :=
        image_loop fx fy h w oy ox iyi ixi laccs' limages' fsum' in
      (lacc' :: rest, fsum'')
  | _, _ => (laccs, fsum)
  end.

(** The loop [for ox in off]. *)
Definition ox_loop (L h w : Z) (iyi ixi : list Z) (dx fy : list Q) (oy : Z)
    (limages : list Image) (off : list Z) (st : list (list Q) * list Q)
  : list (list Q) * list Q :=
  fold_left
    (fun st ox =>
       let fx := kernel_row L ox dx in
       image_loop fx fy h w oy ox iyi ixi (fst st) limages (snd st))
    off st.

(** The loop [for oy in off]. *)
Definition oy_loop (L h w : Z) (iyi ixi : list Z) (dx dy : list Q)
    (limages : list Image) (off : list Z) (st : list (list Q) * list Q)
  : list (list Q) * list Q :=
  fold_left
    (fun st oy =>
       let fy := kernel_row L oy dy in
       ox_loop L h w iyi ixi dx fy oy limages off st)
    off st.

(** [_lanczos_interpolate]; the accumulators are updated in place, the model
    returns their final contents. *)
Definition _lanczos_interpolate (L : Z) (ixi iyi : list Z) (dx dy : list Q)
    (laccs : list (list Q)) (limages : list Image) : Result (list (list Q)) :=
  match limages with
  | [] => Raise IndexError
  | im0 :: _ =>
      let '(h, w) := shape im0 in
      let n := length ixi in
      let fsum := Np.zeros n in
      let off := Np.arange (- L) (L + 1) in
      let '(laccs', fsum') :=
        oy_loop L h w iyi ixi dx dy limages off (laccs, fsum) in
      Ok (map (fun lacc => Np.zipWith Qdiv lacc fsum') laccs')
  end.

(** *** The interpolation seen from one pixel

    The same loops on the entries of a single pixel: [accs] holds that pixel's
    entry of each accumulator and [f] its entry of [fsum]. *)

Fixpoint px_image_loop (wxy : Q) (cy cx : Z) (accs : list Q)
    (limages : list Image) (f : Q) : list Q * Q :=
  match accs, limages with
  | a :: accs', im :: limages' =>
      let a' := (a + wxy * pixel im cy cx)%Q in
      let f' := (f + wxy)%Q in
      let '(rest, f'') := px_image_loop wxy cy cx accs' limages' f' in
      (a' :: rest, f'')
  | _, _ => (accs, f)
  end.

(** The 1-D weight of offset [o] for the fractional remainder [d]. *)
Definition weight (L o : Z) (d : Q) : Q := lfunc L L (- inject_Z o + d)%Q.

Definition px_ox_loop (L h w y x : Z) (dxp wy : Q) (oy : Z)
    (limages : list Image) (off : list Z) (st : list Q * Q) : list Q * Q :=
  fold_left
    (fun st ox =>
       px_image_loop (weight L ox dxp * wy)%Q
         (Np.clip (y + oy) 0 (h - 1)) (Np.clip (x + ox) 0 (w - 1))
         (fst st) limages (snd st))
    off st.

Definition px_oy_loop (L h w y x : Z) (dxp dyp : Q)
    (limages : list Image) (off : list Z) (st : list Q * Q) : list Q * Q :=
  fold_left
    (fun st oy =>
       px_ox_loop L h w y x dxp (weight L oy dyp) oy limages off st)
    off st.

(** Sum of [f] over a list of offsets. *)
Definition Qsum (f : Z -> Q) (l : list Z) : Q :=
  fold_right (fun o s => (f o + s)%Q) 0%Q l.

(** The sum of the 2-D kernel weights of one pixel over the whole window. *)
Definition weight_sum (L : Z) (dxp dyp : Q) : Q :=
  let off := Np.arange (- L) (L + 1) in
  Qsum (fun oy => Qsum (fun ox => (weight L ox dxp * weight L oy dyp)%Q) off)
    off.

(** The weighted sum of the clamped samples of [im] around [(y, x)]. *)
Definition sample_sum (L h w y x : Z) (dxp dyp : Q) (im : Image) : Q :=
  let off := Np.arange (- L) (L + 1) in
  Qsum (fun oy =>
          Qsum (fun ox =>
                  (weight L ox dxp * weight L oy dyp *
                   pixel im (Np.clip (y + oy) 0 (h - 1))
                            (Np.clip (x + ox) 0 (w - 1)))%Q) off)
    off.

(** *** [resample_with_wcs] *)

Definition in_bounds (w h : Z) (xi yi : Z) : bool :=
  (0 <=? xi) && (0 <=? yi) && (xi <? w) && (yi <? h).

(** Line 225: the flat indices of the in-bounds pixels. *)
Definition retained (w h : Z) (ixi iyi : list Z) : list nat :=
  Np.flatnonzero (Np.zipWith (in_bounds w h) ixi iyi).

(** The margin in force at lines 165-166: [splineMargin] while the spline is
    kept, 0 on the direct path. *)
Definition grid_margin (mode : option (list Q * list Q)) (splineMargin : Z)
  : Z :=
  match mode with
  | Some _ => splineMargin
  | None => 0
  end.

(** [(ixo, iyo)] of lines 165-166. *)
Definition candidate_grid (targetwcs wcs : WCS) (margin : Z)
  : list Z * list Z :=
  let '(x0, y0, x1, y1) := bbox targetwcs wcs in
  (dense_axis (imagew targetwcs) x0 x1 margin,
   dense_axis (imageh targetwcs) y0 y1 margin).

(** The value of [margin] with which lines 165-166 are (or, after an overlap
    error of the spline block, would be) evaluated. *)
Definition margin_at_grid (targetwcs wcs : WCS) (spline splineFallback : bool)
    (splineStep splineMargin : Z) : Z :=
  match select_mode targetwcs wcs spline splineFallback
          splineStep splineMargin with
  | Ok mode => grid_margin mode splineMargin
  | Raise _ => splineMargin
  end.

(** The flat indices that survive the in-bounds filter of line 225 (none when
    the spline block has raised and the filter is not reached). *)
Definition survivors (targetwcs wcs : WCS) (spline splineFallback : bool)
    (splineStep splineMargin : Z) : list nat :=
  match select_mode targetwcs wcs spline splineFallback
          splineStep splineMargin with
  | Ok mode =>
      let g := candidate_grid targetwcs wcs (grid_margin mode splineMargin) in
      let sc := source_coords targetwcs wcs mode (fst g) (snd g) in
      retained (imagew wcs) (imageh wcs)
        (map Np.round (concat (fst sc))) (map Np.round (concat (snd sc)))
  | Raise _ => []
  end.

Definition all_ge0 (l : list Z) : bool := forallb (fun v => 0 <=? v) l.
Definition all_lt (b : Z) (l : list Z) : bool := forallb (fun v => v <? b) l.

(** Lines 77-262: mode selection, dense grid, source coordinates, in-bounds
    filter and the eight assertions.  Returns
    [(iyo, ixo, iyi, ixi, fxi, fyi)] as they stand at line 263. *)
Definition resample_coords (targetwcs wcs : WCS)
    (spline splineFallback : bool) (splineStep splineMargin : Z)
  : Result (list Z * list Z * list Z * list Z * list Q * list Q) :=
  let H := imageh targetwcs in
  let W := imagew targetwcs in
  let h := imageh wcs in
  let w := imagew wcs in
  mode <- select_mode targetwcs wcs spline splineFallback
            splineStep splineMargin ;;
  let margin := grid_margin mode splineMargin in
  let '(ixo, iyo) := candidate_grid targetwcs wcs margin in
  if (length ixo =? 0)%nat || (length iyo =? 0)%nat then Raise NoOverlapError
  else
    let '(fxi2, fyi2) := source_coords targetwcs wcs mode ixo iyo in
    let fxi := concat fxi2 in
    let fyi := concat fyi2 in
    let ixi := map Np.round fxi in
    let iyi := map Np.round fyi in
    let I := retained w h ixi iyi in
    let fxi := Np.take 0%Q fxi I in
    let fyi := Np.take 0%Q fyi I in
    let ixi := Np.take 0 ixi I in
    let iyi := Np.take 0 iyi I in
    let '(iy, ix) := Np.unravel_index I (length ixo) in
    let iyo := map (fun k => hd 0 iyo + Z.of_nat k) iy in
    let ixo := map (fun k => hd 0 ixo + Z.of_nat k) ix in
    assert_ (all_ge0 ixo) ;;;
    assert_ (all_ge0 iyo) ;;;
    assert_ (all_lt W ixo) ;;;
    assert_ (all_lt H iyo) ;;;
    assert_ (all_ge0 ixi) ;;;
    assert_ (all_ge0 iyi) ;;;
    assert_ (all_lt w ixi) ;;;
    assert_ (all_lt h iyi) ;;;
    Ok (iyo, ixo, iyi, ixi, fxi, fyi).

(** Lines 264-285: the values resampled from the images. *)
Definition resample_values (Limages : list Image) (L : Z)
    (ixo ixi iyi : list Z) (fxi fyi : list Q) : Result (list (list Q)) :=
  match Limages with
  | _ :: _ =>
      let dx := Np.zipWith (fun f i => (f - inject_Z i)%Q) fxi ixi in
      let dy := Np.zipWith (fun f i => (f - inject_Z i)%Q) fyi iyi in
      let nn := length ixo in
      let laccs := map (fun _ => Np.zeros nn) Limages in
      _lanczos_interpolate L ixi iyi dx dy laccs Limages
  | [] => Ok []
  end.

Definition resample_with_wcs (targetwcs wcs : WCS) (Limages : list Image)
    (L : Z) (spline splineFallback : bool) (splineStep splineMargin : Z)
  : Result ResampleResult :=
  let h := imageh wcs in
  let w := imagew wcs in
  assert_ (forallb (fun im => shape_eqb (shape im) (h, w)) Limages) ;;;
  c <- resample_coords targetwcs wcs spline splineFallback
         splineStep splineMargin ;;
  let '(iyo, ixo, iyi, ixi, fxi, fyi) := c in
  rims <- resample_values Limages L ixo ixi iyi fxi fyi ;;
  Ok (iyo, ixo, iyi, ixi, rims).

End Model.

(** ** Specification predicates *)

(** [m] is an entry of [l] below (above) every entry of [l]. *)
Definition is_min (m : Q) (l : list Q) : Prop :=
  In m l /\ Forall (fun v => (m <= v)%Q) l.

Definition is_max (m : Q) (l : list Q) : Prop :=
  In m l /\ Forall (fun v => (v <= m)%Q) l.

(** [n] is the integer nearest to [q], the even one of the two when [q] lies
    half-way between two integers. *)
Definition rounds_to (q : Q) (n : Z) : Prop :=
  (- (1 # 2) <= q - inject_Z n <= 1 # 2)%Q /\
  ((q - inject_Z n == 1 # 2)%Q \/ (q - inject_Z n == - (1 # 2))%Q ->
   Z.even n = true).

(** [xx] is the subdivision of [[lo, hi]] for the step [step]: it has
    [ceil((hi - lo) / step) + 1] nodes, runs from [lo] to [hi] inside
    [[lo, hi]], and its node [i] is [lo + i * stride] for one stride, which
    is at most [step] and is [step] itself when [step] divides [hi - lo]. *)
Definition spans (lo hi step : Z) (xx : list Q) : Prop :=
  length xx
    = Z.to_nat (Qceiling (inject_Z (hi - lo) / inject_Z step) + 1) /\
  (nth 0 xx 0 == inject_Z lo)%Q /\
  (nth (length xx - 1) xx 0 == inject_Z hi)%Q /\
  Forall (fun v => (inject_Z lo <= v <= inject_Z hi)%Q) xx /\
  exists stride : Q,
    (0 <= stride <= inject_Z step)%Q /\
    ((step | hi - lo) -> (stride == inject_Z step)%Q) /\
    forall i, (i < length xx)%nat ->
      (nth i xx 0 == inject_Z lo + inject_Z (Z.of_nat i) * stride)%Q.

(** The two mappers describe the same pixel grid: a target pixel is sent to
    the source pixel of the same coordinates. *)
Definition same_grid (targetwcs wcs : WCS) : Prop :=
  forall x y : Z,
    (fst (target2source targetwcs wcs (inject_Z x) (inject_Z y))
       == inject_Z x)%Q /\
    (snd (target2source targetwcs wcs (inject_Z x) (inject_Z y))
       == inject_Z y)%Q.

(** A kernel that is 1 at offset zero and 0 at the other integer offsets of
    its window. *)
Definition selects_at_integers (K : Q -> Q) (L : Z) : Prop :=
  (forall q, (q == 0)%Q -> (K q == 1)%Q) /\
  (forall q n, (q == inject_Z n)%Q -> n <> 0 -> - L <= n <= L ->
     (K q == 0)%Q).

(** Every sample of the image is [c]. *)
Definition constant_image (im : Image) (c : Q) : Prop :=
  forall y x, (pixel im y x == c)%Q.

(** Every array of the list has length [n]. *)
Definition all_length (n : nat) (ls : list (list Q)) : Prop :=
  Forall (fun l => length l = n) ls.

(** Entry [p] of each array of the list. *)
Definition col (p : nat) (ls : list (list Q)) : list Q :=
  map (fun l => nth p l 0%Q) ls.

(** The state of one pixel: its accumulator for image [im] holds [G im] and
    its normalisation sum holds [Wk]. *)
Definition px_inv (G : Image -> Q) (Wk : Q) (limages : list Image)
    (st : list Q * Q) : Prop :=
  Forall2 (fun a im => (a == G im)%Q) (fst st) limages /\ (snd st == Wk)%Q.

(** A natural number as a rational. *)
Definition Qnat (n : nat) : Q := inject_Z (Z.of_nat n).

(** All the images have the shape of the source WCS. *)
Definition shapes_ok (wcs : WCS) (Limages : list Image) : bool :=
  forallb (fun im => shape_eqb (shape im) (imageh wcs, imagew wcs)) Limages.

(** ** Concrete collaborators used to run the model *)

(** A WCS whose sky coordinates are its own FITS pixel coordinates shifted by
    [(sx, sy)]. *)
Definition shifted_wcs (W H : Z) (sx sy : Q) : WCS := {|
  imagew := W;
  imageh := H;
  pixelxy2radec := fun x y => ((x + sx)%Q, (y + sy)%Q);
  radec2pixelxy := fun ra dec => (true, (ra - sx)%Q, (dec - sy)%Q)
|}.

Definition grid_wcs (W H : Z) : WCS := shifted_wcs W H 0 0.

(** A WCS whose sky-to-pixel conversion fails everywhere: it reports
    [ok = False] and the pixel [(-10, -10)]. *)
Definition blind_wcs (W H : Z) : WCS := {|
  imagew := W;
  imageh := H;
  pixelxy2radec := fun x y => (x, y);
  radec2pixelxy := fun _ _ => (false, (-10)%Q, (-10)%Q)
|}.

(** The triangle kernel [max(0, 1 - |x|)]: 1 at offset zero and 0 at every
    other integer offset, like the Lanczos kernel. *)
Definition tent_filter (order : Z) (x : Q) : Q :=
  Qmax 0 (1 - Qabs x).

(** A stand-in for the fitted surface: it returns its first coordinate
    whatever the data. *)
Definition flat_spline (xx yy : list Q) (z : list (list Q)) (x y : Q) : Q := x.

Definition const_image (h w : Z) (c : Q) : Image :=
  {| shape := (h, w); pixel := fun _ _ => c |}.

(** The image whose sample at [(y, x)] is [10*y + x]. *)
Definition ramp_image (h w : Z) : Image :=
  {| shape := (h, w); pixel := fun y x => inject_Z (10 * y + x) |}.

(** ** The use of the result, and the RA wrap of [index-stats.py] *)

(** The source coordinates that lines 171-213 give to the target pixel
    [(x, y)]: the two fitted surfaces on the spline path, the round trip
    through the mappers on the direct path. *)
Definition coord_at
    (RectBivariateSpline : list Q -> list Q -> list (list Q) -> Q -> Q -> Q)
    (targetwcs wcs : WCS) (mode : option (list Q * list Q)) (x y : Z)
  : Q * Q :=
  match mode with
  | Some (xx, yy) =>
      let '(xspline, yspline) :=
        fit_splines RectBivariateSpline targetwcs wcs xx yy in
      (xspline (inject_Z x) (inject_Z y), yspline (inject_Z x) (inject_Z y))
  | None => target2source targetwcs wcs (inject_Z x) (inject_Z y)
  end.

(** The four corners of the source image project onto themselves: the
    source-to-target direction of two mappers that describe the same grid. *)
Definition same_grid_corners (targetwcs wcs : WCS) : Prop :=
  Forall (fun c =>
            (fst (project_corner targetwcs wcs c) == inject_Z (fst c))%Q /\
            (snd (project_corner targetwcs wcs c) == inject_Z (snd c))%Q)
    (corners (imagew wcs) (imageh wcs)).

(** [np.zeros((H, W))] *)
Definition zeros2 (H W : Z) : Image :=
  {| shape := (H, W); pixel := fun _ _ => 0%Q |}.

(** An index into an axis of length [n]: a negative index counts from the
    end, an index outside [[-n, n)] is an error. *)
Definition axis_index (n i : Z) : option Z :=
  if (0 <=? i) && (i <? n) then Some i
  else if (- n <=? i) && (i <? 0) then Some (i + n)
  else None.

Fixpoint axis_indices (n : Z) (l : list Z) : option (list Z) :=
  match l with
  | [] => Some []
  | i :: l' =>
      match axis_index n i, axis_indices n l' with
      | Some j, Some js => Some (j :: js)
      | _, _ => None
      end
  end.

(** The writes of [out[Y, X] = vals] in index order: a later write to the
    same cell replaces an earlier one. *)
Fixpoint assign (pix : Z -> Z -> Q) (idx : list (Z * Z)) (vals : list Q)
  : Z -> Z -> Q :=
  match idx, vals with
  | (y, x) :: idx', v :: vals' =>
      assign (fun y' x' => if (y' =? y) && (x' =? x) then v else pix y' x')
        idx' vals'
  | _, _ => pix
  end.

(** [out[Y, X] = vals] for two integer index arrays and a value array of
    their length; [IndexError] when an index is out of bounds. *)
Definition setitem (out : Image) (Y X : list Z) (vals : list Q)
  : Result Image :=
  let '(H, W) := shape out in
  match axis_indices H Y, axis_indices W X with
  | Some ys, Some xs =>
      Ok {| shape := (H, W);
            pixel := assign (pixel out) (combine ys xs) vals |}
  | _, _ => Raise IndexError
  end.

(** [im[Y, X]] for two integer index arrays. *)
Definition getitem (im : Image) (Y X : list Z) : Result (list Q) :=
  let '(H, W) := shape im in
  match axis_indices H Y, axis_indices W X with
  | Some ys, Some xs => Ok (Np.zipWith (pixel im) ys xs)
  | _, _ => Raise IndexError
  end.

(** Lines 350-356 of the script part of [resample.py], without the reading
    and writing of files: the call with its default options, then
    [out = np.zeros((H,W))] and [out[Yo,Xo] = ims[0]]. *)
Definition reproject
    (lanczos_filter : Z -> Q -> Q) (lanczos3_filter_table : option (Q -> Q))
    (RectBivariateSpline : list Q -> list Q -> list (list Q) -> Q -> Q -> Q)
    (cowcs wcs : WCS) (pix : Image) : Result Image :=
  r <- resample_with_wcs lanczos_filter lanczos3_filter_table
         RectBivariateSpline cowcs wcs [pix] 3 true true 25 12 ;;
  let '(Yo, Xo, Yi, Xi, ims) := r in
  match ims with
  | ims0 :: _ => setitem (zeros2 (imageh cowcs) (imagew cowcs)) Yo Xo ims0
  | [] => Raise IndexError
  end.

(** The use given in the docstring of [resample_with_wcs]:
    [target[Yo,Xo] = nearest_neighbour[Yi,Xi]], on a target of zeros. *)
Definition nearest_neighbour
    (lanczos_filter : Z -> Q -> Q) (lanczos3_filter_table : option (Q -> Q))
    (RectBivariateSpline : list Q -> list Q -> list (list Q) -> Q -> Q -> Q)
    (targetwcs wcs : WCS) (src : Image) (L : Z) (spline splineFallback : bool)
    (splineStep splineMargin : Z) : Result Image :=
  r <- resample_with_wcs lanczos_filter lanczos3_filter_table
         RectBivariateSpline targetwcs wcs [] L spline splineFallback
         splineStep splineMargin ;;
  let '(Yo, Xo, Yi, Xi, ims) := r in
  vals <- getitem src Yi Xi ;;
  setitem (zeros2 (imageh targetwcs) (imagew targetwcs)) Yo Xo vals.

(** [index-stats.py], lines 52 and 164: [ra + (ra > 180) * -360]. *)
Definition wrap_ra (ra : list Q) : list Q :=
  map (fun r =>
         (r + (if Qle_bool r 180 then 0 else 1) * - (360))%Q) ra.

(** The sum of the 1-D kernel weights of one axis. *)
Definition weight_sum_1d
    (lanczos_filter : Z -> Q -> Q) (lanczos3_filter_table : option (Q -> Q))
    (L : Z) (d : Q) : Q :=
  Qsum (fun o => weight lanczos_filter lanczos3_filter_table L o d)
    (Np.arange (- L) (L + 1)).

(** ** Tactics *)

(** Closes a goal whose premise equates two different outcomes. *)
Ltac absurd_result :=
  let H := fresh "H" in intros H; cbv beta iota in H; discriminate H.

(** ** Facts about the numpy operations *)

Module NpFacts.
Import Np.

Example round_ties_to_even :
  map round [1 # 2; 3 # 2; 5 # 2; - (1 # 2); - (3 # 2); 7 # 4; - (7 # 4)]%Q
  = [0; 2; 2; 0; -2; 2; -2].
Proof. reflexivity. Qed.

Example linspace_small :
  linspace 3 9 (-2) = [] /\ linspace 3 9 0 = [] /\ linspace 3 9 1 = [3%Q] /\
  length (linspace 3 9 4) = 4%nat /\ last (linspace 3 9 4) 0%Q = 9%Q.
Proof. repeat split. Qed.

Example unravel_index_row_major :
  unravel_index [0; 2; 3; 5]%nat 3 = ([0; 0; 1; 1]%nat, [0; 2; 0; 2]%nat).
Proof. reflexivity. Qed.

Lemma arange_length (a b : Z) : length (arange a b) = Z.to_nat (b - a).
Proof. unfold arange. now rewrite length_map, length_seq. Qed.

Lemma arange_In (a b v : Z) : In v (arange a b) <-> a <= v < b.
Proof.
  unfold arange. rewrite in_map_iff. split.
  - intros [i [<- Hi]]. apply in_seq in Hi. lia.
  - intros Hv. exists (Z.to_nat (v - a)). split; [lia|].
    apply in_seq. lia.
Qed.

Lemma arange_nth (a b : Z) (i : nat) (d : Z) :
  (i < Z.to_nat (b - a))%nat -> nth i (arange a b) d = a + Z.of_nat i.
Proof.
  intros Hi. unfold arange.
  rewrite (nth_indep _ d (a + Z.of_nat 0)) by now rewrite length_map, length_seq.
  rewrite (map_nth (fun i => a + Z.of_nat i)). now rewrite seq_nth.
Qed.

Lemma arange_empty (a b : Z) : arange a b = [] <-> b <= a.
Proof.
  rewrite <- length_zero_iff_nil, arange_length. lia.
Qed.

Lemma arange_hd (a b : Z) : a < b -> hd 0 (arange a b) = a.
Proof.
  intros Hab. unfold arange.
  destruct (Z.to_nat (b - a)) eqn:E; [lia|]. simpl. lia.
Qed.

Lemma zipWith_length {A B C} (f : A -> B -> C) xs ys :
  length (zipWith f xs ys) = Nat.min (length xs) (length ys).
Proof.
  revert ys. induction xs as [|x xs IH]; intros [|y ys]; simpl; auto.
Qed.

Lemma zipWith_nth {A B C} (f : A -> B -> C) xs ys i dc da db :
  (i < length xs)%nat -> (i < length ys)%nat ->
  nth i (zipWith f xs ys) dc = f (nth i xs da) (nth i ys db).
Proof.
  revert ys i. induction xs as [|x xs IH]; intros [|y ys] [|i]; simpl;
    intros; try lia; auto.
  apply IH; lia.
Qed.

Lemma zipWith_map {A B C D E} (f : C -> D -> E) (g : A -> C) (k : B -> D) xs ys :
  zipWith f (map g xs) (map k ys) = zipWith (fun a b => f (g a) (k b)) xs ys.
Proof.
  revert ys. induction xs as [|x xs IH]; intros [|y ys]; simpl; auto.
  now rewrite IH.
Qed.

Lemma zipWith_diag {A C} (f : A -> A -> C) xs :
  zipWith f xs xs = map (fun a => f a a) xs.
Proof. induction xs; simpl; congruence. Qed.

Lemma take_length {A} (d : A) a I : length (take d a I) = length I.
Proof. unfold take. apply length_map. Qed.

Lemma flatnonzero_from_In (mask : list bool) (k i : nat) :
  In i (flatnonzero_from k mask) <->
  (k <= i < k + length mask)%nat /\ nth (i - k) mask false = true.
Proof.
  revert k. induction mask as [|b mask IH]; intros k; simpl.
  - split; [tauto | lia].
  - assert (Hstep : In i (flatnonzero_from (S k) mask) <->
              (k < i < k + S (length mask))%nat /\
              nth (i - k) (b :: mask) false = true).
    { rewrite IH. split.
      - intros [Hr Hn]. split; [lia|].
        replace (i - k)%nat with (S (i - S k)) by lia. exact Hn.
      - intros [Hr Hn]. split; [lia|].
        replace (i - k)%nat with (S (i - S k)) in Hn by lia. exact Hn. }
    destruct b; simpl.
    + rewrite Hstep. split.
      * intros [<- | [Hr Hn]].
        -- split; [lia|]. now rewrite Nat.sub_diag.
        -- split; [lia | exact Hn].
      * intros [Hr Hn]. destruct (Nat.eq_dec k i) as [->|Hne]; [now left|].
        right. split; [lia | exact Hn].
    + rewrite Hstep. split.
      * intros [Hr Hn]. split; [lia | exact Hn].
      * intros [Hr Hn]. destruct (Nat.eq_dec k i) as [->|Hne].
        -- rewrite Nat.sub_diag in Hn. discriminate.
        -- split; [lia | exact Hn].
Qed.

Lemma flatnonzero_In (mask : list bool) (i : nat) :
  In i (flatnonzero mask) <-> (i < length mask)%nat /\ nth i mask false = true.
Proof.
  unfold flatnonzero. rewrite flatnonzero_from_In, Nat.sub_0_r. intuition lia.
Qed.

Lemma flatnonzero_from_NoDup (mask : list bool) (k : nat) :
  NoDup (flatnonzero_from k mask).
Proof.
  revert k. induction mask as [|b mask IH]; intros k; simpl.
  - constructor.
  - destruct b; [|apply IH]. constructor; [|apply IH].
    rewrite flatnonzero_from_In. lia.
Qed.

Lemma flatnonzero_nil (mask : list bool) :
  flatnonzero mask = [] <-> Forall (fun b => b = false) mask.
Proof.
  unfold flatnonzero. generalize 0%nat.
  induction mask as [|b mask IH]; intros k; simpl.
  - split; auto.
  - destruct b.
    + split; [discriminate | intros H; inversion H; discriminate].
    + rewrite IH. split; [auto | intros H; now inversion H].
Qed.

Lemma transpose_spline_grid {A} (f : Z -> Z -> A) (xs ys : list Z) :
  xs <> [] ->
  transpose (map (fun x => map (fun y => f x y) ys) xs) =
  map (fun y => map (fun x => f x y) xs) ys.
Proof.
  induction xs as [|x xs IH]; [congruence|]. intros _.
  destruct xs as [|x' xs].
  - simpl. rewrite map_map. reflexivity.
  - change (transpose (map (fun x => map (fun y => f x y) ys) (x :: x' :: xs)))
      with (zipWith cons (map (fun y => f x y) ys)
              (transpose (map (fun x => map (fun y => f x y) ys) (x' :: xs)))).
    rewrite IH by discriminate.
    rewrite zipWith_map, zipWith_diag. reflexivity.
Qed.

Lemma concat_grid_length {A} (f : Z -> Z -> A) (xs ys : list Z) :
  length (concat (map (fun y => map (fun x => f x y) xs) ys)) =
  (length ys * length xs)%nat.
Proof.
  induction ys as [|y ys IH]; simpl; auto.
  now rewrite length_app, length_map, IH.
Qed.

End NpFacts.

(** ** The pipeline of [resample_with_wcs] *)

Section Pipeline.

Variable lanczos_filter : Z -> Q -> Q.
Variable lanczos3_filter_table : option (Q -> Q).
Variable RectBivariateSpline : list Q -> list Q -> list (list Q) -> Q -> Q -> Q.

Abbreviation lanczos :=
  (_lanczos_interpolate lanczos_filter lanczos3_filter_table).
Abbreviation coords := (source_coords RectBivariateSpline).

Import Np NpFacts.

(** Both mappers fill the dense grid row by row with a per-pixel function. *)
Lemma source_coords_grid targetwcs wcs mode (ixo iyo : list Z) :
  ixo <> [] ->
  exists fx fy : Z -> Z -> Q,
    fst (coords targetwcs wcs mode ixo iyo) =
      map (fun y => map (fun x => fx x y) ixo) iyo /\
    snd (coords targetwcs wcs mode ixo iyo) =
      map (fun y => map (fun x => fy x y) ixo) iyo /\
    (mode = None -> forall x y,
       (fx x y, fy x y) = target2source targetwcs wcs (inject_Z x) (inject_Z y)).
Proof.
  intros Hne. unfold source_coords. destruct mode as [[xx yy]|].
  - destruct (fit_splines RectBivariateSpline targetwcs wcs xx yy)
      as [xs ys].
    exists (fun x y => xs (inject_Z x) (inject_Z y)),
           (fun x y => ys (inject_Z x) (inject_Z y)).
    unfold spline_call. simpl.
    rewrite (transpose_spline_grid (fun x y => xs (inject_Z x) (inject_Z y)))
      by exact Hne.
    rewrite (transpose_spline_grid (fun x y => ys (inject_Z x) (inject_Z y)))
      by exact Hne.
    repeat split. discriminate.
  - exists (fun x y => fst (target2source targetwcs wcs (inject_Z x) (inject_Z y))),
           (fun x y => snd (target2source targetwcs wcs (inject_Z x) (inject_Z y))).
    unfold broadcast. simpl. repeat split.
    + rewrite !map_map. apply map_ext. intros y. now rewrite !map_map.
    + rewrite !map_map. apply map_ext. intros y. now rewrite !map_map.
    + intros _ x y. now destruct (target2source _ _ _ _).
Qed.

(** What a successful run of the coordinate stage has computed. *)
Lemma resample_coords_inv targetwcs wcs spline fallback step margin
    Yo Xo Yi Xi fxi' fyi' :
  resample_coords RectBivariateSpline targetwcs wcs spline fallback step margin
    = Ok (Yo, Xo, Yi, Xi, fxi', fyi') ->
  exists mode,
    select_mode targetwcs wcs spline fallback step margin = Ok mode /\
    let g := candidate_grid targetwcs wcs (grid_margin mode margin) in
    let sc := coords targetwcs wcs mode (fst g) (snd g) in
    let fxi := concat (fst sc) in
    let fyi := concat (snd sc) in
    let ixi := map round fxi in
    let iyi := map round fyi in
    let I := retained (imagew wcs) (imageh wcs) ixi iyi in
    fst g <> [] /\ snd g <> [] /\
    Yo = map (fun k => hd 0 (snd g) + Z.of_nat (k / length (fst g))) I /\
    Xo = map (fun k => hd 0 (fst g) + Z.of_nat (k mod length (fst g))) I /\
    Yi = take 0 iyi I /\
    Xi = take 0 ixi I /\
    fxi' = take 0%Q fxi I /\
    fyi' = take 0%Q fyi I.
Proof.
  unfold resample_coords. intros Hr.
  destruct (select_mode _ _ _ _ _ _) as [mode|]; [|discriminate].
  cbn [bind] in Hr. exists mode. split; [reflexivity|].
  destruct (candidate_grid _ _ _) as [ixo iyo]. cbn [fst snd].
  destruct ((length ixo =? 0)%nat || (length iyo =? 0)%nat) eqn:Hemp;
    [discriminate|].
  apply orb_false_iff in Hemp. destruct Hemp as [Hx Hy].
  apply Nat.eqb_neq in Hx, Hy.
  destruct (coords _ _ _ _ _) as [fxi2 fyi2]. cbn [fst snd].
  unfold unravel_index in Hr.
  repeat (match type of Hr with
          | context [assert_ ?c] => destruct (assert_ c); [|discriminate]
          end; cbn [bind] in Hr).
  rewrite !map_map in Hr.
  split; [now destruct ixo|]. split; [now destruct iyo|].
  inversion Hr; subst. repeat split; reflexivity.
Qed.

(** A successful call is a passed shape check, a successful coordinate stage
    and a successful interpolation. *)
Lemma resample_ok_iff targetwcs wcs Limages L spline fallback step margin
    Yo Xo Yi Xi ims :
  resample_with_wcs lanczos_filter lanczos3_filter_table
    RectBivariateSpline targetwcs wcs Limages L spline fallback step margin
    = Ok (Yo, Xo, Yi, Xi, ims) <->
  forallb (fun im => shape_eqb (shape im) (imageh wcs, imagew wcs)) Limages
    = true /\
  exists fxi fyi,
    resample_coords RectBivariateSpline targetwcs wcs spline fallback step
      margin = Ok (Yo, Xo, Yi, Xi, fxi, fyi) /\
    resample_values lanczos_filter lanczos3_filter_table
      Limages L Xo Xi Yi fxi fyi = Ok ims.
Proof.
  unfold resample_with_wcs, assert_.
  destruct (forallb _ Limages); cbn [bind].
  - destruct (resample_coords _ _ _ _ _ _ _)
      as [[[[[[iyo ixo] iyi] ixi] fxi] fyi]|e]; cbn [bind].
    + destruct (resample_values _ _ _ _ _ _ _ _ _) as [rims|e] eqn:Hv;
        cbn [bind].
      * split.
        -- intros Hr. inversion Hr; subst. split; [reflexivity|].
           exists fxi, fyi. split; [reflexivity | exact Hv].
        -- intros [_ (fxi0 & fyi0 & Hc & Hv')]. inversion Hc; subst.
           congruence.
      * split; [discriminate|].
        intros [_ (fxi0 & fyi0 & Hc & Hv')]. inversion Hc; subst.
        congruence.
    + split; [discriminate|]. intros [_ (fxi0 & fyi0 & Hc & _)].
      discriminate.
  - split; [discriminate | intros [Hf _]; discriminate].
Qed.

Lemma dense_axis_cell (W c0 c1 m : Z) (k : nat) :
  (k < length (dense_axis W c0 c1 m))%nat ->
  0 <= hd 0 (dense_axis W c0 c1 m) + Z.of_nat k < W.
Proof.
  unfold dense_axis. rewrite arange_length. intros Hk.
  rewrite arange_hd by lia. lia.
Qed.

Lemma retained_In (w h : Z) (ixi iyi : list Z) (k : nat) :
  In k (retained w h ixi iyi) ->
  (k < length ixi)%nat /\ (k < length iyi)%nat /\
  in_bounds w h (nth k ixi 0) (nth k iyi 0) = true.
Proof.
  unfold retained. rewrite flatnonzero_In, zipWith_length.
  intros [Hk Hn].
  rewrite (zipWith_nth _ _ _ _ _ 0 0) in Hn by lia.
  repeat split; (lia || assumption).
Qed.

Lemma retained_NoDup (w h : Z) (ixi iyi : list Z) :
  NoDup (retained w h ixi iyi).
Proof. apply flatnonzero_from_NoDup. Qed.

Lemma in_bounds_spec (w h xi yi : Z) :
  in_bounds w h xi yi = true <-> 0 <= xi < w /\ 0 <= yi < h.
Proof.
  unfold in_bounds. rewrite !andb_true_iff, !Z.leb_le, !Z.ltb_lt. lia.
Qed.

(** The rounded source coordinates have one entry per cell of the grid. *)
Lemma rounded_coords_length targetwcs wcs mode (ixo iyo : list Z) :
  ixo <> [] ->
  length (map round (concat (fst (coords targetwcs wcs mode ixo iyo)))) =
    (length iyo * length ixo)%nat /\
  length (map round (concat (snd (coords targetwcs wcs mode ixo iyo)))) =
    (length iyo * length ixo)%nat.
Proof.
  intros Hne.
  destruct (source_coords_grid targetwcs wcs mode ixo iyo Hne)
    as (fx & fy & -> & -> & _).
  now rewrite !length_map, !concat_grid_length.
Qed.

Lemma NoDup_map_inj_in {A B} (f : A -> B) (l : list A) :
  (forall a b, In a l -> In b l -> f a = f b -> a = b) ->
  NoDup l -> NoDup (map f l).
Proof.
  induction l as [|a l IH]; intros Hinj Hnd; simpl; [constructor|].
  inversion Hnd as [|? ? Hnotin Hnd']; subst. constructor.
  - rewrite in_map_iff. intros [b [Hfb Hb]].
    apply Hnotin. rewrite (Hinj a b); auto with datatypes.
  - apply IH; auto with datatypes.
Qed.

Lemma combine_map_same {A B C} (f : A -> B) (g : A -> C) (l : list A) :
  combine (map f l) (map g l) = map (fun a => (f a, g a)) l.
Proof. induction l; simpl; congruence. Qed.

(** *** Shapes of the accumulators *)

Lemma image_loop_shape (n : nat) fx fy h w oy ox iyi ixi limages :
  length fx = n -> length fy = n -> length iyi = n -> length ixi = n ->
  forall laccs fsum,
    all_length n laccs -> length fsum = n ->
    let r := image_loop fx fy h w oy ox iyi ixi laccs limages fsum in
    length (fst r) = length laccs /\ all_length n (fst r) /\
    length (snd r) = n.
Proof.
  intros Hfx Hfy Hy Hx. induction limages as [|im limages IH];
    intros laccs fsum Hl Hf.
  - destruct laccs; simpl; auto.
  - destruct laccs as [|lacc laccs]; [simpl; auto|].
    apply Forall_cons_iff in Hl. destruct Hl as [Hlacc Hl']. simpl.
    set (fsum' := zipWith Qplus fsum (zipWith Qmult fx fy)).
    assert (Hf' : length fsum' = n).
    { unfold fsum'. rewrite !zipWith_length. lia. }
    specialize (IH laccs fsum' Hl' Hf').
    destruct (image_loop fx fy h w oy ox iyi ixi laccs limages fsum')
      as [rest fsum''].
    simpl in *. destruct IH as (IH1 & IH2 & IH3).
    repeat split; auto.
    constructor; [|exact IH2].
    unfold gather. rewrite !zipWith_length. lia.
Qed.

Lemma ox_loop_shape (n : nat) L h w iyi ixi dx fy oy limages :
  length iyi = n -> length ixi = n -> length dx = n -> length fy = n ->
  forall off st,
    all_length n (fst st) -> length (snd st) = n ->
    let r := ox_loop lanczos_filter lanczos3_filter_table
               L h w iyi ixi dx fy oy limages off st in
    length (fst r) = length (fst st) /\ all_length n (fst r) /\
    length (snd r) = n.
Proof.
  intros Hy Hx Hdx Hfy. unfold ox_loop.
  induction off as [|ox off IH]; intros st Hl Hf; [simpl; auto|].
  simpl.
  pose proof (image_loop_shape n
                (kernel_row lanczos_filter lanczos3_filter_table L ox dx)
                fy h w oy ox iyi ixi limages) as Hstep.
  unfold kernel_row in Hstep at 1. rewrite length_map in Hstep.
  specialize (Hstep Hdx Hfy Hy Hx (fst st) (snd st) Hl Hf).
  cbv zeta in Hstep. destruct Hstep as (S1 & S2 & S3).
  specialize (IH _ S2 S3). cbv zeta in IH.
  destruct IH as (I1 & I2 & I3). repeat split; auto. congruence.
Qed.

Lemma oy_loop_shape (n : nat) L h w iyi ixi dx dy limages off :
  length iyi = n -> length ixi = n -> length dx = n -> length dy = n ->
  forall st,
    all_length n (fst st) -> length (snd st) = n ->
    let r := oy_loop lanczos_filter lanczos3_filter_table
               L h w iyi ixi dx dy limages off st in
    length (fst r) = length (fst st) /\ all_length n (fst r) /\
    length (snd r) = n.
Proof.
  intros Hy Hx Hdx Hdy. unfold oy_loop.
  set (F := fun st oy => ox_loop _ _ L h w iyi ixi dx _ oy limages off st).
  assert (HF : forall offy st,
             all_length n (fst st) -> length (snd st) = n ->
             length (fst (fold_left F offy st)) = length (fst st) /\
             all_length n (fst (fold_left F offy st)) /\
             length (snd (fold_left F offy st)) = n).
  { induction offy as [|oy offy IH]; intros st Hl Hf; [simpl; auto|].
    simpl.
    pose proof (ox_loop_shape n L h w iyi ixi dx
                  (kernel_row lanczos_filter lanczos3_filter_table L oy dy)
                  oy limages) as Hstep.
    unfold kernel_row in Hstep at 1. rewrite length_map in Hstep.
    specialize (Hstep Hy Hx Hdx Hdy off st Hl Hf). cbv zeta in Hstep.
    destruct Hstep as (S1 & S2 & S3).
    specialize (IH (F st oy) S2 S3).
    destruct IH as (I1 & I2 & I3). repeat split; auto.
    rewrite I1. exact S1. }
  intros st Hl Hf. cbv zeta. apply HF; assumption.
Qed.

Lemma lanczos_shape (n : nat) L ixi iyi dx dy laccs limages rims :
  length iyi = n -> length ixi = n -> length dx = n -> length dy = n ->
  all_length n laccs ->
  lanczos L ixi iyi dx dy laccs limages = Ok rims ->
  length rims = length laccs /\ all_length n rims.
Proof.
  intros Hy Hx Hdx Hdy Hl. unfold _lanczos_interpolate.
  destruct limages as [|im0 limages']; [discriminate|].
  destruct (shape im0) as [h w].
  pose proof (oy_loop_shape n L h w iyi ixi dx dy (im0 :: limages')
                (arange (- L) (L + 1)) Hy Hx Hdx Hdy
                (laccs, zeros (length ixi))) as Hs.
  cbn [fst snd] in Hs.
  assert (Hz : length (zeros (length ixi)) = n).
  { unfold zeros. now rewrite repeat_length. }
  specialize (Hs Hl Hz). cbv zeta in Hs.
  destruct (oy_loop _ _ _ _ _ _ _ _ _ _ _ _) as [laccs' fsum'].
  cbn [fst snd] in Hs. destruct Hs as (S1 & S2 & S3).
  intros Hr. inversion Hr; subst. rewrite length_map. split; [exact S1|].
  unfold all_length in *. rewrite Forall_map.
  eapply Forall_impl; [|exact S2]. cbv beta. intros l Hlen.
  rewrite zipWith_length. lia.
Qed.

(** *** Properties of every successful call *)

Lemma resample_coords_bounds targetwcs wcs spline fallback step margin
    Yo Xo Yi Xi fxi fyi :
  resample_coords RectBivariateSpline targetwcs wcs spline fallback step margin
    = Ok (Yo, Xo, Yi, Xi, fxi, fyi) ->
  Forall (fun x => 0 <= x < imagew targetwcs) Xo /\
  Forall (fun y => 0 <= y < imageh targetwcs) Yo /\
  Forall (fun x => 0 <= x < imagew wcs) Xi /\
  Forall (fun y => 0 <= y < imageh wcs) Yi.
Proof using RectBivariateSpline.
  intros Hr. apply resample_coords_inv in Hr.
  destruct Hr as (mode & _ & Hr). cbv zeta in Hr.
  destruct Hr as (Hgx & Hgy & -> & -> & -> & -> & _).
  destruct (rounded_coords_length targetwcs wcs mode _
              (snd (candidate_grid targetwcs wcs (grid_margin mode margin)))
              Hgx) as [Lx Ly].
  revert Hgx Hgy Lx Ly. unfold candidate_grid.
  destruct (bbox targetwcs wcs) as [[[x0 y0] x1] y1]. cbn [fst snd].
  set (ixo := dense_axis (imagew targetwcs) x0 x1 (grid_margin mode margin)).
  set (iyo := dense_axis (imageh targetwcs) y0 y1 (grid_margin mode margin)).
  intros Hgx Hgy Lx Ly.
  assert (Hnx : length ixo <> 0%nat) by now rewrite length_zero_iff_nil.
  unfold take. rewrite !Forall_map.
  repeat split; apply Forall_forall; intros k Hk;
    apply retained_In in Hk; destruct Hk as (K1 & K2 & K3);
    apply in_bounds_spec in K3.
  - apply dense_axis_cell. now apply Nat.mod_upper_bound.
  - apply dense_axis_cell. apply Nat.Div0.div_lt_upper_bound.
    rewrite Lx in K1. rewrite Nat.mul_comm. exact K1.
  - apply K3.
  - apply K3.
Qed.

(** C2.  In every successful result, each returned target coordinate lies in
    [[0,W) x [0,H)] and each returned integer source coordinate lies in
    [[0,w) x [0,h)]. *)
Theorem resample_bounds targetwcs wcs Limages L spline fallback step margin
    Yo Xo Yi Xi ims :
  resample_with_wcs lanczos_filter lanczos3_filter_table
    RectBivariateSpline targetwcs wcs Limages L spline fallback step margin
    = Ok (Yo, Xo, Yi, Xi, ims) ->
  Forall (fun x => 0 <= x < imagew targetwcs) Xo /\
  Forall (fun y => 0 <= y < imageh targetwcs) Yo /\
  Forall (fun x => 0 <= x < imagew wcs) Xi /\
  Forall (fun y => 0 <= y < imageh wcs) Yi.
Proof.
  intros Hr. apply resample_ok_iff in Hr.
  destruct Hr as (_ & fxi & fyi & Hr & _).
  now apply resample_coords_bounds in Hr.
Qed.

(** C10.  In every successful result the returned [(target_y, target_x)]
    pairs are pairwise distinct. *)
Theorem resample_targets_distinct targetwcs wcs Limages L spline fallback
    step margin Yo Xo Yi Xi ims :
  resample_with_wcs lanczos_filter lanczos3_filter_table
    RectBivariateSpline targetwcs wcs Limages L spline fallback step margin
    = Ok (Yo, Xo, Yi, Xi, ims) ->
  NoDup (combine Yo Xo).
Proof.
  intros Hr. apply resample_ok_iff in Hr.
  destruct Hr as (_ & fxi & fyi & Hr & _).
  apply resample_coords_inv in Hr.
  destruct Hr as (mode & _ & Hr). cbv zeta in Hr.
  destruct Hr as (Hgx & _ & -> & -> & _).
  rewrite combine_map_same.
  apply NoDup_map_inj_in; [|apply retained_NoDup].
  intros a b _ _ Hab.
  set (nx := length (fst (candidate_grid targetwcs wcs
                            (grid_margin mode margin)))) in *.
  assert (Hnx : nx <> 0%nat) by (unfold nx; now rewrite length_zero_iff_nil).
  inversion Hab as [[Hq Hm]].
  rewrite (Nat.div_mod_eq a nx), (Nat.div_mod_eq b nx).
  assert ((a / nx = b / nx)%nat) by lia.
  assert ((a mod nx = b mod nx)%nat) by lia.
  congruence.
Qed.

End Pipeline.

(** ** The bounding box *)

Section BoundingBox.

Import Np.

Lemma Qmin_case (x y : Q) : Qmin x y = x \/ Qmin x y = y.
Proof.
  unfold Qmin, GenericMinMax.gmin. destruct (x ?= y)%Q; auto.
Qed.

Lemma Qmax_case (x y : Q) : Qmax x y = x \/ Qmax x y = y.
Proof.
  unfold Qmax, GenericMinMax.gmax. destruct (x ?= y)%Q; auto.
Qed.

Lemma fold_Qmin_spec (l : list Q) (x : Q) :
  In (fold_left Qmin l x) (x :: l) /\
  (fold_left Qmin l x <= x)%Q /\
  Forall (fun v => (fold_left Qmin l x <= v)%Q) l.
Proof.
  revert x. induction l as [|y l IH]; intros x; simpl.
  - repeat split; [now left | apply Qle_refl | constructor].
  - destruct (IH (Qmin x y)) as (Hin & Hle & Hall).
    repeat split.
    + destruct Hin as [Hin|Hin]; [|right; right; exact Hin].
      destruct (Qmin_case x y) as [E|E]; rewrite E in Hin at 1;
        [left | right; left]; exact Hin.
    + eapply Qle_trans; [exact Hle | apply Q.le_min_l].
    + constructor; [|exact Hall].
      eapply Qle_trans; [exact Hle | apply Q.le_min_r].
Qed.

Lemma fold_Qmax_spec (l : list Q) (x : Q) :
  In (fold_left Qmax l x) (x :: l) /\
  (x <= fold_left Qmax l x)%Q /\
  Forall (fun v => (v <= fold_left Qmax l x)%Q) l.
Proof.
  revert x. induction l as [|y l IH]; intros x; simpl.
  - repeat split; [now left | apply Qle_refl | constructor].
  - destruct (IH (Qmax x y)) as (Hin & Hle & Hall).
    repeat split.
    + destruct Hin as [Hin|Hin]; [|right; right; exact Hin].
      destruct (Qmax_case x y) as [E|E]; rewrite E in Hin at 1;
        [left | right; left]; exact Hin.
    + eapply Qle_trans; [apply Q.le_max_l | exact Hle].
    + constructor; [|exact Hall].
      eapply Qle_trans; [apply Q.le_max_r | exact Hle].
Qed.

Lemma amin_is_min (l : list Q) : l <> [] -> is_min (amin l) l.
Proof.
  destruct l as [|x l]; [congruence|]. intros _. unfold is_min, amin.
  destruct (fold_Qmin_spec l x) as (Hin & Hle & Hall).
  split; [exact Hin | now constructor].
Qed.

Lemma amax_is_max (l : list Q) : l <> [] -> is_max (amax l) l.
Proof.
  destruct l as [|x l]; [congruence|]. intros _. unfold is_max, amax.
  destruct (fold_Qmax_spec l x) as (Hin & Hle & Hall).
  split; [exact Hin | now constructor].
Qed.

(** [round] is rounding to the nearest integer, ties to even. *)
Lemma round_rounds_to (q : Q) : rounds_to q (round q).
Proof.
  unfold rounds_to, round.
  pose proof (Qfloor_le q) as Hlo. pose proof (Qlt_floor q) as Hhi.
  rewrite inject_Z_plus in Hhi. change (inject_Z 1) with 1%Q in Hhi.
  assert (Hup : (inject_Z (Qfloor q + 1) == inject_Z (Qfloor q) + 1)%Q)
    by (rewrite inject_Z_plus; reflexivity).
  destruct (Qcompare_spec (q - inject_Z (Qfloor q)) (1 # 2)) as [E|Hlt|Hgt].
  - destruct (Z.even (Qfloor q)) eqn:Ev.
    + split; [|intros _; exact Ev].
      revert Hlo Hhi E. generalize (inject_Z (Qfloor q)). intros F Hlo Hhi E.
      split; lra.
    + split.
      * rewrite Hup. revert Hlo Hhi E. generalize (inject_Z (Qfloor q)).
        intros F Hlo Hhi E. split; lra.
      * intros _. rewrite Z.add_1_r, Z.even_succ, <- Z.negb_even, Ev.
        reflexivity.
  - split.
    + revert Hlo Hhi Hlt. generalize (inject_Z (Qfloor q)).
      intros F Hlo Hhi Hlt. split; lra.
    + intros Htie. exfalso. revert Hlo Hhi Hlt Htie.
      generalize (inject_Z (Qfloor q)). intros F Hlo Hhi Hlt [Htie|Htie]; lra.
  - split.
    + rewrite Hup. revert Hlo Hhi Hgt. generalize (inject_Z (Qfloor q)).
      intros F Hlo Hhi Hgt. split; lra.
    + intros Htie. exfalso.
      assert (Htie' : (q - (inject_Z (Qfloor q) + 1) == 1 # 2)%Q \/
                      (q - (inject_Z (Qfloor q) + 1) == - (1 # 2))%Q)
        by (destruct Htie as [Ht|Ht]; [left|right]; rewrite <- Hup; exact Ht).
      revert Hlo Hhi Hgt Htie'. generalize (inject_Z (Qfloor q)).
      intros F Hlo Hhi Hgt [Ht|Ht]; lra.
Qed.

(** C7.  The bounding box is obtained from exactly the four FITS corners
    [(1,1)], [(w,1)], [(w,h)], [(1,h)] of the source image, each sent through
    the source mapper's pixel-to-sky and the target mapper's sky-to-pixel
    conversion and moved back by 1; its four sides are the per-axis minimum
    and maximum of the four projections, each rounded to the nearest
    integer (at most 1/2 away, the even neighbour on a tie).  The step has
    no error path: it yields a box for every pair of mappers. *)
Theorem bbox_four_corners (targetwcs wcs : WCS) :
  let w := imagew wcs in
  let h := imageh wcs in
  let to_target := fun c : Z * Z =>
    let '(ra, dec) :=
      pixelxy2radec wcs (inject_Z (fst c)) (inject_Z (snd c)) in
    let '(_, xw, yw) := radec2pixelxy targetwcs ra dec in
    ((xw - 1)%Q, (yw - 1)%Q) in
  let pts := map to_target [(1, 1); (w, 1); (w, h); (1, h)] in
  exists xmin ymin xmax ymax : Q,
    is_min xmin (map fst pts) /\ is_min ymin (map snd pts) /\
    is_max xmax (map fst pts) /\ is_max ymax (map snd pts) /\
    exists x0 y0 x1 y1 : Z,
      bbox targetwcs wcs = (x0, y0, x1, y1) /\
      rounds_to xmin x0 /\ rounds_to ymin y0 /\
      rounds_to xmax x1 /\ rounds_to ymax y1.
Proof.
  intros w h to_target pts.
  assert (Hpts : corner_XY targetwcs wcs = pts).
  { unfold corner_XY, corners, pts, to_target, project_corner. fold w h.
    cbn [map fst snd].
    replace (w - 1 + 1) with w by lia. replace (h - 1 + 1) with h by lia.
    reflexivity. }
  exists (amin (map fst pts)), (amin (map snd pts)),
         (amax (map fst pts)), (amax (map snd pts)).
  repeat (split; [first [apply amin_is_min | apply amax_is_max];
                  discriminate|]).
  exists (round (amin (map fst pts))), (round (amin (map snd pts))),
         (round (amax (map fst pts))), (round (amax (map snd pts))).
  split; [unfold bbox; now rewrite Hpts|].
  repeat split; apply round_rounds_to.
Qed.

End BoundingBox.

(** ** The spline node vectors *)

Section SplineNodes.

Import Np NpFacts.

Lemma Qdiv_le_iff (a b c : Q) : (0 < c)%Q -> (a / c <= b <-> a <= b * c)%Q.
Proof.
  intros Hc. split; intros H.
  - setoid_replace a with (a / c * c)%Q
      by (field; intros E; rewrite E in Hc; now apply Qlt_irrefl in Hc).
    apply Qmult_le_compat_r; [exact H | now apply Qlt_le_weak].
  - now apply Qle_shift_div_r.
Qed.

Lemma set_last_snoc {A} (l : list A) (x v : A) :
  set_last (l ++ [x]) v = l ++ [v].
Proof.
  unfold set_last. rewrite removelast_last.
  destruct (l ++ [x]) eqn:E; [now destruct l|reflexivity].
Qed.

Lemma arange_snoc (a b : Z) : a <= b -> arange a (b + 1) = arange a b ++ [b].
Proof.
  intros Hab. unfold arange.
  replace (Z.to_nat (b + 1 - a)) with (Z.to_nat (b - a) + 1)%nat by lia.
  rewrite seq_app, map_app. simpl. f_equal. f_equal. lia.
Qed.

Lemma linspace_length (lo hi : Q) (n : Z) :
  length (linspace lo hi n) = Z.to_nat n.
Proof.
  unfold linspace. destruct (Z.leb_spec n 0); [simpl; lia|].
  destruct (Z.eqb_spec n 1); [subst; reflexivity|].
  replace n with (n - 1 + 1) at 1 by lia.
  rewrite arange_snoc by lia. rewrite map_app. cbn [map].
  rewrite set_last_snoc, length_app, length_map, arange_length. simpl. lia.
Qed.

(** Every node of a [linspace] is [i * stride + start], the last one
    included. *)
Lemma linspace_nth (lo hi : Q) (n : Z) (i : nat) :
  2 <= n -> (i < Z.to_nat n)%nat ->
  (nth i (linspace lo hi n) 0 ==
     inject_Z (Z.of_nat i) * ((hi - lo) / inject_Z (n - 1)) + lo)%Q.
Proof.
  intros Hn Hi. unfold linspace.
  destruct (Z.leb_spec n 0); [lia|]. destruct (Z.eqb_spec n 1); [lia|].
  replace n with (n - 1 + 1) at 1 by lia.
  rewrite arange_snoc by lia. rewrite map_app. cbn [map].
  rewrite set_last_snoc.
  destruct (Nat.lt_ge_cases i (Z.to_nat (n - 1))) as [Hlt|Hge].
  - rewrite app_nth1 by now rewrite length_map, arange_length, Z.sub_0_r.
    rewrite (nth_indep _ 0%Q
               ((fun j => (inject_Z j * ((hi - lo) / inject_Z (n - 1)) + lo)%Q)
                  0))
      by now rewrite length_map, arange_length, Z.sub_0_r.
    rewrite (map_nth (fun j =>
               (inject_Z j * ((hi - lo) / inject_Z (n - 1)) + lo)%Q)).
    rewrite arange_nth by now rewrite Z.sub_0_r.
    rewrite Z.add_0_l. reflexivity.
  - rewrite app_nth2 by (rewrite length_map, arange_length, Z.sub_0_r; lia).
    rewrite length_map, arange_length, Z.sub_0_r.
    replace (i - Z.to_nat (n - 1))%nat with 0%nat by lia. cbn [nth].
    replace (Z.of_nat i) with (n - 1) by lia.
    assert (Hnz : ~ (inject_Z (n - 1) == 0)%Q).
    { intros E. rewrite (inject_Z_injective (n - 1) 0) in E. lia. }
    field. exact Hnz.
Qed.

Lemma spline_axis_length (W c0 c1 margin step : Z) :
  length (spline_axis W c0 c1 margin step) =
  Z.to_nat (Qceiling (inject_Z (axis_hi W c1 margin - axis_lo c0 margin)
                        / inject_Z step) + 1).
Proof. unfold spline_axis. apply linspace_length. Qed.

(** An empty node vector means an empty dense axis for the same margin. *)
Lemma spline_axis_empty_dense (W c0 c1 margin step : Z) :
  0 < step ->
  spline_axis W c0 c1 margin step = [] ->
  dense_axis W c0 c1 margin = [].
Proof.
  intros Hstep Hnil. apply length_zero_iff_nil in Hnil.
  rewrite spline_axis_length in Hnil.
  set (d := axis_hi W c1 margin - axis_lo c0 margin) in *.
  assert (Hc : Qceiling (inject_Z d / inject_Z step) <= -1) by lia.
  assert (Hq : (inject_Z d / inject_Z step <= inject_Z (-1))%Q).
  { eapply Qle_trans; [apply Qle_ceiling|]. now rewrite <- Zle_Qle. }
  apply Qdiv_le_iff in Hq; [|now rewrite <- (Zlt_Qlt 0)].
  rewrite <- inject_Z_mult, <- Zle_Qle in Hq.
  unfold dense_axis. apply arange_empty.
  unfold d, axis_hi, axis_lo in Hq. lia.
Qed.

(** More than three nodes leave a non-empty dense axis. *)
Lemma spline_axis_large_dense (W c0 c1 margin step : Z) :
  0 < step ->
  (3 < length (spline_axis W c0 c1 margin step))%nat ->
  dense_axis W c0 c1 margin <> [].
Proof.
  intros Hstep Hlen. rewrite spline_axis_length in Hlen.
  set (d := axis_hi W c1 margin - axis_lo c0 margin) in *.
  assert (Hd : 0 < d).
  { destruct (Z.lt_ge_cases 0 d) as [|Hle]; [assumption|exfalso].
    assert (Hq : (inject_Z d / inject_Z step <= inject_Z 0)%Q).
    { apply Qdiv_le_iff; [now rewrite <- (Zlt_Qlt 0)|].
      rewrite <- inject_Z_mult, <- Zle_Qle. lia. }
    apply Qceiling_resp_le in Hq. rewrite Qceiling_Z in Hq. lia. }
  unfold dense_axis. rewrite arange_empty.
  unfold d, axis_hi, axis_lo in Hd. lia.
Qed.

Lemma linspace_spans (lo hi step : Z) :
  0 < step -> lo <= hi ->
  spans lo hi step
    (linspace (inject_Z lo) (inject_Z hi)
       (Qceiling (inject_Z (hi - lo) / inject_Z step) + 1)).
Proof.
  intros Hstep Hlohi.
  pose proof (linspace_length (inject_Z lo) (inject_Z hi)
                (Qceiling (inject_Z (hi - lo) / inject_Z step) + 1)) as Hlen.
  set (m := Qceiling (inject_Z (hi - lo) / inject_Z step)) in *.
  assert (Hsq : (0 < inject_Z step)%Q) by now rewrite <- (Zlt_Qlt 0).
  assert (Hdm : hi - lo <= m * step).
  { rewrite Zle_Qle, inject_Z_mult. apply Qdiv_le_iff; [exact Hsq|].
    apply Qle_ceiling. }
  assert (Hm0 : 0 <= m) by nia.
  destruct (Z.eq_dec m 0) as [E0|Hmpos].
  - (* a single node: lo = hi *)
    assert (Ehl : hi = lo) by nia. unfold spans. fold m.
    rewrite E0, Ehl. cbn [Z.add].
    unfold linspace. cbn [Z.leb Z.eqb Z.compare Pos.eqb].
    cbn [nth length Nat.sub].
    split; [reflexivity|]. repeat split; try reflexivity.
    + constructor; [|constructor]. split; apply Qle_refl.
    + exists (inject_Z step). split; [|split].
      * split; [now apply Qlt_le_weak | apply Qle_refl].
      * intros _. reflexivity.
      * intros [|i] Hi; [|simpl in Hi; lia]. cbn [nth Z.of_nat].
        change (inject_Z 0) with 0%Q. ring.
  - assert (Hm : 1 <= m) by lia. clear Hmpos.
    set (xx := linspace (inject_Z lo) (inject_Z hi) (m + 1)) in *.
    set (stride := ((inject_Z hi - inject_Z lo) / inject_Z m)%Q).
    assert (Hmq : (0 < inject_Z m)%Q) by (rewrite <- (Zlt_Qlt 0); lia).
    assert (Hnth : forall i, (i < length xx)%nat ->
               (nth i xx 0 == inject_Z (Z.of_nat i) * stride + inject_Z lo)%Q).
    { intros i Hi. unfold xx, stride.
      rewrite linspace_nth by lia.
      replace (m + 1 - 1) with m by lia. reflexivity. }
    assert (Hms : (inject_Z m * stride == inject_Z hi - inject_Z lo)%Q).
    { unfold stride. field. intros E. rewrite E in Hmq.
      now apply Qlt_irrefl in Hmq. }
    assert (Hs0 : (0 <= stride)%Q).
    { unfold stride. apply Qle_shift_div_l; [exact Hmq|].
      rewrite Qmult_0_l. unfold Qminus. rewrite <- inject_Z_opp,
        <- inject_Z_plus, <- (Zle_Qle 0). lia. }
    assert (Hs1 : (stride <= inject_Z step)%Q).
    { unfold stride. apply Qle_shift_div_r; [exact Hmq|].
      unfold Qminus. rewrite <- inject_Z_opp, <- inject_Z_plus,
        <- inject_Z_mult, <- Zle_Qle. lia. }
    unfold spans. fold m. split; [exact Hlen|]. repeat split.
    + rewrite Hnth by lia. simpl inject_Z. ring.
    + rewrite Hnth by lia.
      replace (Z.of_nat (length xx - 1)) with m by lia.
      rewrite Hms. ring.
    + apply Forall_nth. intros i d Hi.
      rewrite (nth_indep _ d 0%Q) by exact Hi. rewrite Hnth by exact Hi.
      assert (Hi0 : (0 <= inject_Z (Z.of_nat i))%Q)
        by (rewrite <- (Zle_Qle 0); lia).
      assert (Him : (inject_Z (Z.of_nat i) <= inject_Z m)%Q)
        by (rewrite <- Zle_Qle; lia).
      pose proof (Qmult_le_compat_r _ _ _ Him Hs0) as Hup.
      pose proof (Qmult_le_0_compat _ _ Hi0 Hs0) as Hdown.
      rewrite Hms in Hup. split; lra.
    + exists stride. split; [split; assumption|]. split.
      * (* the step divides the range: the stride is the step *)
        intros [k Hk].
        assert (Ekm : m = k).
        { unfold m. rewrite Hk.
          assert (E : (inject_Z (k * step) / inject_Z step == inject_Z k)%Q).
          { rewrite inject_Z_mult. field. intros E. rewrite E in Hsq.
            now apply Qlt_irrefl in Hsq. }
          rewrite (Qceiling_comp _ _ E). apply Qceiling_Z. }
        unfold stride. unfold Qminus.
        rewrite <- inject_Z_opp, <- inject_Z_plus.
        replace (hi + - lo) with (m * step) by lia.
        rewrite inject_Z_mult. field. intros E. rewrite E in Hmq.
        now apply Qlt_irrefl in Hmq.
      * intros i Hi. rewrite Hnth by exact Hi. ring.
Qed.

Lemma spline_axis_spans (W c0 c1 margin step : Z) :
  0 < step ->
  axis_lo c0 margin <= axis_hi W c1 margin ->
  spans (axis_lo c0 margin) (axis_hi W c1 margin) step
    (spline_axis W c0 c1 margin step).
Proof. intros Hstep Hlohi. unfold spline_axis. now apply linspace_spans. Qed.

(** C6 (as amended).  With a positive step, whenever the clamped range of
    an axis is not empty ([lo <= hi], where [lo = max(0, c0 - margin)] and
    [hi = min(W, c1 + margin)]), the node vector of that axis has
    [ceil((hi - lo) / step) + 1] nodes, starts at [lo], ends at [hi], stays
    inside the closed interval [[lo, hi]], itself inside [[0, W]], and is
    evenly spaced: node [i] is [lo + i * stride], where the stride is at
    most the configured step and is the configured step whenever the step
    divides [hi - lo]. *)
Theorem spline_nodes_span (targetwcs wcs : WCS) (step margin : Z) :
  0 < step ->
  let W := imagew targetwcs in
  let H := imageh targetwcs in
  let x0 := fst (fst (fst (bbox targetwcs wcs))) in
  let y0 := snd (fst (fst (bbox targetwcs wcs))) in
  let x1 := snd (fst (bbox targetwcs wcs)) in
  let y1 := snd (bbox targetwcs wcs) in
  let xx := fst (spline_nodes targetwcs wcs step margin) in
  let yy := snd (spline_nodes targetwcs wcs step margin) in
  (axis_lo x0 margin <= axis_hi W x1 margin ->
   spans (axis_lo x0 margin) (axis_hi W x1 margin) step xx /\
   0 <= axis_lo x0 margin /\ axis_hi W x1 margin <= W) /\
  (axis_lo y0 margin <= axis_hi H y1 margin ->
   spans (axis_lo y0 margin) (axis_hi H y1 margin) step yy /\
   0 <= axis_lo y0 margin /\ axis_hi H y1 margin <= H).
Proof.
  intros Hstep W H x0 y0 x1 y1 xx yy.
  unfold xx, yy, spline_nodes. unfold x0, y0, x1, y1.
  destruct (bbox targetwcs wcs) as [[[bx0 by0] bx1] by1]. cbn [fst snd].
  split; intros Hlohi; (split; [now apply spline_axis_spans|]);
    unfold axis_lo, axis_hi; lia.
Qed.

End SplineNodes.

(** ** Selection of the mapper *)

Section Selection.

Variable lanczos_filter : Z -> Q -> Q.
Variable lanczos3_filter_table : option (Q -> Q).
Variable RectBivariateSpline : list Q -> list Q -> list (list Q) -> Q -> Q -> Q.


(** C3.  With the spline requested: an empty node vector raises
    [NoOverlapError]; otherwise a vector of at most 3 nodes makes the call
    behave as the direct (spline-less) call when [splineFallback] is set, and
    raise [SmallOverlapError] when it is not. *)
Theorem spline_small_overlap targetwcs wcs Limages L fallback step margin :
  step <> 0 ->
  shapes_ok wcs Limages = true ->
  let xx := fst (spline_nodes targetwcs wcs step margin) in
  let yy := snd (spline_nodes targetwcs wcs step margin) in
  let R := resample_with_wcs lanczos_filter lanczos3_filter_table
    RectBivariateSpline targetwcs wcs Limages L true fallback step margin in
  ((length xx = 0 \/ length yy = 0)%nat -> R = Raise NoOverlapError) /\
  ((0 < length xx)%nat -> (0 < length yy)%nat ->
   (length xx <= 3 \/ length yy <= 3)%nat ->
   R = if fallback
       then resample_with_wcs lanczos_filter lanczos3_filter_table
    RectBivariateSpline targetwcs wcs Limages L false fallback step margin
       else Raise SmallOverlapError).
Proof.
  intros Hstep Hshape xx yy R.
  unfold R, resample_with_wcs. unfold shapes_ok in Hshape. rewrite Hshape.
  cbn [assert_ bind]. unfold resample_coords, select_mode.
  apply Z.eqb_neq in Hstep. rewrite Hstep.
  fold xx yy. destruct (spline_nodes targetwcs wcs step margin) as [xx0 yy0].
  cbn [fst snd] in xx, yy. subst xx yy.
  split.
  - intros Hemp.
    assert (E : (length xx0 =? 0)%nat || (length yy0 =? 0)%nat = true).
    { apply orb_true_iff. rewrite !Nat.eqb_eq. exact Hemp. }
    rewrite E. reflexivity.
  - intros Hx Hy Hsmall.
    assert (E : (length xx0 =? 0)%nat || (length yy0 =? 0)%nat = false).
    { apply orb_false_iff. rewrite !Nat.eqb_neq. lia. }
    assert (E' : (length xx0 <=? 3)%nat || (length yy0 <=? 3)%nat = true).
    { apply orb_true_iff. rewrite !Nat.leb_le. exact Hsmall. }
    rewrite E, E'. destruct fallback; reflexivity.
Qed.

Lemma lanczos_total L ixi iyi dx dy laccs limages :
  limages <> [] ->
  exists rims,
    _lanczos_interpolate lanczos_filter lanczos3_filter_table
      L ixi iyi dx dy laccs limages = Ok rims.
Proof.
  intros Hne. unfold _lanczos_interpolate.
  destruct limages as [|im0 limages']; [congruence|].
  destruct (shape im0) as [h w].
  destruct (oy_loop _ _ _ _ _ _ _ _ _ _ _ _) as [laccs' fsum'].
  eexists. reflexivity.
Qed.

(** The spline block raises [NoOverlapError] only over an empty dense grid. *)
Lemma select_mode_no_overlap targetwcs wcs spline fallback step margin :
  0 < step ->
  select_mode targetwcs wcs spline fallback step margin
    = Raise NoOverlapError ->
  fst (candidate_grid targetwcs wcs margin) = [] \/
  snd (candidate_grid targetwcs wcs margin) = [].
Proof.
  intros Hstep. unfold select_mode, spline_nodes, candidate_grid.
  destruct spline; [|discriminate].
  destruct (Z.eqb_spec step 0); [lia|].
  destruct (bbox targetwcs wcs) as [[[x0 y0] x1] y1]. cbn [fst snd].
  destruct ((length _ =? 0)%nat || (length _ =? 0)%nat) eqn:E.
  - intros _. apply orb_true_iff in E. rewrite !Nat.eqb_eq in E.
    rewrite !length_zero_iff_nil in E.
    destruct E as [E|E]; [left | right];
      now apply (spline_axis_empty_dense _ _ _ _ step).
  - destruct ((length _ <=? 3)%nat || _); [destruct fallback|];
      absurd_result.
Qed.

Lemma select_mode_errors targetwcs wcs spline fallback step margin e :
  0 < step ->
  select_mode targetwcs wcs spline fallback step margin = Raise e ->
  e = NoOverlapError \/ e = SmallOverlapError.
Proof.
  intros Hstep. unfold select_mode.
  destruct spline; [|discriminate].
  destruct (Z.eqb_spec step 0); [lia|].
  destruct (spline_nodes targetwcs wcs step margin) as [xx yy].
  destruct ((length _ =? 0)%nat || _); [intros E; inversion E; auto|].
  destruct ((length _ <=? 3)%nat || _); [destruct fallback|];
    try absurd_result.
  intros E; inversion E; auto.
Qed.

(** The coordinate stage after a successful mode selection. *)
Lemma resample_coords_after_mode targetwcs wcs spline fallback step margin
    mode :
  select_mode targetwcs wcs spline fallback step margin = Ok mode ->
  let g := candidate_grid targetwcs wcs (grid_margin mode margin) in
  let r := resample_coords RectBivariateSpline targetwcs wcs spline fallback
             step margin in
  ((fst g = [] \/ snd g = []) -> r = Raise NoOverlapError) /\
  (fst g <> [] -> snd g <> [] ->
   r <> Raise NoOverlapError /\ r <> Raise SmallOverlapError /\
   (survivors RectBivariateSpline targetwcs wcs spline fallback step margin
      = [] ->
    r = Ok ([], [], [], [], [], []))).
Proof.
  intros Hmode g r. unfold r, resample_coords, survivors. rewrite Hmode.
  cbn [bind]. fold g. destruct g as [ixo iyo]. cbn [fst snd]. split.
  - intros [-> | ->]; [reflexivity|]. simpl. now rewrite orb_true_r.
  - intros Hx Hy.
    assert (E : (length ixo =? 0)%nat || (length iyo =? 0)%nat = false).
    { apply orb_false_iff. rewrite !Nat.eqb_neq, !length_zero_iff_nil.
      split; assumption. }
    rewrite E.
    destruct (source_coords _ _ _ _ _ _) as [fxi2 fyi2]. cbn [fst snd].
    repeat split.
    + unfold Np.unravel_index, assert_.
      repeat (match goal with
              | |- context [if ?c then Ok tt else _] =>
                  destruct c; cbn [bind]; [|discriminate]
              end).
      discriminate.
    + unfold Np.unravel_index, assert_.
      repeat (match goal with
              | |- context [if ?c then Ok tt else _] =>
                  destruct c; cbn [bind]; [|discriminate]
              end).
      discriminate.
    + intros ->. reflexivity.
Qed.

(** For a positive step, images of the right shape and a call that does
    not end in [SmallOverlapError] (raised by the spline block when fallback
    is off and a node vector has 1 to 3 nodes):
    [NoOverlapError] is raised exactly when the dense target grid has no
    node along one of its axes; and when the grid is not empty but no pixel
    survives the in-bounds filter, the call succeeds with empty coordinate
    arrays and one empty value array per image. *)
Theorem no_overlap_iff_empty_grid targetwcs wcs Limages L spline fallback
    step margin :
  0 < step ->
  shapes_ok wcs Limages = true ->
  let R := resample_with_wcs lanczos_filter lanczos3_filter_table
    RectBivariateSpline targetwcs wcs Limages L spline fallback step margin in
  let g := candidate_grid targetwcs wcs
             (margin_at_grid targetwcs wcs spline fallback step margin) in
  R <> Raise SmallOverlapError ->
  (R = Raise NoOverlapError <-> (fst g = [] \/ snd g = [])) /\
  (fst g <> [] -> snd g <> [] ->
   survivors RectBivariateSpline targetwcs wcs spline fallback step margin
     = [] ->
   exists rims,
     R = Ok ([], [], [], [], rims) /\
     length rims = length Limages /\ Forall (fun v => v = []) rims).
Proof.
  intros Hstep Hshape R g. unfold R, g, margin_at_grid. clear R g.
  unfold resample_with_wcs. unfold shapes_ok in Hshape. rewrite Hshape.
  cbn [assert_ bind].
  destruct (select_mode targetwcs wcs spline fallback step margin)
    as [mode|e] eqn:Hmode.
  - pose proof (resample_coords_after_mode _ _ _ _ _ _ _ Hmode) as Hc.
    cbv zeta in Hc. destruct Hc as [Hemp Hfull].
    set (g := candidate_grid targetwcs wcs (grid_margin mode margin)) in *.
    intros _. split; [split|].
    + intros HR.
      destruct (fst g) as [|a ga] eqn:Ex; [now left|].
      destruct (snd g) as [|b gb] eqn:Ey; [now right|].
      exfalso. destruct Hfull as (Hn & Hs & _); try discriminate.
      destruct (resample_coords _ _ _ _ _ _ _)
        as [[[[[[iyo ixo] iyi] ixi] fxi] fyi]|e]; cbn [bind] in HR.
      * destruct (resample_values _ _ _ _ _ _ _ _ _) eqn:Hv;
          [discriminate|]. cbn [bind] in HR.
        unfold resample_values in Hv. destruct Limages as [|im ims'];
          [discriminate|].
        destruct (lanczos_total L ixi iyi
                    (Np.zipWith (fun f i => (f - inject_Z i)%Q) fxi ixi)
                    (Np.zipWith (fun f i => (f - inject_Z i)%Q) fyi iyi)
                    (map (fun _ => Np.zeros (length ixo)) (im :: ims'))
                    (im :: ims')) as [rims Hr]; [discriminate|].
        congruence.
      * congruence.
    + intros Hg. now rewrite (Hemp Hg).
    + intros Hx Hy Hsurv. destruct (Hfull Hx Hy) as (_ & _ & Hok).
      rewrite (Hok Hsurv). cbn [bind]. unfold resample_values.
      destruct Limages as [|im ims'].
      * exists []. cbn [bind]. repeat split. constructor.
      * destruct (lanczos_total L [] []
                    (Np.zipWith (fun f i => (f - inject_Z i)%Q) [] [])
                    (Np.zipWith (fun f i => (f - inject_Z i)%Q) [] [])
                    (map (fun _ => Np.zeros (@length Z [])) (im :: ims'))
                    (im :: ims')) as [rims Hr]; [discriminate|].
        rewrite Hr. cbn [bind]. exists rims. split; [reflexivity|].
        apply (lanczos_shape _ _ 0%nat) in Hr; try reflexivity.
        -- destruct Hr as [Hlen Hall]. rewrite length_map in Hlen.
           split; [exact Hlen|].
           eapply Forall_impl; [|exact Hall]. cbv beta.
           intros v Hv. now apply length_zero_iff_nil.
        -- unfold all_length. rewrite Forall_map. apply Forall_forall.
           intros _ _. reflexivity.
  - assert (Hc : resample_coords RectBivariateSpline targetwcs wcs spline
                   fallback step margin = Raise e)
      by (unfold resample_coords; now rewrite Hmode).
    rewrite Hc. cbn [bind]. intros Hns.
    destruct (select_mode_errors _ _ _ _ _ _ _ Hstep Hmode) as [-> | ->];
      [|exfalso; apply Hns; reflexivity].
    split; [split|].
    + intros _. now apply (select_mode_no_overlap _ _ spline fallback step).
    + reflexivity.
    + intros Hx Hy.
      destruct (select_mode_no_overlap _ _ _ _ _ _ Hstep Hmode); tauto.
Qed.

End Selection.


(** ** Lanczos interpolation, pixel by pixel *)

Section Lanczos.

Variable lanczos_filter : Z -> Q -> Q.
Variable lanczos3_filter_table : option (Q -> Q).

Abbreviation lanczos' :=
  (_lanczos_interpolate lanczos_filter lanczos3_filter_table).
Abbreviation wt := (weight lanczos_filter lanczos3_filter_table).
Abbreviation krow := (kernel_row lanczos_filter lanczos3_filter_table).

Import Np NpFacts.

Lemma kernel_row_nth L o d p :
  (p < length d)%nat -> nth p (krow L o d) 0%Q = wt L o (nth p d 0%Q).
Proof.
  intros Hp. unfold kernel_row, weight.
  rewrite (nth_indep _ 0%Q
             ((fun v => lfunc lanczos_filter lanczos3_filter_table L L
                          (- inject_Z o + v)%Q) 0%Q))
    by now rewrite length_map.
  now rewrite (map_nth (fun v => lfunc lanczos_filter lanczos3_filter_table
                                   L L (- inject_Z o + v)%Q)).
Qed.

Lemma col_cons (p : nat) (l : list Q) (ls : list (list Q)) :
  col p (l :: ls) = nth p l 0%Q :: col p ls.
Proof. reflexivity. Qed.

(** The vectorised body of the loops acts on pixel [p] as the scalar one. *)
Lemma image_loop_col (n p : nat) fx fy h w oy ox iyi ixi limages :
  length fx = n -> length fy = n -> length iyi = n -> length ixi = n ->
  (p < n)%nat ->
  forall laccs fsum,
    all_length n laccs -> length fsum = n ->
    let r := image_loop fx fy h w oy ox iyi ixi laccs limages fsum in
    let r' := px_image_loop (nth p fx 0 * nth p fy 0)%Q
                (clip (nth p iyi 0 + oy) 0 (h - 1))
                (clip (nth p ixi 0 + ox) 0 (w - 1))
                (col p laccs) limages (nth p fsum 0%Q) in
    col p (fst r) = fst r' /\ nth p (snd r) 0%Q = snd r'.
Proof.
  intros Hfx Hfy Hy Hx Hp. induction limages as [|im limages IH];
    intros laccs fsum Hl Hf.
  - destruct laccs; simpl; auto.
  - destruct laccs as [|lacc laccs]; [simpl; auto|].
    apply Forall_cons_iff in Hl. destruct Hl as [Hlacc Hl'].
    rewrite col_cons. cbn [image_loop px_image_loop].
    set (fxfy := zipWith Qmult fx fy).
    set (fsum' := zipWith Qplus fsum fxfy).
    assert (Hfxfy : length fxfy = n)
      by (unfold fxfy; rewrite zipWith_length; lia).
    assert (Hf' : length fsum' = n)
      by (unfold fsum'; rewrite zipWith_length; lia).
    assert (Nfxfy : nth p fxfy 0%Q = (nth p fx 0 * nth p fy 0)%Q)
      by (unfold fxfy; apply zipWith_nth; lia).
    assert (Nf' : nth p fsum' 0%Q
                  = (nth p fsum 0 + nth p fx 0 * nth p fy 0)%Q).
    { unfold fsum'. rewrite (zipWith_nth _ _ _ _ _ 0%Q 0%Q) by lia.
      now rewrite Nfxfy. }
    specialize (IH laccs fsum' Hl' Hf'). cbv zeta in IH. rewrite Nf' in IH.
    destruct (image_loop fx fy h w oy ox iyi ixi laccs limages fsum')
      as [rest fsum''].
    destruct (px_image_loop _ _ _ (col p laccs) limages _) as [rest' f''].
    cbn [fst snd] in *. destruct IH as [IH1 IH2].
    split; [|exact IH2]. rewrite col_cons, IH1. f_equal.
    assert (Hg : length (gather im h w oy ox iyi ixi) = n)
      by (unfold gather; rewrite zipWith_length; lia).
    rewrite (zipWith_nth _ _ _ _ _ 0%Q 0%Q)
      by (rewrite ?zipWith_length; lia).
    rewrite (zipWith_nth _ _ _ _ _ 0%Q 0%Q) by lia.
    rewrite Nfxfy. unfold gather.
    rewrite (zipWith_nth _ _ _ _ _ 0 0) by lia. reflexivity.
Qed.

Lemma ox_loop_col (n p : nat) L h w iyi ixi dx fy oy limages :
  length iyi = n -> length ixi = n -> length dx = n -> length fy = n ->
  (p < n)%nat ->
  forall off st,
    all_length n (fst st) -> length (snd st) = n ->
    let r := ox_loop lanczos_filter lanczos3_filter_table
               L h w iyi ixi dx fy oy limages off st in
    let r' := px_ox_loop lanczos_filter lanczos3_filter_table
                L h w (nth p iyi 0) (nth p ixi 0) (nth p dx 0%Q)
                (nth p fy 0%Q) oy limages off
                (col p (fst st), nth p (snd st) 0%Q) in
    col p (fst r) = fst r' /\ nth p (snd r) 0%Q = snd r'.
Proof.
  intros Hy Hx Hdx Hfy Hp. unfold ox_loop, px_ox_loop.
  induction off as [|ox off IH]; intros st Hl Hf; [simpl; auto|].
  cbn [fold_left fst snd].
  assert (Hk : length (krow L ox dx) = n)
    by (unfold kernel_row; now rewrite length_map).
  pose proof (image_loop_col n p (krow L ox dx) fy h w oy ox iyi ixi limages
                Hk Hfy Hy Hx Hp (fst st) (snd st) Hl Hf) as Hstep.
  pose proof (image_loop_shape n (krow L ox dx) fy h w oy ox iyi ixi limages
                Hk Hfy Hy Hx (fst st) (snd st) Hl Hf) as Hsh.
  cbv zeta in Hstep, Hsh. rewrite kernel_row_nth in Hstep by lia.
  destruct Hstep as [S1 S2]. destruct Hsh as (_ & H2 & H3).
  specialize (IH _ H2 H3). cbv zeta in IH. cbn [fst snd] in IH.
  rewrite S1, S2 in IH.
  destruct (px_image_loop _ _ _ (col p (fst st)) limages _) as [a f].
  exact IH.
Qed.

Lemma oy_loop_col (n p : nat) L h w iyi ixi dx dy limages off :
  length iyi = n -> length ixi = n -> length dx = n -> length dy = n ->
  (p < n)%nat ->
  forall st,
    all_length n (fst st) -> length (snd st) = n ->
    let r := oy_loop lanczos_filter lanczos3_filter_table
               L h w iyi ixi dx dy limages off st in
    let r' := px_oy_loop lanczos_filter lanczos3_filter_table
                L h w (nth p iyi 0) (nth p ixi 0) (nth p dx 0%Q)
                (nth p dy 0%Q) limages off
                (col p (fst st), nth p (snd st) 0%Q) in
    col p (fst r) = fst r' /\ nth p (snd r) 0%Q = snd r'.
Proof.
  intros Hy Hx Hdx Hdy Hp. unfold oy_loop, px_oy_loop.
  set (F := fun st oy => ox_loop _ _ L h w iyi ixi dx _ oy limages off st).
  set (G := fun st oy => px_ox_loop _ _ L h w _ _ _ _ oy limages off st).
  assert (HFG : forall offy st,
             all_length n (fst st) -> length (snd st) = n ->
             col p (fst (fold_left F offy st))
               = fst (fold_left G offy (col p (fst st), nth p (snd st) 0%Q)) /\
             nth p (snd (fold_left F offy st)) 0%Q
               = snd (fold_left G offy (col p (fst st), nth p (snd st) 0%Q))).
  { induction offy as [|oy offy IH]; intros st Hl Hf; [simpl; auto|].
    cbn [fold_left].
    assert (Hk : length (krow L oy dy) = n)
      by (unfold kernel_row; now rewrite length_map).
    pose proof (ox_loop_col n p L h w iyi ixi dx (krow L oy dy) oy limages
                  Hy Hx Hdx Hk Hp off st Hl Hf) as Hstep.
    pose proof (ox_loop_shape lanczos_filter lanczos3_filter_table
                  n L h w iyi ixi dx (krow L oy dy) oy limages
                  Hy Hx Hdx Hk off st Hl Hf) as Hsh.
    cbv zeta in Hstep, Hsh. rewrite kernel_row_nth in Hstep by lia.
    destruct Hstep as [S1 S2]. destruct Hsh as (_ & H2 & H3).
    change (ox_loop lanczos_filter lanczos3_filter_table L h w iyi ixi dx
              (krow L oy dy) oy limages off st) with (F st oy) in *.
    specialize (IH (F st oy) H2 H3). rewrite S1, S2 in IH.
    rewrite <- surjective_pairing in IH. exact IH. }
  intros st Hl Hf. cbv zeta. apply HFG; assumption.
Qed.

(** Entry [p] of every output of [_lanczos_interpolate] is the quotient of
    that pixel's accumulator by that pixel's normalisation sum. *)
Lemma lanczos_col (n p : nat) L ixi iyi dx dy laccs limages rims im0 :
  length iyi = n -> length ixi = n -> length dx = n -> length dy = n ->
  all_length n laccs -> (p < n)%nat ->
  hd_error limages = Some im0 ->
  lanczos' L ixi iyi dx dy laccs limages = Ok rims ->
  let r' := px_oy_loop lanczos_filter lanczos3_filter_table
              L (fst (shape im0)) (snd (shape im0))
              (nth p iyi 0) (nth p ixi 0) (nth p dx 0%Q) (nth p dy 0%Q)
              limages (arange (- L) (L + 1)) (col p laccs, 0%Q) in
  col p rims = map (fun a => (a / snd r')%Q) (fst r').
Proof.
  intros Hy Hx Hdx Hdy Hl Hp Him0. unfold _lanczos_interpolate.
  destruct limages as [|im limages']; [discriminate|].
  inversion Him0; subst im0. destruct (shape im) as [h w]. cbn [fst snd].
  assert (Hz : length (zeros (length ixi)) = n)
    by (unfold zeros; now rewrite repeat_length).
  pose proof (oy_loop_col n p L h w iyi ixi dx dy (im :: limages')
                (arange (- L) (L + 1)) Hy Hx Hdx Hdy Hp
                (laccs, zeros (length ixi)) Hl Hz) as Hc.
  pose proof (oy_loop_shape lanczos_filter lanczos3_filter_table
                n L h w iyi ixi dx dy (im :: limages')
                (arange (- L) (L + 1)) Hy Hx Hdx Hdy
                (laccs, zeros (length ixi)) Hl Hz) as Hs.
  cbv zeta in Hc, Hs. cbn [fst snd] in Hc, Hs.
  assert (Hz0 : nth p (zeros (length ixi)) 0%Q = 0%Q).
  { unfold zeros. apply nth_repeat. }
  rewrite Hz0 in Hc.
  destruct (oy_loop _ _ _ _ _ _ _ _ _ _ _ _) as [laccs' fsum'].
  cbn [fst snd] in Hc, Hs. destruct Hc as [Ecol Esum].
  destruct Hs as (_ & S2 & S3).
  intros Hr. inversion Hr; subst rims. cbv zeta.
  rewrite <- Ecol, <- Esum. unfold col. rewrite !map_map.
  apply map_ext_in. intros lacc Hin.
  unfold all_length in S2. rewrite Forall_forall in S2.
  apply (zipWith_nth Qdiv); [rewrite (S2 _ Hin) | rewrite S3]; exact Hp.
Qed.

(** *** Closed form of the per-pixel loops *)

Lemma Qnat_S (n : nat) : (Qnat (S n) == Qnat n + 1)%Q.
Proof.
  unfold Qnat. rewrite Nat2Z.inj_succ. unfold Z.succ.
  now rewrite inject_Z_plus.
Qed.

Lemma px_inv_ext (G G' : Image -> Q) (Wk Wk' : Q) limages st :
  (forall im, (G im == G' im)%Q) -> (Wk == Wk')%Q ->
  px_inv G Wk limages st -> px_inv G' Wk' limages st.
Proof.
  intros HG HW [Ha Hf]. split.
  - eapply Forall2_impl; [|exact Ha]. cbv beta. intros a im E.
    now rewrite E.
  - now rewrite Hf.
Qed.

Lemma px_image_loop_inv (wxy : Q) (cy cx : Z) (G : Image -> Q) limages :
  forall accs f Wk,
    px_inv G Wk limages (accs, f) ->
    px_inv (fun im => (G im + wxy * pixel im cy cx)%Q)
           (Wk + Qnat (length limages) * wxy)%Q limages
           (px_image_loop wxy cy cx accs limages f).
Proof.
  induction limages as [|im limages IH]; intros accs f Wk [Ha Hf];
    cbn [fst snd] in *.
  - inversion Ha; subst. split; [constructor|].
    cbn [snd px_image_loop length]. rewrite Hf. unfold Qnat. simpl. ring.
  - inversion Ha as [|a im' accs' ? Ea Ha']; subst.
    cbn [px_image_loop].
    assert (Hinv : px_inv G (Wk + wxy)%Q limages (accs', (f + wxy)%Q)).
    { split; [exact Ha' | cbn [snd]; now rewrite Hf]. }
    specialize (IH _ _ _ Hinv).
    destruct (px_image_loop wxy cy cx accs' limages (f + wxy)%Q)
      as [rest f''].
    destruct IH as [IH1 IH2]. unfold px_inv. cbn [fst snd] in *. split.
    + constructor; [now rewrite Ea | exact IH1].
    + rewrite IH2. cbn [length]. rewrite Qnat_S. ring.
Qed.

Lemma px_ox_loop_inv L h w y x dxp wy oy limages :
  forall off st G Wk,
    px_inv G Wk limages st ->
    px_inv
      (fun im =>
         (G im +
          Qsum (fun ox =>
                  wt L ox dxp * wy *
                  pixel im (clip (y + oy) 0 (h - 1))
                           (clip (x + ox) 0 (w - 1))) off)%Q)
      (Wk + Qnat (length limages) * Qsum (fun ox => wt L ox dxp * wy) off)%Q
      limages
      (px_ox_loop lanczos_filter lanczos3_filter_table
         L h w y x dxp wy oy limages off st).
Proof.
  unfold px_ox_loop.
  induction off as [|ox off IH]; intros st G Wk Hinv; cbn [fold_left Qsum fold_right].
  - eapply px_inv_ext; [| |exact Hinv]; intros; ring.
  - destruct st as [accs f].
    apply (px_image_loop_inv (wt L ox dxp * wy)%Q
             (clip (y + oy) 0 (h - 1)) (clip (x + ox) 0 (w - 1))) in Hinv.
    apply IH in Hinv. cbn [fst snd].
    eapply px_inv_ext; [| |exact Hinv]; intros; cbv beta;
      unfold Qsum; ring.
Qed.

Lemma px_oy_loop_inv L h w y x dxp dyp limages off :
  forall offy st G Wk,
    px_inv G Wk limages st ->
    px_inv
      (fun im =>
         (G im +
          Qsum (fun oy =>
                  Qsum (fun ox =>
                          wt L ox dxp * wt L oy dyp *
                          pixel im (clip (y + oy) 0 (h - 1))
                                   (clip (x + ox) 0 (w - 1))) off) offy)%Q)
      (Wk + Qnat (length limages) *
            Qsum (fun oy => Qsum (fun ox => wt L ox dxp * wt L oy dyp) off)
              offy)%Q
      limages
      (fold_left
         (fun st oy =>
            px_ox_loop lanczos_filter lanczos3_filter_table
              L h w y x dxp (wt L oy dyp) oy limages off st)
         offy st).
Proof.
  induction offy as [|oy offy IH]; intros st G Wk Hinv;
    cbn [fold_left Qsum fold_right].
  - eapply px_inv_ext; [| |exact Hinv]; intros; ring.
  - apply (px_ox_loop_inv L h w y x dxp (wt L oy dyp) oy limages off)
      in Hinv.
    apply IH in Hinv.
    eapply px_inv_ext; [| |exact Hinv]; intros; cbv beta;
      unfold Qsum; ring.
Qed.

Lemma col_zeros (p n : nat) (limages : list Image) :
  Forall2 (fun a (im : Image) => (a == 0)%Q)
    (col p (map (fun _ => zeros n) limages)) limages.
Proof.
  induction limages as [|im limages IH]; cbn [map col]; constructor;
    [|exact IH].
  unfold zeros. rewrite nth_repeat. reflexivity.
Qed.

(** Entry [p] of the output for image [im] is that pixel's weighted sample
    sum divided by (number of images) x (sum of the weights): the
    normalisation sum receives each weight once per image. *)
Lemma lanczos_closed_form (n p : nat) L ixi iyi dx dy limages rims im0 :
  length iyi = n -> length ixi = n -> length dx = n -> length dy = n ->
  (p < n)%nat ->
  hd_error limages = Some im0 ->
  lanczos' L ixi iyi dx dy (map (fun _ => zeros n) limages) limages
    = Ok rims ->
  Forall2
    (fun v im =>
       (v == sample_sum lanczos_filter lanczos3_filter_table
               L (fst (shape im0)) (snd (shape im0))
               (nth p iyi 0%Z) (nth p ixi 0%Z) (nth p dx 0) (nth p dy 0) im
             / (Qnat (length limages) *
                weight_sum lanczos_filter lanczos3_filter_table
                  L (nth p dx 0) (nth p dy 0)))%Q)
    (col p rims) limages.
Proof.
  intros Hy Hx Hdx Hdy Hp Him0 Hr.
  assert (Hl : all_length n (map (fun _ => zeros n) limages)).
  { unfold all_length. rewrite Forall_map. apply Forall_forall.
    intros _ _. unfold zeros. apply repeat_length. }
  pose proof (lanczos_col n p L ixi iyi dx dy _ limages rims im0
                Hy Hx Hdx Hdy Hl Hp Him0 Hr) as Hc.
  cbv zeta in Hc. rewrite Hc. clear Hc Hr.
  assert (Hinv0 : px_inv (fun _ => 0%Q) 0%Q limages
                    (col p (map (fun _ => zeros n) limages), 0%Q)).
  { split; [apply col_zeros | reflexivity]. }
  apply (px_oy_loop_inv L (fst (shape im0)) (snd (shape im0))
           (nth p iyi 0) (nth p ixi 0) (nth p dx 0%Q) (nth p dy 0%Q)
           limages (arange (- L) (L + 1)) (arange (- L) (L + 1)))
    in Hinv0.
  unfold px_oy_loop.
  destruct (fold_left _ (arange (- L) (L + 1)) _) as [accs f].
  destruct Hinv0 as [Ha Hf]. cbn [fst snd] in *.
  unfold sample_sum, weight_sum.
  generalize dependent (Qnat (length limages)). intros K Hf.
  clear Him0 Hl.
  induction Ha as [|a im accs ims Ea Ha IH]; cbn [map]; constructor.
  - rewrite Ea, Hf. rewrite !Qplus_0_l. reflexivity.
  - exact IH.
Qed.

(** *** Sums over the window *)

Lemma Qsum_ext_in (f g : Z -> Q) (l : list Z) :
  (forall o, In o l -> (f o == g o)%Q) -> (Qsum f l == Qsum g l)%Q.
Proof.
  induction l as [|o l IH]; intros Hfg; cbn [Qsum fold_right];
    [reflexivity|].
  fold (Qsum f l). fold (Qsum g l).
  rewrite (Hfg o) by now left. rewrite IH; [reflexivity|].
  intros o' Hin. apply Hfg. now right.
Qed.

Lemma Qsum_scale (f : Z -> Q) (c : Q) (l : list Z) :
  (Qsum (fun o => f o * c) l == Qsum f l * c)%Q.
Proof.
  induction l as [|o l IH]; cbn [Qsum fold_right]; [ring|].
  fold (Qsum f l). fold (Qsum (fun o => (f o * c)%Q) l). rewrite IH. ring.
Qed.

Lemma Qsum_zero_in (f : Z -> Q) (l : list Z) :
  (forall o, In o l -> (f o == 0)%Q) -> (Qsum f l == 0)%Q.
Proof.
  induction l as [|o l IH]; intros Hf; cbn [Qsum fold_right];
    [reflexivity|].
  fold (Qsum f l). rewrite (Hf o) by now left.
  rewrite IH; [ring|]. intros o' Hin. apply Hf. now right.
Qed.

(** A sum whose only non-zero term sits at offset 0. *)
Lemma Qsum_delta (f : Z -> Q) (l : list Z) :
  NoDup l -> In 0 l ->
  (forall o, In o l -> o <> 0 -> (f o == 0)%Q) ->
  (Qsum f l == f 0%Z)%Q.
Proof.
  induction l as [|o l IH]; intros Hnd Hin Hf; [contradiction|].
  inversion Hnd as [|? ? Hnotin Hnd']; subst.
  cbn [Qsum fold_right]. fold (Qsum f l).
  destruct (Z.eq_dec o 0) as [->|Hne].
  - rewrite Qsum_zero_in; [ring|].
    intros o' Hin'. apply Hf; [now right|]. congruence.
  - rewrite (Hf o) by (auto with datatypes).
    rewrite IH; [ring | exact Hnd' | | ].
    + destruct Hin as [E|Hin]; [congruence | exact Hin].
    + intros o' Hin' Hne'. apply Hf; [now right | exact Hne'].
Qed.

Lemma arange_NoDup (a b : Z) : NoDup (arange a b).
Proof.
  unfold arange. apply NoDup_map_inj_in; [|apply seq_NoDup].
  intros i j _ _ E. lia.
Qed.

Lemma sample_sum_constant L h w y x dxp dyp im c :
  constant_image im c ->
  (sample_sum lanczos_filter lanczos3_filter_table L h w y x dxp dyp im
   == c * weight_sum lanczos_filter lanczos3_filter_table L dxp dyp)%Q.
Proof.
  intros Hc. unfold sample_sum, weight_sum.
  rewrite (Qmult_comm c). rewrite <- Qsum_scale.
  apply Qsum_ext_in. intros oy _. rewrite <- Qsum_scale.
  apply Qsum_ext_in. intros ox _. cbv beta. unfold constant_image in Hc.
  now rewrite Hc.
Qed.

Lemma Forall2_trans_rel {A B C} (R : A -> B -> Prop) (S : B -> C -> Prop)
    (T : A -> C -> Prop) la lb lc :
  (forall a b c, R a b -> S b c -> T a c) ->
  Forall2 R la lb -> Forall2 S lb lc -> Forall2 T la lc.
Proof.
  intros HRS HR. revert lc.
  induction HR as [|a b la lb Hab HR IH]; intros lc HS; inversion HS; subst;
    constructor; eauto.
Qed.

(** C1.  What the code computes for constant images: the normalisation sum
    is incremented inside the loop over the images, once per image and
    offset pair, so with [k] images supplied together a pixel of a constant
    image of value [c] comes out as [c / k] whenever the pixel's sum of
    kernel weights is not zero; it is [c] only for [k = 1]. *)
Theorem lanczos_constant_images_divided (n p : nat) L ixi iyi dx dy
    limages cs rims :
  length iyi = n -> length ixi = n -> length dx = n -> length dy = n ->
  (p < n)%nat ->
  Forall2 constant_image limages cs ->
  _lanczos_interpolate lanczos_filter lanczos3_filter_table
    L ixi iyi dx dy (map (fun _ => zeros n) limages) limages = Ok rims ->
  ~ (weight_sum lanczos_filter lanczos3_filter_table
       L (nth p dx 0) (nth p dy 0) == 0)%Q ->
  Forall2 (fun v c => (v == c / Qnat (length limages))%Q) (col p rims) cs.
Proof.
  intros Hy Hx Hdx Hdy Hp Hcs Hr Hw.
  destruct limages as [|im0 limages'] eqn:El;
    [unfold _lanczos_interpolate in Hr; discriminate|].
  rewrite <- El in *.
  assert (Him0 : hd_error limages = Some im0) by now rewrite El.
  pose proof (lanczos_closed_form n p L ixi iyi dx dy limages rims im0
                Hy Hx Hdx Hdy Hp Him0 Hr) as Hcf.
  eapply Forall2_trans_rel; [|exact Hcf|exact Hcs].
  cbv beta. intros v im c Hv Hc. rewrite Hv.
  rewrite (sample_sum_constant _ _ _ _ _ _ _ im c Hc).
  assert (HK : ~ (Qnat (length limages) == 0)%Q).
  { rewrite El. cbn [length]. unfold Qnat. intros E.
    change 0%Q with (inject_Z 0) in E. rewrite inject_Z_injective in E.
    lia. }
  field. split; assumption.
Qed.

End Lanczos.

(** ** Shape and alignment of the result *)

Section Alignment.

Variable lanczos_filter : Z -> Q -> Q.
Variable lanczos3_filter_table : option (Q -> Q).
Variable RectBivariateSpline : list Q -> list Q -> list (list Q) -> Q -> Q -> Q.


Import Np NpFacts.

(** C8.  A successful call returns four coordinate arrays of one length N
    and one value array of length N per supplied image; entry [p] of each
    value array is computed from entry [p] of the source coordinates (and of
    the fractional remainders); without images the value list is empty and
    the same coordinate arrays are returned. *)
Theorem resample_result_shape targetwcs wcs Limages L spline fallback step
    margin Yo Xo Yi Xi ims :
  resample_with_wcs lanczos_filter lanczos3_filter_table
    RectBivariateSpline targetwcs wcs Limages L spline fallback step margin
    = Ok (Yo, Xo, Yi, Xi, ims) ->
  length Xo = length Yo /\ length Yi = length Yo /\ length Xi = length Yo /\
  length ims = length Limages /\
  Forall (fun v => length v = length Yo) ims /\
  (exists dx dy : list Q,
     length dx = length Yo /\ length dy = length Yo /\
     forall p, (p < length Yo)%nat ->
       Forall2
         (fun v im =>
            (v == sample_sum lanczos_filter lanczos3_filter_table
                    L (imageh wcs) (imagew wcs)
                    (nth p Yi 0%Z) (nth p Xi 0%Z) (nth p dx 0) (nth p dy 0) im
                  / (Qnat (length Limages) *
                     weight_sum lanczos_filter lanczos3_filter_table
                       L (nth p dx 0) (nth p dy 0)))%Q)
         (col p ims) Limages) /\
  (Limages = [] -> ims = []) /\
  resample_with_wcs lanczos_filter lanczos3_filter_table
    RectBivariateSpline targetwcs wcs [] L spline fallback step margin
    = Ok (Yo, Xo, Yi, Xi, []).
Proof.
  intros Hr. apply resample_ok_iff in Hr.
  destruct Hr as (Hsh & fxi & fyi & Hc & Hv).
  pose proof Hc as Hinv. apply resample_coords_inv in Hinv.
  destruct Hinv as (mode & Hmode & Hinv). cbv zeta in Hinv.
  destruct Hinv as (Hgx & Hgy & HYo & HXo & HYi & HXi & Hfx & Hfy).
  assert (LX : length Xo = length Yo) by (subst; now rewrite !length_map).
  assert (LYi : length Yi = length Yo)
    by (subst; now rewrite take_length, !length_map).
  assert (LXi : length Xi = length Yo)
    by (subst; now rewrite take_length, !length_map).
  set (dx := zipWith (fun f i => (f - inject_Z i)%Q) fxi Xi) in *.
  set (dy := zipWith (fun f i => (f - inject_Z i)%Q) fyi Yi) in *.
  assert (Ldx : length dx = length Yo).
  { unfold dx. rewrite zipWith_length, LXi, Hfx, take_length, HYo, length_map.
    lia. }
  assert (Ldy : length dy = length Yo).
  { unfold dy. rewrite zipWith_length, LYi, Hfy, take_length, HYo, length_map.
    lia. }
  unfold resample_values in Hv. fold dx dy in Hv. rewrite LX in Hv.
  assert (Hzero : all_length (length Yo)
                    (map (fun _ : Image => zeros (length Yo)) Limages)).
  { unfold all_length. rewrite Forall_map. apply Forall_forall.
    intros _ _. unfold zeros. apply repeat_length. }
  assert (Hshape : length ims = length Limages /\
                   Forall (fun v => length v = length Yo) ims).
  { destruct Limages as [|im ims'];
      [inversion Hv; subst ims; split; constructor|].
    apply (lanczos_shape _ _ (length Yo)) in Hv; try assumption.
    destruct Hv as [-> Hall]. now rewrite length_map. }
  destruct Hshape as [Hlen Hall].
  repeat split; try assumption.
  - exists dx, dy. split; [exact Ldx|]. split; [exact Ldy|].
    intros p Hp. destruct Limages as [|im0 ims'].
    + inversion Hv; subst ims. constructor.
    + pose proof (lanczos_closed_form _ _ (length Yo) p L Xi Yi dx dy
                    (im0 :: ims') ims im0 LYi LXi Ldx Ldy Hp eq_refl Hv)
        as Hcf.
      cbn [forallb] in Hsh. apply andb_true_iff in Hsh.
      destruct Hsh as [Hsh0 _]. unfold shape_eqb in Hsh0.
      cbn [fst snd] in Hsh0. apply andb_true_iff in Hsh0.
      rewrite !Z.eqb_eq in Hsh0. destruct Hsh0 as [Eh Ew].
      rewrite Eh, Ew in Hcf. exact Hcf.
  - intros ->. simpl in Hv. congruence.
  - apply resample_ok_iff. split; [reflexivity|].
    exists fxi, fyi. split; [exact Hc | reflexivity].
Qed.

End Alignment.

(** ** Two mappers on the same pixel grid *)

Section Identity.

Variable lanczos_filter : Z -> Q -> Q.
Variable lanczos3_filter_table : option (Q -> Q).
Variable RectBivariateSpline : list Q -> list Q -> list (list Q) -> Q -> Q -> Q.

Abbreviation kernel := (lfunc lanczos_filter lanczos3_filter_table).

Import Np NpFacts.

Lemma round_inject_Z (q : Q) (n : Z) : (q == inject_Z n)%Q -> round q = n.
Proof.
  intros E. unfold round.
  assert (Hf : Qfloor q = n) by (rewrite E; apply Qfloor_Z).
  rewrite Hf.
  assert (Hc : (q - inject_Z n ?= 1 # 2)%Q = Lt)
    by (apply Qlt_alt; rewrite E; unfold Qminus; rewrite Qplus_opp_r;
        reflexivity).
  now rewrite Hc.
Qed.

Lemma concat_grid_nth {A} (f : Z -> Z -> A) (xs ys : list Z) (k : nat) (d : A) :
  (k < length ys * length xs)%nat ->
  nth k (concat (map (fun y => map (fun x => f x y) xs) ys)) d =
  f (nth (k mod length xs) xs 0) (nth (k / length xs) ys 0).
Proof.
  revert k. induction ys as [|y ys IH]; intros k Hk; [simpl in Hk; lia|].
  assert (Hnx : length xs <> 0%nat) by (intros E; rewrite E in Hk; lia).
  cbn [map concat].
  destruct (Nat.lt_ge_cases k (length xs)) as [Hlt|Hge].
  - rewrite app_nth1 by now rewrite length_map.
    rewrite Nat.mod_small, Nat.div_small by exact Hlt. cbn [nth].
    rewrite (nth_indep _ d ((fun x => f x y) 0)) by now rewrite length_map.
    now rewrite (map_nth (fun x => f x y)).
  - rewrite app_nth2 by (rewrite length_map; exact Hge).
    rewrite length_map. rewrite IH by (simpl in Hk; lia).
    replace k with ((k - length xs) + 1 * length xs)%nat at 3 4 by lia.
    rewrite Nat.Div0.mod_add, Nat.div_add by exact Hnx.
    rewrite Nat.add_1_r. reflexivity.
Qed.

Lemma Forall2_map_same {A B C} (R : B -> C -> Prop) (f : A -> B) (g : A -> C)
    (l : list A) :
  (forall a, In a l -> R (f a) (g a)) -> Forall2 R (map f l) (map g l).
Proof.
  induction l as [|a l IH]; intros H; cbn [map]; constructor;
    auto with datatypes.
Qed.

Lemma Forall2_nth_intro {A B} (R : A -> B -> Prop) (la : list A)
    (lb : list B) (da : A) (db : B) :
  length la = length lb ->
  (forall p, (p < length la)%nat -> R (nth p la da) (nth p lb db)) ->
  Forall2 R la lb.
Proof.
  revert lb. induction la as [|a la IH]; intros [|b lb] Hlen Hnth;
    try discriminate; constructor.
  - apply (Hnth 0%nat). simpl. lia.
  - apply IH; [simpl in Hlen; lia|].
    intros p Hp. apply (Hnth (S p)). simpl. lia.
Qed.

Lemma dense_axis_nth (W c0 c1 m : Z) (j : nat) :
  (j < length (dense_axis W c0 c1 m))%nat ->
  nth j (dense_axis W c0 c1 m) 0 = hd 0 (dense_axis W c0 c1 m) + Z.of_nat j.
Proof.
  unfold dense_axis. rewrite arange_length. intros Hj.
  rewrite arange_nth by exact Hj. rewrite arange_hd by lia. reflexivity.
Qed.

(** On the same grid the direct mapper returns each target pixel as its own
    source pixel, with no fractional remainder. *)
Lemma direct_same_grid targetwcs wcs fallback step margin
    Yo Xo Yi Xi fxi fyi :
  same_grid targetwcs wcs ->
  resample_coords RectBivariateSpline targetwcs wcs false fallback step margin
    = Ok (Yo, Xo, Yi, Xi, fxi, fyi) ->
  Yi = Yo /\ Xi = Xo /\
  Forall2 (fun f i => (f == inject_Z i)%Q) fxi Xi /\
  Forall2 (fun f i => (f == inject_Z i)%Q) fyi Yi.
Proof.
  intros Hsame Hr. apply resample_coords_inv in Hr.
  destruct Hr as (mode & Hmode & Hr).
  cbn in Hmode. inversion Hmode; subst mode. clear Hmode.
  cbv zeta in Hr. revert Hr. cbn [grid_margin].
  set (g := candidate_grid targetwcs wcs 0).
  intros (Hgx & Hgy & HYo & HXo & HYi & HXi & Hfx & Hfy).
  destruct (source_coords_grid RectBivariateSpline targetwcs wcs None
              (fst g) (snd g) Hgx) as (fx & fy & Efx & Efy & Hdirect).
  specialize (Hdirect eq_refl). rewrite Efx, Efy in *.
  clear Efx Efy.
  set (flatx := concat (map (fun y => map (fun x => fx x y) (fst g)) (snd g)))
    in *.
  set (flaty := concat (map (fun y => map (fun x => fy x y) (fst g)) (snd g)))
    in *.
  set (I := retained (imagew wcs) (imageh wcs)
              (map round flatx) (map round flaty)) in *.
  assert (Hnx : length (fst g) <> 0%nat) by now rewrite length_zero_iff_nil.
  assert (Hcell : forall k, In k I ->
            (nth k flatx 0 ==
               inject_Z (hd 0 (fst g) + Z.of_nat (k mod length (fst g)))%Z)%Q
            /\
            (nth k flaty 0 ==
               inject_Z (hd 0 (snd g) + Z.of_nat (k / length (fst g)))%Z)%Q).
  { intros k Hk. apply retained_In in Hk. destruct Hk as (K1 & _ & _).
    rewrite length_map in K1. unfold flatx in K1.
    rewrite concat_grid_length in K1.
    unfold flatx, flaty. rewrite !concat_grid_nth by exact K1.
    assert (Hjx : (k mod length (fst g) < length (fst g))%nat)
      by now apply Nat.mod_upper_bound.
    assert (Hjy : (k / length (fst g) < length (snd g))%nat)
      by (apply Nat.Div0.div_lt_upper_bound; now rewrite Nat.mul_comm).
    revert Hjx Hjy. unfold g, candidate_grid.
    destruct (bbox targetwcs wcs) as [[[x0 y0] x1] y1]. cbn [fst snd].
    intros Hjx Hjy. rewrite !dense_axis_nth by assumption.
    specialize (Hsame
      (hd 0 (dense_axis (imagew targetwcs) x0 x1 0) +
       Z.of_nat (k mod length (dense_axis (imagew targetwcs) x0 x1 0)))
      (hd 0 (dense_axis (imageh targetwcs) y0 y1 0) +
       Z.of_nat (k / length (dense_axis (imagew targetwcs) x0 x1 0)))).
    rewrite <- Hdirect in Hsame. exact Hsame. }
  assert (Hround : forall k, In k I ->
            nth k (map round flatx) 0 =
              hd 0 (fst g) + Z.of_nat (k mod length (fst g)) /\
            nth k (map round flaty) 0 =
              hd 0 (snd g) + Z.of_nat (k / length (fst g))).
  { intros k Hk. destruct (Hcell k Hk) as [Cx Cy].
    change 0 with (round 0%Q) at 1 3. rewrite !map_nth.
    split; now apply round_inject_Z. }
  assert (EXi : Xi = Xo).
  { rewrite HXi, HXo. unfold take. apply map_ext_in. intros k Hk.
    apply (Hround k Hk). }
  assert (EYi : Yi = Yo).
  { rewrite HYi, HYo. unfold take. apply map_ext_in. intros k Hk.
    apply (Hround k Hk). }
  repeat split; try assumption.
  - rewrite Hfx, EXi, HXo. unfold take. apply Forall2_map_same.
    intros k Hk. apply (Hcell k Hk).
  - rewrite Hfy, EYi, HYo. unfold take. apply Forall2_map_same.
    intros k Hk. apply (Hcell k Hk).
Qed.

Lemma Forall2_nth_elim {A B} (R : A -> B -> Prop) (la : list A) (lb : list B)
    (da : A) (db : B) (p : nat) :
  Forall2 R la lb -> (p < length la)%nat -> R (nth p la da) (nth p lb db).
Proof.
  intros H. revert p. induction H as [|a b la lb Hab H IH]; intros p Hp;
    [simpl in Hp; lia|].
  destruct p as [|p]; [exact Hab|]. apply IH. simpl in Hp. lia.
Qed.

(** Weights of a selecting kernel when the fractional remainder is zero. *)
Lemma weight_zero_remainder L o d :
  selects_at_integers (kernel L L) L -> (d == 0)%Q -> - L <= o <= L ->
  (weight lanczos_filter lanczos3_filter_table L o d ==
     if Z.eq_dec o 0 then 1 else 0)%Q.
Proof.
  intros [K1 K0] Hd Ho. unfold weight.
  destruct (Z.eq_dec o 0) as [->|Hne].
  - apply K1. rewrite Hd. reflexivity.
  - apply (K0 _ (- o)); [|lia|lia].
    rewrite Hd, inject_Z_opp. ring.
Qed.

(** With zero remainders a selecting kernel reduces both sums to their
    central term. *)
Lemma sums_zero_remainder L h w y x dxp dyp im :
  0 <= L -> selects_at_integers (kernel L L) L ->
  (dxp == 0)%Q -> (dyp == 0)%Q ->
  (sample_sum lanczos_filter lanczos3_filter_table L h w y x dxp dyp im
     == pixel im (clip (y + 0) 0 (h - 1)) (clip (x + 0) 0 (w - 1)))%Q /\
  (weight_sum lanczos_filter lanczos3_filter_table L dxp dyp == 1)%Q.
Proof.
  intros HL Hsel Hdx Hdy.
  assert (Hin0 : In 0 (arange (- L) (L + 1))) by (apply arange_In; lia).
  assert (Hoff : forall o, In o (arange (- L) (L + 1)) -> - L <= o <= L)
    by (intros o Ho; apply arange_In in Ho; lia).
  assert (Wx : forall o, In o (arange (- L) (L + 1)) ->
            (weight lanczos_filter lanczos3_filter_table L o dxp ==
               if Z.eq_dec o 0 then 1 else 0)%Q)
    by (intros o Ho; apply weight_zero_remainder; auto).
  assert (Wy : forall o, In o (arange (- L) (L + 1)) ->
            (weight lanczos_filter lanczos3_filter_table L o dyp ==
               if Z.eq_dec o 0 then 1 else 0)%Q)
    by (intros o Ho; apply weight_zero_remainder; auto).
  pose proof (arange_NoDup (- L) (L + 1)) as Hnd.
  unfold sample_sum, weight_sum. split.
  - rewrite Qsum_delta; [|exact Hnd|exact Hin0|].
    + rewrite Qsum_delta; [|exact Hnd|exact Hin0|].
      * rewrite (Wx 0 Hin0), (Wy 0 Hin0). cbn. ring.
      * intros ox Hox Hne. rewrite (Wx ox Hox).
        destruct (Z.eq_dec ox 0); [contradiction|]. ring.
    + intros oy Hoy Hne. apply Qsum_zero_in. intros ox Hox.
      rewrite (Wy oy Hoy). destruct (Z.eq_dec oy 0); [contradiction|]. ring.
  - rewrite Qsum_delta; [|exact Hnd|exact Hin0|].
    + rewrite Qsum_delta; [|exact Hnd|exact Hin0|].
      * rewrite (Wx 0 Hin0), (Wy 0 Hin0). cbn. ring.
      * intros ox Hox Hne. rewrite (Wx ox Hox).
        destruct (Z.eq_dec ox 0); [contradiction|]. ring.
    + intros oy Hoy Hne. apply Qsum_zero_in. intros ox Hox.
      rewrite (Wy oy Hoy). destruct (Z.eq_dec oy 0); [contradiction|]. ring.
Qed.

(** C4.  When the two mappers describe the same pixel grid and the spline is
    disabled, every retained pixel has [source_y = target_y] and
    [source_x = target_x]; and for a single source image, with exact
    arithmetic and a kernel that is 1 at offset zero and 0 at the other
    integer offsets of its window, the resampled value of every retained
    pixel is the image sample at that pixel. *)
Theorem same_grid_roundtrip targetwcs wcs Limages L fallback step margin
    Yo Xo Yi Xi ims :
  same_grid targetwcs wcs ->
  resample_with_wcs lanczos_filter lanczos3_filter_table
    RectBivariateSpline targetwcs wcs Limages L false fallback step margin
    = Ok (Yo, Xo, Yi, Xi, ims) ->
  Yi = Yo /\ Xi = Xo /\
  (forall im,
     Limages = [im] -> 0 <= L -> selects_at_integers (kernel L L) L ->
     exists vals,
       ims = [vals] /\
       Forall2 (fun v yx => (v == pixel im (fst yx) (snd yx))%Q)
         vals (combine Yi Xi)).
Proof.
  intros Hsame Hr. apply resample_ok_iff in Hr.
  destruct Hr as (Hsh & fxi & fyi & Hc & Hv).
  destruct (direct_same_grid _ _ _ _ _ _ _ _ _ _ _ Hsame Hc)
    as (EYi & EXi & Ffx & Ffy).
  split; [exact EYi|]. split; [exact EXi|].
  intros im -> HL Hsel.
  pose proof (resample_coords_bounds _ _ _ _ _ _ _ _ _ _ _ _ _ Hc)
    as (_ & _ & BXi & BYi).
  assert (LYX : length Yi = length Xi).
  { apply resample_coords_inv in Hc. destruct Hc as (mode & _ & Hc).
    cbv zeta in Hc. destruct Hc as (_ & _ & _ & _ & -> & -> & _).
    now rewrite !take_length. }
  set (n := length Xi).
  assert (Lfx : length fxi = n) by (apply (Forall2_length Ffx)).
  assert (Lfy : length fyi = n)
    by (rewrite (Forall2_length Ffy); exact LYX).
  unfold resample_values in Hv. rewrite <- EXi in Hv. fold n in Hv.
  set (dx := zipWith (fun f i => (f - inject_Z i)%Q) fxi Xi) in *.
  set (dy := zipWith (fun f i => (f - inject_Z i)%Q) fyi Yi) in *.
  assert (Ldx : length dx = n) by (unfold dx; rewrite zipWith_length; lia).
  assert (Ldy : length dy = n) by (unfold dy; rewrite zipWith_length; lia).
  assert (Hl : all_length n (map (fun _ : Image => zeros n) [im])).
  { repeat constructor. unfold zeros. apply repeat_length. }
  pose proof (lanczos_shape _ _ n L Xi Yi dx dy _ [im] ims
                LYX eq_refl Ldx Ldy Hl Hv) as [Lims Hall].
  destruct ims as [|vals [|v2 ims]]; try discriminate. clear Lims.
  apply Forall_cons_iff in Hall. destruct Hall as [Lvals _].
  exists vals. split; [reflexivity|].
  apply (Forall2_nth_intro _ _ _ 0%Q (0, 0)).
  { rewrite length_combine, LYX, Lvals. fold n. lia. }
  intros p Hp. rewrite Lvals in Hp.
  rewrite combine_nth by exact LYX. cbn [fst snd].
  pose proof (lanczos_closed_form _ _ n p L Xi Yi dx dy [im] [vals] im
                LYX eq_refl Ldx Ldy Hp eq_refl Hv) as Hcf.
  unfold col in Hcf. cbn [map] in Hcf.
  apply Forall2_cons_iff in Hcf. destruct Hcf as [Hvp _].
  cbn [shapes_ok forallb] in Hsh. rewrite andb_true_r in Hsh.
  unfold shape_eqb in Hsh. cbn [fst snd] in Hsh.
  apply andb_true_iff in Hsh. rewrite !Z.eqb_eq in Hsh.
  destruct Hsh as [Eh Ew]. rewrite Eh, Ew in Hvp.
  assert (Hdx0 : (nth p dx 0 == 0)%Q).
  { unfold dx. rewrite (zipWith_nth _ _ _ _ _ 0%Q 0) by lia.
    rewrite (Forall2_nth_elim _ _ _ 0%Q 0 p Ffx) by lia. ring. }
  assert (Hdy0 : (nth p dy 0 == 0)%Q).
  { unfold dy. rewrite (zipWith_nth _ _ _ _ _ 0%Q 0) by lia.
    rewrite (Forall2_nth_elim _ _ _ 0%Q 0 p Ffy) by lia. ring. }
  destruct (sums_zero_remainder L (imageh wcs) (imagew wcs)
              (nth p Yi 0) (nth p Xi 0) (nth p dx 0%Q) (nth p dy 0%Q) im
              HL Hsel Hdx0 Hdy0) as [Hs Hw].
  rewrite Hs, Hw in Hvp. rewrite Hvp.
  rewrite Forall_forall in BXi, BYi.
  assert (Bx : 0 <= nth p Xi 0 < imagew wcs)
    by (apply BXi, nth_In; exact Hp).
  assert (By : 0 <= nth p Yi 0 < imageh wcs)
    by (apply BYi, nth_In; lia).
  replace (clip (nth p Yi 0 + 0) 0 (imageh wcs - 1)) with (nth p Yi 0)
    by (unfold clip; lia).
  replace (clip (nth p Xi 0 + 0) 0 (imagew wcs - 1)) with (nth p Xi 0)
    by (unfold clip; lia).
  cbn [length]. unfold Qnat. simpl inject_Z. field.
Qed.

End Identity.

(** ** Runs of the model on concrete images and mappers *)

Section Runs.

Import Np.

Abbreviation run := (resample_with_wcs tent_filter None flat_spline).

Lemma grid_wcs_same_grid (W H : Z) : same_grid (grid_wcs W H) (grid_wcs W H).
Proof.
  intros x y. unfold target2source, grid_wcs, shifted_wcs. cbn.
  split; ring.
Qed.

Lemma tent_selects (L : Z) :
  selects_at_integers (lfunc tent_filter None L L) L.
Proof.
  assert (E : lfunc tent_filter None L = tent_filter)
    by (unfold lfunc; now destruct (L =? 3)).
  rewrite E. unfold tent_filter. split.
  - intros q Hq. rewrite Hq. reflexivity.
  - intros q n Hq Hn _. rewrite Hq. apply Q.max_l.
    change (Qabs (inject_Z n)) with (inject_Z (Z.abs n)).
    assert (H1 : (inject_Z 1 <= inject_Z (Z.abs n))%Q)
      by (rewrite <- Zle_Qle; lia).
    change (inject_Z 1) with 1%Q in H1. lra.
Qed.

(** Witness of C2: a 3x3 source shifted by half a pixel inside a 5x4
    target. *)
Lemma resample_bounds_witness :
  run (grid_wcs 5 4) (shifted_wcs 3 3 (1 # 2) 1) [] 1 false true 25 12
    = Ok ([1; 1; 1; 2; 2; 2; 3; 3; 3], [0; 1; 2; 0; 1; 2; 0; 1; 2],
          [0; 0; 0; 1; 1; 1; 2; 2; 2], [0; 0; 2; 0; 0; 2; 0; 0; 2], []) /\
  (Forall (fun x => 0 <= x < 5) [0; 1; 2; 0; 1; 2; 0; 1; 2] /\
   Forall (fun y => 0 <= y < 4) [1; 1; 1; 2; 2; 2; 3; 3; 3] /\
   Forall (fun x => 0 <= x < 3) [0; 0; 2; 0; 0; 2; 0; 0; 2] /\
   Forall (fun y => 0 <= y < 3) [0; 0; 0; 1; 1; 1; 2; 2; 2]).
Proof.
  assert (H : run (grid_wcs 5 4) (shifted_wcs 3 3 (1 # 2) 1) [] 1 false true
                25 12
              = Ok ([1; 1; 1; 2; 2; 2; 3; 3; 3], [0; 1; 2; 0; 1; 2; 0; 1; 2],
                    [0; 0; 0; 1; 1; 1; 2; 2; 2], [0; 0; 2; 0; 0; 2; 0; 0; 2],
                    []))
    by (vm_compute; reflexivity).
  split; [exact H|].
  exact (resample_bounds tent_filter None flat_spline _ _ _ _ _ _ _ _
           _ _ _ _ _ H).
Defined.

(** Witness of C8: two images resampled together on a 3x2 grid. *)
Lemma resample_result_shape_witness :
  let Yo := [0; 0; 0; 1; 1; 1] in
  let Xo := [0; 1; 2; 0; 1; 2] in
  let ims := [[5 # 2; 5 # 2; 5 # 2; 5 # 2; 5 # 2; 5 # 2];
              [5 # 2; 5 # 2; 5 # 2; 5 # 2; 5 # 2; 5 # 2]]%Q in
  let Limages := [const_image 2 3 5; const_image 2 3 5] in
  run (grid_wcs 3 2) (grid_wcs 3 2) Limages 3 false true 25 12
    = Ok (Yo, Xo, Yo, Xo, ims) /\
  length Xo = 6%nat /\ length ims = 2%nat /\
  Forall (fun v => length v = 6%nat) ims /\
  run (grid_wcs 3 2) (grid_wcs 3 2) [] 3 false true 25 12
    = Ok (Yo, Xo, Yo, Xo, []).
Proof.
  intros Yo Xo ims Limages.
  assert (H : run (grid_wcs 3 2) (grid_wcs 3 2) Limages 3 false true 25 12
              = Ok (Yo, Xo, Yo, Xo, ims))
    by (vm_compute; reflexivity).
  split; [exact H|].
  destruct (resample_result_shape tent_filter None flat_spline _ _ _ _ _ _ _
              _ _ _ _ _ _ H) as (H1 & _ & _ & H4 & H5 & _ & _ & H8).
  repeat split; assumption.
Defined.

(** Witness of C10: the spline path (5 nodes per axis) on a 4x4 grid. *)
Lemma resample_targets_distinct_witness :
  let Yo := [0; 0; 0; 0; 1; 1; 1; 1; 2; 2; 2; 2; 3; 3; 3; 3] in
  let Xo := [0; 1; 2; 3; 0; 1; 2; 3; 0; 1; 2; 3; 0; 1; 2; 3] in
  run (grid_wcs 4 4) (grid_wcs 4 4) [] 1 true true 1 1
    = Ok (Yo, Xo, Xo, Xo, []) /\
  NoDup (combine Yo Xo).
Proof.
  intros Yo Xo.
  assert (H : run (grid_wcs 4 4) (grid_wcs 4 4) [] 1 true true 1 1
              = Ok (Yo, Xo, Xo, Xo, []))
    by (vm_compute; reflexivity).
  split; [exact H|].
  exact (resample_targets_distinct tent_filter None flat_spline _ _ _ _ _ _
           _ _ _ _ _ _ _ H).
Defined.

(** Witness of C3: a far-away source (no node), and a 5x4 overlap (2 nodes
    per axis) with and without fallback. *)
Lemma spline_small_overlap_witness :
  run (grid_wcs 100 100) (shifted_wcs 4 4 200 0) [] 1 true true 25 12
    = Raise NoOverlapError /\
  run (grid_wcs 5 4) (grid_wcs 5 4) [ramp_image 4 5] 1 true true 25 12
    = run (grid_wcs 5 4) (grid_wcs 5 4) [ramp_image 4 5] 1 false true 25 12 /\
  run (grid_wcs 5 4) (grid_wcs 5 4) [ramp_image 4 5] 1 true false 25 12
    = Raise SmallOverlapError.
Proof.
  assert (Hstep : 25 <> 0) by lia.
  split; [|split].
  - apply (proj1 (spline_small_overlap tent_filter None flat_spline
                    (grid_wcs 100 100) (shifted_wcs 4 4 200 0) [] 1 true
                    25 12 Hstep eq_refl)).
    left. vm_compute. reflexivity.
  - apply (proj2 (spline_small_overlap tent_filter None flat_spline
                    (grid_wcs 5 4) (grid_wcs 5 4) [ramp_image 4 5] 1 true
                    25 12 Hstep eq_refl)); vm_compute; lia.
  - apply (proj2 (spline_small_overlap tent_filter None flat_spline
                    (grid_wcs 5 4) (grid_wcs 5 4) [ramp_image 4 5] 1 false
                    25 12 Hstep eq_refl)); vm_compute; lia.
Defined.

(** A disjoint pair on the direct path, and a source whose sky-to-pixel
    conversion sends every pixel out of bounds. *)
Lemma no_overlap_iff_empty_grid_witness :
  run (grid_wcs 100 100) (shifted_wcs 4 4 200 0) [] 1 false true 25 12
    = Raise NoOverlapError /\
  exists rims,
    run (grid_wcs 10 10) (blind_wcs 4 4) [const_image 4 4 1] 1 false true
      25 12 = Ok ([], [], [], [], rims) /\
    length rims = 1%nat /\ Forall (fun v => v = []) rims.
Proof.
  assert (Hstep : 0 < 25) by lia.
  split.
  - assert (Hns : run (grid_wcs 100 100) (shifted_wcs 4 4 200 0) [] 1 false
                    true 25 12 <> Raise SmallOverlapError)
      by (intros H; vm_compute in H; discriminate H).
    apply (proj1 (no_overlap_iff_empty_grid tent_filter None flat_spline
                    (grid_wcs 100 100) (shifted_wcs 4 4 200 0) [] 1 false
                    true 25 12 Hstep eq_refl Hns)).
    left. vm_compute. reflexivity.
  - assert (Hns : run (grid_wcs 10 10) (blind_wcs 4 4) [const_image 4 4 1] 1
                    false true 25 12 <> Raise SmallOverlapError)
      by (intros H; vm_compute in H; discriminate H).
    apply (proj2 (no_overlap_iff_empty_grid tent_filter None flat_spline
                    (grid_wcs 10 10) (blind_wcs 4 4) [const_image 4 4 1] 1
                    false true 25 12 Hstep eq_refl Hns));
      vm_compute; (discriminate || reflexivity).
Defined.

(** Counterexample to C6 as stated: for a 90x90 target covered by the source
    the x-nodes are 0, 22.5, 45, 67.5 and 90; the last one is [W], outside
    [[0, W)], and the stride is 22.5, not the configured 25. *)
Lemma spline_nodes_reach_W :
  let xx := fst (spline_nodes (grid_wcs 90 90) (grid_wcs 90 90) 25 12) in
  xx = [0 # 4; 90 # 4; 180 # 4; 270 # 4; 90 # 1]%Q /\
  ~ Forall (fun v => (0 <= v /\ v < inject_Z 90)%Q) xx /\
  ~ (nth 1 xx 0 - nth 0 xx 0 == 25)%Q.
Proof.
  set (xx := fst (spline_nodes (grid_wcs 90 90) (grid_wcs 90 90) 25 12)).
  assert (E : xx = [0 # 4; 90 # 4; 180 # 4; 270 # 4; 90 # 1]%Q)
    by (vm_compute; reflexivity).
  cbv zeta. rewrite E. split; [reflexivity|]. split.
  - intros H. rewrite Forall_forall in H.
    destruct (H (90 # 1)%Q) as [_ Hlt]; [simpl; tauto|].
    vm_compute in Hlt. discriminate Hlt.
  - intros H. vm_compute in H. discriminate H.
Defined.

(** Witness of C6 as amended, on the same input. *)
Lemma spline_nodes_span_witness :
  spans 0 90 25 (fst (spline_nodes (grid_wcs 90 90) (grid_wcs 90 90) 25 12))
  /\
  spans 0 90 25 (snd (spline_nodes (grid_wcs 90 90) (grid_wcs 90 90) 25 12)).
Proof.
  assert (Hstep : 0 < 25) by lia.
  pose proof (spline_nodes_span (grid_wcs 90 90) (grid_wcs 90 90) 25 12 Hstep)
    as [Hx Hy].
  split.
  - apply Hx. vm_compute. discriminate.
  - apply Hy. vm_compute. discriminate.
Defined.

(** Witness of C4: a 3x2 ramp image resampled onto its own grid. *)
Lemma same_grid_roundtrip_witness :
  let Yo := [0; 0; 0; 1; 1; 1] in
  let Xo := [0; 1; 2; 0; 1; 2] in
  let ims := [[0; 1; 2; 10; 11; 12]%Q] in
  run (grid_wcs 3 2) (grid_wcs 3 2) [ramp_image 2 3] 1 false true 25 12
    = Ok (Yo, Xo, Yo, Xo, ims) /\
  exists vals,
    ims = [vals] /\
    Forall2 (fun v yx => (v == pixel (ramp_image 2 3) (fst yx) (snd yx))%Q)
      vals (combine Yo Xo).
Proof.
  intros Yo Xo ims.
  assert (H : run (grid_wcs 3 2) (grid_wcs 3 2) [ramp_image 2 3] 1 false true
                25 12 = Ok (Yo, Xo, Yo, Xo, ims))
    by (vm_compute; reflexivity).
  split; [exact H|].
  destruct (same_grid_roundtrip tent_filter None flat_spline _ _ _ _ _ _ _
              _ _ _ _ _ (grid_wcs_same_grid 3 2) H) as (_ & _ & Hvals).
  apply (Hvals (ramp_image 2 3) eq_refl); [lia | apply tent_selects].
Defined.

(** Witness of C1: two constant images, of values 5 and 7, interpolated
    together at a quarter-pixel offset come out as 5/2 and 7/2. *)
Lemma lanczos_constant_images_divided_witness :
  let limages := [const_image 3 3 5; const_image 3 3 7] in
  let rims := [[343597383680 # 137438953472];
               [481036337152 # 137438953472]]%Q in
  _lanczos_interpolate tent_filter None 1 [1] [1] [1 # 4]%Q [0%Q]
    (map (fun _ => zeros 1) limages) limages = Ok rims /\
  Forall2 (fun v c => (v == c / Qnat 2)%Q) (col 0 rims) [5; 7]%Q.
Proof.
  intros limages rims.
  assert (H : _lanczos_interpolate tent_filter None 1 [1] [1] [1 # 4]%Q [0%Q]
                (map (fun _ => zeros 1) limages) limages = Ok rims)
    by (vm_compute; reflexivity).
  split; [exact H|].
  apply (lanczos_constant_images_divided tent_filter None 1 0 1 [1] [1]
           [1 # 4]%Q [0%Q] limages [5; 7]%Q rims);
    try reflexivity; try exact H.
  - lia.
  - repeat constructor; intros y x; reflexivity.
  - intros E. vm_compute in E. discriminate E.
Defined.

(** The same defect through the entry point: two copies of a constant image
    of value 5 resampled onto their own grid both come out as 5/2. *)
Example two_constant_images_halved :
  run (grid_wcs 3 2) (grid_wcs 3 2)
    [const_image 2 3 5; const_image 2 3 5] 3 false true 25 12
  = Ok ([0; 0; 0; 1; 1; 1], [0; 1; 2; 0; 1; 2],
        [0; 0; 0; 1; 1; 1], [0; 1; 2; 0; 1; 2],
        [[5 # 2; 5 # 2; 5 # 2; 5 # 2; 5 # 2; 5 # 2];
         [5 # 2; 5 # 2; 5 # 2; 5 # 2; 5 # 2; 5 # 2]]%Q).
Proof. vm_compute. reflexivity. Qed.

End Runs.

(** ** The outcomes of a call *)

Section Outcomes.

Variable lanczos_filter : Z -> Q -> Q.
Variable lanczos3_filter_table : option (Q -> Q).
Variable RectBivariateSpline : list Q -> list Q -> list (list Q) -> Q -> Q -> Q.

Import Np NpFacts.

(** The index arithmetic behind the eight assertions of lines 254-262: on a
    dense grid whose flat source arrays have one entry per cell, the
    retained target and source coordinates are inside their images. *)
Lemma retained_cells_in_bounds (W H w h c0x c1x c0y c1y m : Z)
    (ixi iyi : list Z) :
  let ixo := dense_axis W c0x c1x m in
  let iyo := dense_axis H c0y c1y m in
  let I := retained w h ixi iyi in
  ixo <> [] ->
  length ixi = (length iyo * length ixo)%nat ->
  Forall (fun x => 0 <= x < W)
    (map (fun k => hd 0 ixo + Z.of_nat (k mod length ixo)) I) /\
  Forall (fun y => 0 <= y < H)
    (map (fun k => hd 0 iyo + Z.of_nat (k / length ixo)) I) /\
  Forall (fun x => 0 <= x < w) (take 0 ixi I) /\
  Forall (fun y => 0 <= y < h) (take 0 iyi I).
Proof.
  intros ixo iyo I Hne Hlen.
  assert (Hnx : length ixo <> 0%nat) by now rewrite length_zero_iff_nil.
  unfold take. rewrite !Forall_map.
  repeat split; apply Forall_forall; intros k Hk;
    apply retained_In in Hk; destruct Hk as (K1 & K2 & K3);
    apply in_bounds_spec in K3.
  - apply dense_axis_cell. now apply Nat.mod_upper_bound.
  - apply dense_axis_cell. apply Nat.Div0.div_lt_upper_bound.
    rewrite Hlen in K1. rewrite Nat.mul_comm. exact K1.
  - apply K3.
  - apply K3.
Qed.

Lemma all_ge0_Forall (b : Z) (l : list Z) :
  Forall (fun v => 0 <= v < b) l -> all_ge0 l = true /\ all_lt b l = true.
Proof.
  intros Hl. unfold all_ge0, all_lt. rewrite !forallb_forall.
  rewrite Forall_forall in Hl.
  split; intros v Hv; specialize (Hl v Hv);
    [apply Z.leb_le | apply Z.ltb_lt]; lia.
Qed.

(** Once a mapper is selected and the dense grid is not empty, the
    coordinate stage succeeds: none of its assertions can fail. *)
Lemma resample_coords_total targetwcs wcs spline fallback step margin mode :
  select_mode targetwcs wcs spline fallback step margin = Ok mode ->
  fst (candidate_grid targetwcs wcs (grid_margin mode margin)) <> [] ->
  snd (candidate_grid targetwcs wcs (grid_margin mode margin)) <> [] ->
  exists r,
    resample_coords RectBivariateSpline targetwcs wcs spline fallback step
      margin = Ok r.
Proof.
  intros Hmode. unfold resample_coords. rewrite Hmode. cbn [bind].
  unfold candidate_grid.
  destruct (bbox targetwcs wcs) as [[[x0 y0] x1] y1]. cbn [fst snd].
  set (m := grid_margin mode margin).
  set (ixo := dense_axis (imagew targetwcs) x0 x1 m).
  set (iyo := dense_axis (imageh targetwcs) y0 y1 m).
  intros Hx Hy.
  assert (E : (length ixo =? 0)%nat || (length iyo =? 0)%nat = false).
  { apply orb_false_iff. rewrite !Nat.eqb_neq, !length_zero_iff_nil.
    split; assumption. }
  rewrite E.
  destruct (rounded_coords_length RectBivariateSpline targetwcs wcs mode
              ixo iyo Hx) as [Lx Ly].
  destruct (source_coords RectBivariateSpline targetwcs wcs mode ixo iyo)
    as [fxi2 fyi2]. cbn [fst snd] in Lx, Ly.
  unfold unravel_index. rewrite !map_map.
  destruct (retained_cells_in_bounds (imagew targetwcs) (imageh targetwcs)
              (imagew wcs) (imageh wcs) x0 x1 y0 y1 m
              (map round (concat fxi2)) (map round (concat fyi2)) Hx Lx)
    as (B1 & B2 & B3 & B4).
  fold ixo iyo in B1, B2.
  apply all_ge0_Forall in B1, B2, B3, B4.
  destruct B1 as [B1 B1'], B2 as [B2 B2'], B3 as [B3 B3'], B4 as [B4 B4'].
  rewrite B1, B2, B1', B2', B3, B4, B3', B4'. cbn [assert_ bind].
  eexists. reflexivity.
Qed.

Lemma resample_values_total Limages L ixo ixi iyi fxi fyi :
  exists rims,
    resample_values lanczos_filter lanczos3_filter_table
      Limages L ixo ixi iyi fxi fyi = Ok rims.
Proof.
  unfold resample_values. destruct Limages as [|im Limages'].
  - eexists. reflexivity.
  - apply lanczos_total. discriminate.
Qed.

(** The four ways a call can end. *)
Lemma resample_outcome targetwcs wcs Limages L spline fallback step margin :
  let R := resample_with_wcs lanczos_filter lanczos3_filter_table
             RectBivariateSpline targetwcs wcs Limages L spline fallback
             step margin in
  (shapes_ok wcs Limages = false -> R = Raise AssertionError) /\
  (shapes_ok wcs Limages = true ->
   match select_mode targetwcs wcs spline fallback step margin with
   | Raise e => R = Raise e
   | Ok mode =>
       let g := candidate_grid targetwcs wcs (grid_margin mode margin) in
       ((fst g = [] \/ snd g = []) -> R = Raise NoOverlapError) /\
       (fst g <> [] -> snd g <> [] -> exists r, R = Ok r)
   end).
Proof.
  intros R. unfold R, resample_with_wcs, shapes_ok. split; intros Hs;
    rewrite Hs; cbn [assert_ bind]; [reflexivity|].
  destruct (select_mode targetwcs wcs spline fallback step margin)
    as [mode|e] eqn:Hmode.
  - cbv zeta. split.
    + intros Hg.
      destruct (resample_coords_after_mode RectBivariateSpline _ _ _ _ _ _ _
                  Hmode) as [Hemp _].
      rewrite (Hemp Hg). reflexivity.
    + intros Hx Hy.
      destruct (resample_coords_total _ _ _ _ _ _ _ Hmode Hx Hy)
        as [[[[[[iyo ixo] iyi] ixi] fxi] fyi] Hc].
      rewrite Hc. cbn [bind].
      destruct (resample_values_total Limages L ixo ixi iyi fxi fyi)
        as [rims Hv].
      rewrite Hv. cbn [bind]. eexists. reflexivity.
  - unfold resample_coords. rewrite Hmode. reflexivity.
Qed.

(** What the spline block can raise, and when. *)
Lemma select_mode_raises targetwcs wcs spline fallback step margin e :
  select_mode targetwcs wcs spline fallback step margin = Raise e <->
  spline = true /\
  ((step = 0 /\ e = ZeroDivisionError) \/
   (step <> 0 /\
    let xx := fst (spline_nodes targetwcs wcs step margin) in
    let yy := snd (spline_nodes targetwcs wcs step margin) in
    (((length xx = 0 \/ length yy = 0)%nat /\ e = NoOverlapError) \/
     ((0 < length xx)%nat /\ (0 < length yy)%nat /\
      (length xx <= 3 \/ length yy <= 3)%nat /\
      fallback = false /\ e = SmallOverlapError)))).
Proof.
  unfold select_mode. destruct spline.
  2:{ split; [discriminate | intros [Hf _]; discriminate]. }
  destruct (Z.eqb_spec step 0) as [Hz|Hnz].
  { split.
    - intros E. inversion E. split; [reflexivity|]. left. now split.
    - intros [_ [[_ ->] | [Hc _]]]; [reflexivity | contradiction]. }
  destruct (spline_nodes targetwcs wcs step margin) as [xx yy].
  cbn [fst snd].
  destruct ((length xx =? 0)%nat || (length yy =? 0)%nat) eqn:E0.
  { apply orb_true_iff in E0. rewrite !Nat.eqb_eq in E0. split.
    - intros E. inversion E. split; [reflexivity|]. right.
      split; [exact Hnz|]. left. now split.
    - intros [_ [[Hc _] | [_ [[_ ->] | (Hx & Hy & _)]]]];
        [contradiction | reflexivity | lia]. }
  apply orb_false_iff in E0. rewrite !Nat.eqb_neq in E0.
  destruct ((length xx <=? 3)%nat || (length yy <=? 3)%nat) eqn:E3.
  - apply orb_true_iff in E3. rewrite !Nat.leb_le in E3.
    destruct fallback.
    + split; [discriminate|].
      intros [_ [[Hc _] | [_ [[Hc _] | (_ & _ & _ & Hc & _)]]]];
        [contradiction | lia | discriminate].
    + split.
      * intros E. inversion E. split; [reflexivity|]. right.
        split; [exact Hnz|]. right. repeat split; (lia || assumption).
      * intros [_ [[Hc _] | [_ [[Hc _] | (_ & _ & _ & _ & ->)]]]];
          [contradiction | lia | reflexivity].
  - apply orb_false_iff in E3. rewrite !Nat.leb_gt in E3. split;
      [discriminate|].
    intros [_ [[Hc _] | [_ [[Hc _] | (_ & _ & Hc & _)]]]];
      [contradiction | lia | lia].
Qed.

(** Where an exception of a call comes from. *)
Lemma resample_raise_inv targetwcs wcs Limages L spline fallback step margin
    e :
  resample_with_wcs lanczos_filter lanczos3_filter_table RectBivariateSpline
    targetwcs wcs Limages L spline fallback step margin = Raise e ->
  (shapes_ok wcs Limages = false /\ e = AssertionError) \/
  (shapes_ok wcs Limages = true /\
   (select_mode targetwcs wcs spline fallback step margin = Raise e \/
    (exists mode,
       select_mode targetwcs wcs spline fallback step margin = Ok mode) /\
    e = NoOverlapError)).
Proof.
  intros HR.
  destruct (resample_outcome targetwcs wcs Limages L spline fallback step
              margin) as [Hbad Hok].
  destruct (shapes_ok wcs Limages) eqn:Hs.
  - right. split; [reflexivity|]. specialize (Hok eq_refl).
    destruct (select_mode targetwcs wcs spline fallback step margin)
      as [mode|e'] eqn:Hmode.
    + right. split; [now exists mode|].
      cbv zeta in Hok. destruct Hok as [Hemp Hfull].
      destruct (fst (candidate_grid targetwcs wcs (grid_margin mode margin)))
        as [|a ga] eqn:Ex.
      { rewrite Hemp in HR by now left. now inversion HR. }
      destruct (snd (candidate_grid targetwcs wcs (grid_margin mode margin)))
        as [|b gb] eqn:Ey.
      { rewrite Hemp in HR by now right. now inversion HR. }
      destruct Hfull as [r Hr]; try discriminate. congruence.
    + left. rewrite Hok in HR. now inversion HR.
  - left. split; [reflexivity|]. rewrite Hbad in HR by reflexivity.
    now inversion HR.
Qed.

(** X1.  With images of the shape of the source WCS, and a non-zero spline
    step when the spline is requested, the only exceptions of a call are
    [NoOverlapError] and [SmallOverlapError]: the eight assertions of lines
    254-262 never fail and the interpolation is never entered without an
    image. *)
Theorem resample_only_overlap_errors targetwcs wcs Limages L spline fallback
    step margin e :
  shapes_ok wcs Limages = true ->
  spline = false \/ step <> 0 ->
  resample_with_wcs lanczos_filter lanczos3_filter_table RectBivariateSpline
    targetwcs wcs Limages L spline fallback step margin = Raise e ->
  e = NoOverlapError \/ e = SmallOverlapError.
Proof.
  intros Hs Hvalid HR. apply resample_raise_inv in HR.
  destruct HR as [[Hbad _] | [_ [Hmode | [_ ->]]]];
    [congruence | | now left].
  apply select_mode_raises in Hmode.
  destruct Hmode as [Hsp [[Hz _] | [_ [[_ ->] | (_ & _ & _ & _ & ->)]]]];
    [|now left|now right].
  destruct Hvalid; congruence.
Qed.

(** X2.  A call raises [AssertionError] exactly when some image does not
    have the shape [(h, w)] of the source WCS. *)
Theorem assertion_error_iff_bad_shape targetwcs wcs Limages L spline fallback
    step margin :
  resample_with_wcs lanczos_filter lanczos3_filter_table RectBivariateSpline
    targetwcs wcs Limages L spline fallback step margin
    = Raise AssertionError <->
  shapes_ok wcs Limages = false.
Proof.
  split.
  - intros HR. apply resample_raise_inv in HR.
    destruct HR as [[Hbad _] | [_ [Hmode | [_ Hc]]]];
      [exact Hbad | | discriminate].
    apply select_mode_raises in Hmode.
    destruct Hmode as [_ [[_ Hc] | [_ [[_ Hc] | (_ & _ & _ & _ & Hc)]]]];
      discriminate.
  - apply resample_outcome.
Qed.

(** X3.  A call raises [SmallOverlapError] exactly when the images have the
    right shape, the spline is requested with a non-zero step and without
    fallback, no node vector is empty and one of them has at most 3 nodes.
    In particular it is never raised with [splineFallback] set or the spline
    disabled. *)
Theorem small_overlap_error_iff targetwcs wcs Limages L spline fallback
    step margin :
  resample_with_wcs lanczos_filter lanczos3_filter_table RectBivariateSpline
    targetwcs wcs Limages L spline fallback step margin
    = Raise SmallOverlapError <->
  shapes_ok wcs Limages = true /\ spline = true /\ fallback = false /\
  step <> 0 /\
  (0 < length (fst (spline_nodes targetwcs wcs step margin)))%nat /\
  (0 < length (snd (spline_nodes targetwcs wcs step margin)))%nat /\
  (length (fst (spline_nodes targetwcs wcs step margin)) <= 3 \/
   length (snd (spline_nodes targetwcs wcs step margin)) <= 3)%nat.
Proof.
  split.
  - intros HR. apply resample_raise_inv in HR.
    destruct HR as [[_ Hc] | [Hs [Hmode | [_ Hc]]]]; try discriminate.
    apply select_mode_raises in Hmode. cbv zeta in Hmode.
    destruct Hmode
      as [Hsp [[_ Hc] | [Hnz [[_ Hc] | (Hx & Hy & H3 & Hf & _)]]]];
      try discriminate.
    repeat split; assumption.
  - intros (Hs & Hsp & Hf & Hnz & Hx & Hy & H3).
    destruct (resample_outcome targetwcs wcs Limages L spline fallback step
                margin) as [_ Hok].
    specialize (Hok Hs).
    assert (Hmode : select_mode targetwcs wcs spline fallback step margin
                    = Raise SmallOverlapError).
    { apply select_mode_raises. split; [exact Hsp|]. right.
      split; [exact Hnz|]. cbv zeta. right. repeat split; assumption. }
    rewrite Hmode in Hok. exact Hok.
Qed.

(** X4.  A call raises [ZeroDivisionError] exactly when the images have the
    right shape and the spline is requested with a step of 0; with the
    spline disabled the step is never used. *)
Theorem zero_division_iff_zero_step targetwcs wcs Limages L spline fallback
    step margin :
  resample_with_wcs lanczos_filter lanczos3_filter_table RectBivariateSpline
    targetwcs wcs Limages L spline fallback step margin
    = Raise ZeroDivisionError <->
  shapes_ok wcs Limages = true /\ spline = true /\ step = 0.
Proof.
  split.
  - intros HR. apply resample_raise_inv in HR.
    destruct HR as [[_ Hc] | [Hs [Hmode | [_ Hc]]]]; try discriminate.
    apply select_mode_raises in Hmode. cbv zeta in Hmode.
    destruct Hmode
      as [Hsp [[Hz _] | [_ [[_ Hc] | (_ & _ & _ & _ & Hc)]]]];
      try discriminate.
    repeat split; assumption.
  - intros (Hs & Hsp & Hz).
    destruct (resample_outcome targetwcs wcs Limages L spline fallback step
                margin) as [_ Hok].
    specialize (Hok Hs).
    assert (Hmode : select_mode targetwcs wcs spline fallback step margin
                    = Raise ZeroDivisionError).
    { apply select_mode_raises. split; [exact Hsp|]. left. now split. }
    rewrite Hmode in Hok. exact Hok.
Qed.

End Outcomes.

(** ** The set of returned pixels *)

Section Geometry.

Variable lanczos_filter : Z -> Q -> Q.
Variable lanczos3_filter_table : option (Q -> Q).
Variable RectBivariateSpline : list Q -> list Q -> list (list Q) -> Q -> Q -> Q.

Import Np NpFacts.

(** Both mappers fill the dense grid with [coord_at]. *)
Lemma source_coords_coord_at targetwcs wcs mode (ixo iyo : list Z) :
  ixo <> [] ->
  fst (source_coords RectBivariateSpline targetwcs wcs mode ixo iyo) =
    map (fun y =>
           map (fun x =>
                  fst (coord_at RectBivariateSpline targetwcs wcs mode x y))
             ixo) iyo /\
  snd (source_coords RectBivariateSpline targetwcs wcs mode ixo iyo) =
    map (fun y =>
           map (fun x =>
                  snd (coord_at RectBivariateSpline targetwcs wcs mode x y))
             ixo) iyo.
Proof.
  intros Hne. unfold source_coords, coord_at. destruct mode as [[xx yy]|].
  - destruct (fit_splines RectBivariateSpline targetwcs wcs xx yy)
      as [xs ys].
    unfold spline_call. cbn [fst snd].
    rewrite (transpose_spline_grid (fun x y => xs (inject_Z x) (inject_Z y)))
      by exact Hne.
    rewrite (transpose_spline_grid (fun x y => ys (inject_Z x) (inject_Z y)))
      by exact Hne.
    split; reflexivity.
  - unfold broadcast. cbn [fst snd]. rewrite !map_map.
    split; apply map_ext; intros y; now rewrite !map_map.
Qed.

Lemma dense_axis_In_nth (W c0 c1 m x : Z) :
  In x (dense_axis W c0 c1 m) <->
  exists j, (j < length (dense_axis W c0 c1 m))%nat /\
            x = hd 0 (dense_axis W c0 c1 m) + Z.of_nat j.
Proof.
  split.
  - intros Hin. destruct (In_nth _ _ 0 Hin) as (j & Hj & E).
    exists j. split; [exact Hj|]. rewrite <- E. now apply dense_axis_nth.
  - intros (j & Hj & ->). rewrite <- dense_axis_nth by exact Hj.
    now apply nth_In.
Qed.

Lemma cell_index (nx i j : nat) :
  (j < nx)%nat ->
  ((i * nx + j) / nx = i /\ (i * nx + j) mod nx = j)%nat.
Proof.
  intros Hj. assert (Hnx : nx <> 0%nat) by lia. split.
  - rewrite Nat.add_comm, Nat.div_add by exact Hnx.
    rewrite Nat.div_small by exact Hj. reflexivity.
  - rewrite Nat.add_comm, Nat.Div0.mod_add. now apply Nat.mod_small.
Qed.

(** The cells of the dense grid that the coordinate stage returns. *)
Lemma resample_coords_cells targetwcs wcs spline fallback step margin
    Yo Xo Yi Xi fxi fyi :
  resample_coords RectBivariateSpline targetwcs wcs spline fallback step margin
    = Ok (Yo, Xo, Yi, Xi, fxi, fyi) ->
  exists mode,
    select_mode targetwcs wcs spline fallback step margin = Ok mode /\
    let g := candidate_grid targetwcs wcs (grid_margin mode margin) in
    forall y x yi xi,
      In (y, x, (yi, xi)) (combine (combine Yo Xo) (combine Yi Xi)) <->
      In x (fst g) /\ In y (snd g) /\
      xi = round (fst (coord_at RectBivariateSpline targetwcs wcs mode x y))
      /\
      yi = round (snd (coord_at RectBivariateSpline targetwcs wcs mode x y))
      /\
      0 <= xi < imagew wcs /\ 0 <= yi < imageh wcs.
Proof.
  intros Hc.
  apply resample_coords_inv in Hc. destruct Hc as (mode & Hmode & Hc).
  exists mode. split; [exact Hmode|]. cbv zeta in Hc |- *.
  revert Hc. unfold candidate_grid.
  destruct (bbox targetwcs wcs) as [[[x0 y0] x1] y1]. cbn [fst snd].
  set (m := grid_margin mode margin).
  set (ixo := dense_axis (imagew targetwcs) x0 x1 m).
  set (iyo := dense_axis (imageh targetwcs) y0 y1 m).
  intros (Hgx & Hgy & -> & -> & -> & -> & _).
  destruct (source_coords_coord_at targetwcs wcs mode ixo iyo Hgx)
    as [Ex Ey].
  rewrite Ex, Ey. clear Ex Ey.
  pose (cx := fun x y =>
                fst (coord_at RectBivariateSpline targetwcs wcs mode x y)).
  pose (cy := fun x y =>
                snd (coord_at RectBivariateSpline targetwcs wcs mode x y)).
  set (flatx :=
         concat
           (map (fun y =>
                   map (fun x =>
                          fst (coord_at RectBivariateSpline targetwcs wcs
                                 mode x y)) ixo) iyo)).
  set (flaty :=
         concat
           (map (fun y =>
                   map (fun x =>
                          snd (coord_at RectBivariateSpline targetwcs wcs
                                 mode x y)) ixo) iyo)).
  set (I := retained (imagew wcs) (imageh wcs)
              (map round flatx) (map round flaty)).
  assert (Hnx : length ixo <> 0%nat) by now rewrite length_zero_iff_nil.
  assert (Lfx : length flatx = (length iyo * length ixo)%nat)
    by apply (concat_grid_length cx).
  assert (Lfy : length flaty = (length iyo * length ixo)%nat)
    by apply (concat_grid_length cy).
  assert (Hcell : forall k, (k < length iyo * length ixo)%nat ->
            nth k (map round flatx) 0 =
              round (cx (hd 0 ixo + Z.of_nat (k mod length ixo))
                        (hd 0 iyo + Z.of_nat (k / length ixo))) /\
            nth k (map round flaty) 0 =
              round (cy (hd 0 ixo + Z.of_nat (k mod length ixo))
                        (hd 0 iyo + Z.of_nat (k / length ixo)))).
  { intros k Hk.
    assert (Hjx : (k mod length ixo < length ixo)%nat)
      by now apply Nat.mod_upper_bound.
    assert (Hjy : (k / length ixo < length iyo)%nat)
      by (apply Nat.Div0.div_lt_upper_bound; now rewrite Nat.mul_comm).
    change 0 with (round 0%Q) at 1 4. rewrite !map_nth.
    unfold flatx, flaty.
    rewrite (concat_grid_nth cx), (concat_grid_nth cy) by exact Hk.
    unfold ixo, iyo. rewrite !dense_axis_nth by assumption.
    split; reflexivity. }
  assert (HInx : forall x, In x ixo <->
            exists j, (j < length ixo)%nat /\ x = hd 0 ixo + Z.of_nat j)
    by (intros x; apply dense_axis_In_nth).
  assert (HIny : forall y, In y iyo <->
            exists i, (i < length iyo)%nat /\ y = hd 0 iyo + Z.of_nat i)
    by (intros y; apply dense_axis_In_nth).
  clearbody flatx flaty ixo iyo.
  unfold take. rewrite !combine_map_same.
  intros y x yi xi. rewrite in_map_iff. split.
  - intros (k & E & Hk). inversion E; subst y x yi xi. clear E.
    apply retained_In in Hk. destruct Hk as (K1 & K2 & K3).
    rewrite length_map, Lfx in K1.
    apply in_bounds_spec in K3.
    destruct (Hcell k K1) as [Cx Cy].
    assert (Hjx : (k mod length ixo < length ixo)%nat)
      by now apply Nat.mod_upper_bound.
    assert (Hjy : (k / length ixo < length iyo)%nat)
      by (apply Nat.Div0.div_lt_upper_bound; now rewrite Nat.mul_comm).
    repeat split; try apply K3.
    + apply HInx. now exists (k mod length ixo)%nat.
    + apply HIny. now exists (k / length ixo)%nat.
    + exact Cx.
    + exact Cy.
  - intros (Hx & Hy & -> & -> & Bx & By).
    apply HInx in Hx. apply HIny in Hy.
    destruct Hx as (j & Hj & ->). destruct Hy as (i & Hi & ->).
    destruct (cell_index (length ixo) i j Hj) as [Ediv Emod].
    assert (Hk : (i * length ixo + j < length iyo * length ixo)%nat) by nia.
    destruct (Hcell _ Hk) as [Cx Cy]. rewrite Ediv, Emod in Cx, Cy.
    exists (i * length ixo + j)%nat. split.
    + rewrite Ediv, Emod, Cx, Cy. reflexivity.
    + unfold I, retained. apply flatnonzero_In.
      rewrite zipWith_length, !length_map, Lfx, Lfy. split; [lia|].
      rewrite (zipWith_nth _ _ _ _ _ 0 0)
        by (rewrite length_map; lia).
      rewrite Cx, Cy. apply in_bounds_spec. split; assumption.
Qed.

(** X5.  The returned arrays list exactly the pixels of the dense target
    grid whose source pixel is in bounds: [(y, x, yi, xi)] is an entry of
    [(Yo, Xo, Yi, Xi)] if and only if [(x, y)] is a cell of the grid,
    [(xi, yi)] is the rounding of the source coordinates the mapper in force
    gives to [(x, y)], and [(xi, yi)] lies inside the source image. *)
Theorem resample_returns_exactly_in_bounds_cells targetwcs wcs Limages L
    spline fallback step margin Yo Xo Yi Xi ims :
  resample_with_wcs lanczos_filter lanczos3_filter_table RectBivariateSpline
    targetwcs wcs Limages L spline fallback step margin
    = Ok (Yo, Xo, Yi, Xi, ims) ->
  exists mode,
    select_mode targetwcs wcs spline fallback step margin = Ok mode /\
    let g := candidate_grid targetwcs wcs (grid_margin mode margin) in
    forall y x yi xi,
      In (y, x, (yi, xi)) (combine (combine Yo Xo) (combine Yi Xi)) <->
      In x (fst g) /\ In y (snd g) /\
      xi = round (fst (coord_at RectBivariateSpline targetwcs wcs mode x y))
      /\
      yi = round (snd (coord_at RectBivariateSpline targetwcs wcs mode x y))
      /\
      0 <= xi < imagew wcs /\ 0 <= yi < imageh wcs.
Proof.
  intros Hr. apply resample_ok_iff in Hr.
  destruct Hr as (_ & fxi & fyi & Hc & _).
  now apply resample_coords_cells in Hc.
Qed.

Lemma nth_map_default {A B} (f : A -> B) (l : list A) (p : nat) (da : A)
    (db : B) :
  (p < length l)%nat -> nth p (map f l) db = f (nth p l da).
Proof.
  intros Hp. rewrite (nth_indep _ db (f da)) by now rewrite length_map.
  apply map_nth.
Qed.

Lemma flatnonzero_from_increasing (mask : list bool) (k p q : nat) :
  (p < q)%nat -> (q < length (flatnonzero_from k mask))%nat ->
  (nth p (flatnonzero_from k mask) 0 < nth q (flatnonzero_from k mask) 0)%nat.
Proof.
  revert k p q. induction mask as [|b mask IH]; intros k p q Hpq Hq;
    [simpl in Hq; lia|].
  cbn [flatnonzero_from] in *. destruct b; [|now apply IH].
  destruct q as [|q]; [lia|]. cbn [length] in Hq.
  assert (Hq' : (q < length (flatnonzero_from (S k) mask))%nat) by lia.
  destruct p as [|p]; cbn [nth].
  - pose proof (nth_In (flatnonzero_from (S k) mask) 0%nat Hq') as Hin.
    apply flatnonzero_from_In in Hin. lia.
  - apply IH; lia.
Qed.

(** X6.  The returned target pixels come in row-major order of the target
    image: from one entry to any later one the row [Yo] increases, or stays
    the same while the column [Xo] increases. *)
Theorem resample_targets_row_major targetwcs wcs Limages L spline fallback
    step margin Yo Xo Yi Xi ims :
  resample_with_wcs lanczos_filter lanczos3_filter_table RectBivariateSpline
    targetwcs wcs Limages L spline fallback step margin
    = Ok (Yo, Xo, Yi, Xi, ims) ->
  forall p q, (p < q)%nat -> (q < length Yo)%nat ->
    nth p Yo 0 < nth q Yo 0 \/
    (nth p Yo 0 = nth q Yo 0 /\ nth p Xo 0 < nth q Xo 0).
Proof.
  intros Hr p q Hpq Hq. apply resample_ok_iff in Hr.
  destruct Hr as (_ & fxi & fyi & Hc & _).
  apply resample_coords_inv in Hc. destruct Hc as (mode & _ & Hc).
  cbv zeta in Hc. destruct Hc as (Hgx & _ & -> & -> & _).
  rewrite length_map in Hq.
  set (I := retained _ _ _ _) in *.
  set (nx := length (fst (candidate_grid targetwcs wcs
                            (grid_margin mode margin)))) in *.
  assert (Hnx : nx <> 0%nat) by (unfold nx; now rewrite length_zero_iff_nil).
  rewrite !(nth_map_default _ I _ 0%nat) by lia.
  assert (Hk : (nth p I 0 < nth q I 0)%nat)
    by (apply flatnonzero_from_increasing; assumption).
  pose proof (Nat.Div0.div_le_mono _ _ nx (Nat.lt_le_incl _ _ Hk)) as Hdiv.
  pose proof (Nat.div_mod_eq (nth p I 0%nat) nx) as Dp.
  pose proof (Nat.div_mod_eq (nth q I 0%nat) nx) as Dq.
  destruct (Nat.eq_dec (nth p I 0%nat / nx) (nth q I 0%nat / nx))
    as [E|Hne].
  - right. rewrite E in Dp |- *. split; [reflexivity|]. lia.
  - left. lia.
Qed.

(** The returned target pixels are cells of the dense grid. *)
Lemma resample_coords_targets_in_grid targetwcs wcs spline fallback step
    margin Yo Xo Yi Xi fxi fyi :
  resample_coords RectBivariateSpline targetwcs wcs spline fallback step margin
    = Ok (Yo, Xo, Yi, Xi, fxi, fyi) ->
  exists mode,
    select_mode targetwcs wcs spline fallback step margin = Ok mode /\
    Forall (fun x => In x (fst (candidate_grid targetwcs wcs
                                  (grid_margin mode margin)))) Xo /\
    Forall (fun y => In y (snd (candidate_grid targetwcs wcs
                                  (grid_margin mode margin)))) Yo.
Proof.
  intros Hc. apply resample_coords_inv in Hc.
  destruct Hc as (mode & Hmode & Hc). exists mode. split; [exact Hmode|].
  cbv zeta in Hc. destruct Hc as (Hgx & Hgy & -> & -> & _).
  destruct (rounded_coords_length RectBivariateSpline targetwcs wcs mode _
              (snd (candidate_grid targetwcs wcs (grid_margin mode margin)))
              Hgx) as [Lx _].
  revert Hgx Hgy Lx. unfold candidate_grid.
  destruct (bbox targetwcs wcs) as [[[x0 y0] x1] y1]. cbn [fst snd].
  set (ixo := dense_axis (imagew targetwcs) x0 x1 (grid_margin mode margin)).
  set (iyo := dense_axis (imageh targetwcs) y0 y1 (grid_margin mode margin)).
  intros Hgx Hgy Lx.
  assert (Hnx : length ixo <> 0%nat) by now rewrite length_zero_iff_nil.
  rewrite !Forall_map.
  split; apply Forall_forall; intros k Hk; apply retained_In in Hk;
    destruct Hk as (K1 & _ & _); apply dense_axis_In_nth.
  - exists (k mod length ixo)%nat. split; [|reflexivity].
    now apply Nat.mod_upper_bound.
  - exists (k / length ixo)%nat. split; [|reflexivity].
    apply Nat.Div0.div_lt_upper_bound. rewrite Lx in K1.
    now rewrite Nat.mul_comm.
Qed.

(** X7.  No returned target pixel lies outside the bounding box of the
    projected corners, enlarged by the margin in force (the spline margin on
    the spline path, 0 on the direct path). *)
Theorem resample_targets_within_bbox targetwcs wcs Limages L spline fallback
    step margin Yo Xo Yi Xi ims :
  resample_with_wcs lanczos_filter lanczos3_filter_table RectBivariateSpline
    targetwcs wcs Limages L spline fallback step margin
    = Ok (Yo, Xo, Yi, Xi, ims) ->
  let x0 := fst (fst (fst (bbox targetwcs wcs))) in
  let y0 := snd (fst (fst (bbox targetwcs wcs))) in
  let x1 := snd (fst (bbox targetwcs wcs)) in
  let y1 := snd (bbox targetwcs wcs) in
  let m := margin_at_grid targetwcs wcs spline fallback step margin in
  Forall (fun x => x0 - m <= x <= x1 + m) Xo /\
  Forall (fun y => y0 - m <= y <= y1 + m) Yo.
Proof.
  intros Hr. apply resample_ok_iff in Hr.
  destruct Hr as (_ & fxi & fyi & Hc & _).
  apply resample_coords_targets_in_grid in Hc.
  destruct Hc as (mode & Hmode & HX & HY).
  cbv zeta. unfold margin_at_grid. rewrite Hmode.
  revert HX HY. unfold candidate_grid, dense_axis.
  destruct (bbox targetwcs wcs) as [[[x0 y0] x1] y1]. cbn [fst snd].
  intros HX HY. split.
  - eapply Forall_impl; [|exact HX]. cbv beta. intros x Hx.
    apply arange_In in Hx. lia.
  - eapply Forall_impl; [|exact HY]. cbv beta. intros y Hy.
    apply arange_In in Hy. lia.
Qed.

(** *** Rounding *)

Lemma round_half (q : Q) :
  (- (1 # 2) <= q - inject_Z (round q) <= 1 # 2)%Q.
Proof.
  unfold round.
  pose proof (Qfloor_le q) as Hlo. pose proof (Qlt_floor q) as Hhi.
  rewrite inject_Z_plus in Hhi. change (inject_Z 1) with 1%Q in Hhi.
  assert (Hup : (inject_Z (Qfloor q + 1) == inject_Z (Qfloor q) + 1)%Q)
    by (rewrite inject_Z_plus; reflexivity).
  destruct (Qcompare_spec (q - inject_Z (Qfloor q)) (1 # 2)) as [E|Hlt|Hgt].
  - destruct (Z.even (Qfloor q)); [|rewrite Hup];
      revert Hlo Hhi E; generalize (inject_Z (Qfloor q)); intros F Hlo Hhi E;
      split; lra.
  - revert Hlo Hhi Hlt. generalize (inject_Z (Qfloor q)). intros F Hlo Hhi Hlt.
    split; lra.
  - rewrite Hup. revert Hlo Hhi Hgt. generalize (inject_Z (Qfloor q)).
    intros F Hlo Hhi Hgt. split; lra.
Qed.

Lemma round_comp (a b : Q) : (a == b)%Q -> round a = round b.
Proof.
  intros E. unfold round. rewrite (Qfloor_comp _ _ E).
  assert (Ec : (a - inject_Z (Qfloor b) ?= 1 # 2)%Q
               = (b - inject_Z (Qfloor b) ?= 1 # 2)%Q)
    by now rewrite E.
  now rewrite Ec.
Qed.

Lemma round_le (a b : Q) : (a <= b)%Q -> round a <= round b.
Proof.
  intros Hab. destruct (Z_lt_le_dec (round b) (round a)) as [Hlt|]; [|lia].
  exfalso.
  pose proof (round_half a) as [Ha _]. pose proof (round_half b) as [_ Hb].
  assert (Hz : (inject_Z (round b) + 1 <= inject_Z (round a))%Q).
  { change 1%Q with (inject_Z 1). rewrite <- inject_Z_plus, <- Zle_Qle. lia. }
  assert (E : (a == b)%Q).
  { apply Qle_antisym; [exact Hab|].
    revert Ha Hb Hz. generalize (inject_Z (round a)), (inject_Z (round b)).
    intros ra rb Ha Hb Hz. lra. }
  apply round_comp in E. lia.
Qed.

(** X8.  The fractional remainders [dx = fxi - ixi] and [dy = fyi - iyi]
    that lines 265-268 hand to the interpolation are at most half a pixel
    in absolute value. *)
Theorem remainders_at_most_half targetwcs wcs spline fallback step margin
    Yo Xo Yi Xi fxi fyi :
  resample_coords RectBivariateSpline targetwcs wcs spline fallback step margin
    = Ok (Yo, Xo, Yi, Xi, fxi, fyi) ->
  Forall (fun d => (- (1 # 2) <= d <= 1 # 2)%Q)
    (zipWith (fun f i => (f - inject_Z i)%Q) fxi Xi) /\
  Forall (fun d => (- (1 # 2) <= d <= 1 # 2)%Q)
    (zipWith (fun f i => (f - inject_Z i)%Q) fyi Yi).
Proof.
  intros Hc. apply resample_coords_inv in Hc.
  destruct Hc as (mode & _ & Hc). cbv zeta in Hc.
  destruct Hc as (_ & _ & _ & _ & -> & -> & -> & ->).
  unfold take. rewrite !zipWith_map, !zipWith_diag, !Forall_map.
  split; apply Forall_forall; intros k Hk; cbv beta;
    apply retained_In in Hk; destruct Hk as (K1 & K2 & _);
    rewrite length_map in K1, K2;
    rewrite (nth_map_default round _ _ 0%Q) by assumption;
    apply round_half.
Qed.

(** The box is never inside out: its lower corner is below its upper one. *)
Lemma bbox_ordered (targetwcs wcs : WCS) :
  fst (fst (fst (bbox targetwcs wcs))) <= snd (fst (bbox targetwcs wcs)) /\
  snd (fst (fst (bbox targetwcs wcs))) <= snd (bbox targetwcs wcs).
Proof.
  unfold bbox. cbn [fst snd].
  assert (Hmm : forall l, l <> [] -> (amin l <= amax l)%Q).
  { intros [|v l] Hne; [congruence|]. unfold amin, amax.
    destruct (fold_Qmin_spec l v) as (_ & Hlo & _).
    destruct (fold_Qmax_spec l v) as (_ & Hhi & _).
    eapply Qle_trans; eassumption. }
  split; apply round_le, Hmm; unfold corner_XY, corners; discriminate.
Qed.

(** X9.  With the spline disabled, images of the right shape and a target
    image that has pixels, [NoOverlapError] is raised exactly when the
    rounded bounding box of the projected corners misses the target
    rectangle [[0,W) x [0,H)]. *)
Theorem direct_no_overlap_iff_bbox_misses_target targetwcs wcs Limages L
    fallback step margin :
  shapes_ok wcs Limages = true ->
  0 < imagew targetwcs -> 0 < imageh targetwcs ->
  let x0 := fst (fst (fst (bbox targetwcs wcs))) in
  let y0 := snd (fst (fst (bbox targetwcs wcs))) in
  let x1 := snd (fst (bbox targetwcs wcs)) in
  let y1 := snd (bbox targetwcs wcs) in
  resample_with_wcs lanczos_filter lanczos3_filter_table RectBivariateSpline
    targetwcs wcs Limages L false fallback step margin
    = Raise NoOverlapError <->
  x1 < 0 \/ imagew targetwcs <= x0 \/ y1 < 0 \/ imageh targetwcs <= y0.
Proof.
  intros Hs HW HH. cbv zeta.
  destruct (resample_outcome lanczos_filter lanczos3_filter_table
              RectBivariateSpline targetwcs wcs Limages L false fallback
              step margin) as [_ Hok].
  specialize (Hok Hs). cbn [select_mode grid_margin] in Hok.
  cbv zeta in Hok. destruct Hok as [Hemp Hfull].
  pose proof (bbox_ordered targetwcs wcs) as [Hx Hy].
  revert Hemp Hfull Hx Hy. unfold candidate_grid, dense_axis.
  destruct (bbox targetwcs wcs) as [[[x0 y0] x1] y1]. cbn [fst snd].
  rewrite !arange_empty. intros Hemp Hfull Hx Hy. split.
  - intros HR.
    destruct (Z_le_gt_dec (Z.min (imagew targetwcs) (x1 + 0 + 1))
                (Z.max 0 (x0 - 0))) as [Ex|Ex]; [lia|].
    destruct (Z_le_gt_dec (Z.min (imageh targetwcs) (y1 + 0 + 1))
                (Z.max 0 (y0 - 0))) as [Ey|Ey]; [lia|].
    exfalso. destruct Hfull as [r Hr]; [lia | lia |]. congruence.
  - intros Hmiss. apply Hemp. lia.
Qed.

End Geometry.

(** ** No overlap reported as a small overlap *)

Section Overlap.

Variable lanczos_filter : Z -> Q -> Q.
Variable lanczos3_filter_table : option (Q -> Q).
Variable RectBivariateSpline : list Q -> list Q -> list (list Q) -> Q -> Q -> Q.

Import Np NpFacts.

(** The node count [ceil(d / step) + 1] of an axis whose clamped range has
    the signed length [d]: at least 1 as soon as [- step < d], and exactly 1
    for a negative [d] above [- step]. *)
Lemma spline_axis_nonempty (W c0 c1 margin step : Z) :
  0 < step ->
  - step < axis_hi W c1 margin - axis_lo c0 margin ->
  (0 < length (spline_axis W c0 c1 margin step))%nat.
Proof.
  intros Hstep Hd. rewrite spline_axis_length.
  set (d := axis_hi W c1 margin - axis_lo c0 margin) in *.
  assert (Hsq : (0 < inject_Z step)%Q) by now rewrite <- (Zlt_Qlt 0).
  assert (Hx : (inject_Z (-1) < inject_Z d / inject_Z step)%Q).
  { apply Qlt_shift_div_l; [exact Hsq|].
    rewrite <- inject_Z_mult, <- Zlt_Qlt. lia. }
  pose proof (Qle_ceiling (inject_Z d / inject_Z step)) as Hc.
  assert (Hz : -1 < Qceiling (inject_Z d / inject_Z step)).
  { rewrite Zlt_Qlt. eapply Qlt_le_trans; eassumption. }
  lia.
Qed.

Lemma spline_axis_gap_one_node (W c0 c1 margin step : Z) :
  0 < step ->
  - step < axis_hi W c1 margin - axis_lo c0 margin < 0 ->
  length (spline_axis W c0 c1 margin step) = 1%nat.
Proof.
  intros Hstep [Hlo Hneg].
  pose proof (spline_axis_nonempty W c0 c1 margin step Hstep Hlo) as Hpos.
  rewrite spline_axis_length in *.
  set (d := axis_hi W c1 margin - axis_lo c0 margin) in *.
  assert (Hsq : (0 < inject_Z step)%Q) by now rewrite <- (Zlt_Qlt 0).
  assert (Hq : (inject_Z d / inject_Z step <= inject_Z 0)%Q).
  { apply Qdiv_le_iff; [exact Hsq|].
    rewrite <- inject_Z_mult, <- Zle_Qle. lia. }
  apply Qceiling_resp_le in Hq. rewrite Qceiling_Z in Hq. lia.
Qed.

(** A clamped range of negative length leaves no dense column, with the
    margin and without it. *)
Lemma dense_axis_gap_empty (W c0 c1 margin : Z) :
  c0 <= c1 -> 0 <= margin ->
  axis_hi W c1 margin - axis_lo c0 margin < 0 ->
  dense_axis W c0 c1 margin = [] /\ dense_axis W c0 c1 0 = [].
Proof.
  unfold axis_hi, axis_lo, dense_axis. intros Hc Hm Hd.
  split; apply arange_empty; lia.
Qed.

(** C5.  The test of the spline block for "no overlap" (no node on an
    axis) misses the pairs whose clamped range is empty by less than one
    step: [ceil(d / step) + 1] is then 1, not 0.  For such a pair the dense
    target grid has no node along that axis, with the spline margin and
    without it; the call made with the spline on and the fallback off
    raises [SmallOverlapError], while the same call with the fallback on,
    or with the spline off, raises [NoOverlapError]. *)
Theorem small_overlap_raised_without_overlap targetwcs wcs Limages L
    step margin :
  shapes_ok wcs Limages = true ->
  0 < step -> 0 <= margin ->
  let W := imagew targetwcs in
  let H := imageh targetwcs in
  let x0 := fst (fst (fst (bbox targetwcs wcs))) in
  let y0 := snd (fst (fst (bbox targetwcs wcs))) in
  let x1 := snd (fst (bbox targetwcs wcs)) in
  let y1 := snd (bbox targetwcs wcs) in
  let dx := axis_hi W x1 margin - axis_lo x0 margin in
  let dy := axis_hi H y1 margin - axis_lo y0 margin in
  (- step < dx < 0 /\ - step < dy) \/ (- step < dy < 0 /\ - step < dx) ->
  let R := resample_with_wcs lanczos_filter lanczos3_filter_table
             RectBivariateSpline targetwcs wcs Limages L in
  (fst (candidate_grid targetwcs wcs margin) = [] \/
   snd (candidate_grid targetwcs wcs margin) = []) /\
  (fst (candidate_grid targetwcs wcs 0) = [] \/
   snd (candidate_grid targetwcs wcs 0) = []) /\
  R true false step margin = Raise SmallOverlapError /\
  R true true step margin = Raise NoOverlapError /\
  (forall fallback, R false fallback step margin = Raise NoOverlapError).
Proof.
  intros Hs Hstep Hm W H x0 y0 x1 y1 dx dy Hgap R.
  pose proof (bbox_ordered targetwcs wcs) as [Hox Hoy].
  fold x0 x1 in Hox. fold y0 y1 in Hoy.
  assert (Hnodes :
    (0 < length (fst (spline_nodes targetwcs wcs step margin)))%nat /\
    (0 < length (snd (spline_nodes targetwcs wcs step margin)))%nat /\
    (length (fst (spline_nodes targetwcs wcs step margin)) <= 3 \/
     length (snd (spline_nodes targetwcs wcs step margin)) <= 3)%nat).
  { unfold spline_nodes. revert Hgap. unfold dx, dy, x0, y0, x1, y1, W, H.
    destruct (bbox targetwcs wcs) as [[[bx0 by0] bx1] by1]. cbn [fst snd].
    intros [[Hx Hy] | [Hy Hx]].
    - rewrite (spline_axis_gap_one_node _ _ _ _ _ Hstep Hx).
      pose proof (spline_axis_nonempty _ _ _ _ _ Hstep Hy). lia.
    - rewrite (spline_axis_gap_one_node _ _ _ _ _ Hstep Hy).
      pose proof (spline_axis_nonempty _ _ _ _ _ Hstep Hx). lia. }
  destruct Hnodes as (Nx & Ny & N3).
  assert (Hgrid :
    (fst (candidate_grid targetwcs wcs margin) = [] \/
     snd (candidate_grid targetwcs wcs margin) = []) /\
    (fst (candidate_grid targetwcs wcs 0) = [] \/
     snd (candidate_grid targetwcs wcs 0) = [])).
  { unfold candidate_grid. revert Hgap Hox Hoy.
    unfold dx, dy, x0, y0, x1, y1, W, H.
    destruct (bbox targetwcs wcs) as [[[bx0 by0] bx1] by1]. cbn [fst snd].
    intros [[[_ Hx] _] | [[_ Hy] _]] Hox Hoy.
    - destruct (dense_axis_gap_empty _ _ _ _ Hox Hm Hx) as [E1 E2].
      split; left; assumption.
    - destruct (dense_axis_gap_empty _ _ _ _ Hoy Hm Hy) as [E1 E2].
      split; right; assumption. }
  destruct Hgrid as [Gm G0].
  split; [exact Gm|]. split; [exact G0|].
  assert (Hnz : (step =? 0) = false) by (apply Z.eqb_neq; lia).
  assert (Hfb : select_mode targetwcs wcs true true step margin = Ok None).
  { unfold select_mode. rewrite Hnz.
    destruct (spline_nodes targetwcs wcs step margin) as [xx yy].
    cbn [fst snd] in Nx, Ny, N3.
    assert (E0 : (length xx =? 0)%nat || (length yy =? 0)%nat = false)
      by (apply orb_false_iff; rewrite !Nat.eqb_neq; lia).
    assert (E3 : (length xx <=? 3)%nat || (length yy <=? 3)%nat = true)
      by (apply orb_true_iff; rewrite !Nat.leb_le; lia).
    rewrite E0, E3. reflexivity. }
  assert (Hsm : select_mode targetwcs wcs true false step margin
                = Raise SmallOverlapError).
  { unfold select_mode. rewrite Hnz.
    destruct (spline_nodes targetwcs wcs step margin) as [xx yy].
    cbn [fst snd] in Nx, Ny, N3.
    assert (E0 : (length xx =? 0)%nat || (length yy =? 0)%nat = false)
      by (apply orb_false_iff; rewrite !Nat.eqb_neq; lia).
    assert (E3 : (length xx <=? 3)%nat || (length yy <=? 3)%nat = true)
      by (apply orb_true_iff; rewrite !Nat.leb_le; lia).
    rewrite E0, E3. reflexivity. }
  unfold R. split; [|split].
  - destruct (resample_outcome lanczos_filter lanczos3_filter_table
                RectBivariateSpline targetwcs wcs Limages L true false step
                margin) as [_ Hok].
    specialize (Hok Hs). rewrite Hsm in Hok. exact Hok.
  - destruct (resample_outcome lanczos_filter lanczos3_filter_table
                RectBivariateSpline targetwcs wcs Limages L true true step
                margin) as [_ Hok].
    specialize (Hok Hs). rewrite Hfb in Hok. cbv zeta in Hok.
    apply (proj1 Hok). exact G0.
  - intros fallback.
    destruct (resample_outcome lanczos_filter lanczos3_filter_table
                RectBivariateSpline targetwcs wcs Limages L false fallback
                step margin) as [_ Hok].
    specialize (Hok Hs). cbn [select_mode] in Hok. cbv zeta in Hok.
    apply (proj1 Hok). exact G0.
Qed.

End Overlap.

(** ** The kernel in the interpolation *)

Section Kernel.

Import Np NpFacts.

Lemma fold_left_ext {A B} (f g : A -> B -> A) (l : list B) (a : A) :
  (forall a b, f a b = g a b) -> fold_left f l a = fold_left g l a.
Proof.
  intros Hfg. revert a. induction l as [|b l IH]; intros a; simpl;
    [reflexivity|].
  now rewrite Hfg, IH.
Qed.

(** X10.  The interpolation uses the kernel only through the values
    [lfunc(L, x)] of the filter selected for the order [L]: two filters
    (general or table-driven) that return the same weights give the same
    resampled values. *)
Theorem lanczos_depends_on_kernel_values
    (filter1 filter2 : Z -> Q -> Q) (table1 table2 : option (Q -> Q))
    L ixi iyi dx dy laccs limages :
  (forall x, lfunc filter1 table1 L L x = lfunc filter2 table2 L L x) ->
  _lanczos_interpolate filter1 table1 L ixi iyi dx dy laccs limages =
  _lanczos_interpolate filter2 table2 L ixi iyi dx dy laccs limages.
Proof.
  intros Hk.
  assert (Hrow : forall o d,
            kernel_row filter1 table1 L o d = kernel_row filter2 table2 L o d).
  { intros o d. unfold kernel_row. apply map_ext. intros v. apply Hk. }
  unfold _lanczos_interpolate. destruct limages as [|im0 limages'];
    [reflexivity|].
  destruct (shape im0) as [h w].
  assert (Hloop : forall off st,
            oy_loop filter1 table1 L h w iyi ixi dx dy (im0 :: limages')
              off st =
            oy_loop filter2 table2 L h w iyi ixi dx dy (im0 :: limages')
              off st).
  { intros off st. unfold oy_loop. apply fold_left_ext. intros a oy.
    rewrite Hrow. unfold ox_loop. apply fold_left_ext. intros b ox.
    now rewrite Hrow. }
  now rewrite Hloop.
Qed.

(** X11.  The lookup table is consulted for the order 3 only: for any other
    order the result does not depend on the table (nor on whether its import
    succeeded); and for the order 3 with a table, the result does not depend
    on the general filter. *)
Theorem table_only_for_order_3
    (filter filter' : Z -> Q -> Q) (table table' : option (Q -> Q))
    (t : Q -> Q) L ixi iyi dx dy laccs limages :
  (L <> 3 ->
   _lanczos_interpolate filter table L ixi iyi dx dy laccs limages =
   _lanczos_interpolate filter table' L ixi iyi dx dy laccs limages) /\
  (L = 3 ->
   _lanczos_interpolate filter (Some t) L ixi iyi dx dy laccs limages =
   _lanczos_interpolate filter' (Some t) L ixi iyi dx dy laccs limages).
Proof.
  split; intros HL.
  - assert (Hk : forall tb, lfunc filter tb L = filter).
    { intros tb. unfold lfunc. apply Z.eqb_neq in HL. now rewrite HL. }
    unfold _lanczos_interpolate, oy_loop, ox_loop, kernel_row.
    now rewrite !Hk.
  - subst L.
    unfold _lanczos_interpolate, oy_loop, ox_loop, kernel_row, lfunc.
    reflexivity.
Qed.

Variable lanczos_filter : Z -> Q -> Q.
Variable lanczos3_filter_table : option (Q -> Q).

Lemma Qsum_scale_l (f : Z -> Q) (c : Q) (l : list Z) :
  (Qsum (fun o => c * f o) l == c * Qsum f l)%Q.
Proof.
  induction l as [|o l IH]; cbn [Qsum fold_right]; [ring|].
  fold (Qsum f l). fold (Qsum (fun o => (c * f o)%Q) l). rewrite IH. ring.
Qed.

(** X12.  The normalisation weight of a pixel is separable: the sum of the
    2-D weights [fx * fy] over the window is the product of the sum of the
    x-weights and the sum of the y-weights, hence non-zero exactly when
    both 1-D sums are. *)
Theorem weight_sum_separable (L : Z) (dxp dyp : Q) :
  (weight_sum lanczos_filter lanczos3_filter_table L dxp dyp ==
   weight_sum_1d lanczos_filter lanczos3_filter_table L dxp *
   weight_sum_1d lanczos_filter lanczos3_filter_table L dyp)%Q /\
  ((weight_sum lanczos_filter lanczos3_filter_table L dxp dyp == 0)%Q <->
   (weight_sum_1d lanczos_filter lanczos3_filter_table L dxp == 0)%Q \/
   (weight_sum_1d lanczos_filter lanczos3_filter_table L dyp == 0)%Q).
Proof.
  assert (E : (weight_sum lanczos_filter lanczos3_filter_table L dxp dyp ==
               weight_sum_1d lanczos_filter lanczos3_filter_table L dxp *
               weight_sum_1d lanczos_filter lanczos3_filter_table L dyp)%Q).
  { unfold weight_sum, weight_sum_1d.
    rewrite <- Qsum_scale_l. apply Qsum_ext_in. intros oy _.
    apply Qsum_scale. }
  split; [exact E|]. rewrite E. split.
  - apply Qmult_integral.
  - intros [H|H]; rewrite H; ring.
Qed.


End Kernel.

(** ** Using the result: pasting into the target image *)

Section Paste.

Variable lanczos_filter : Z -> Q -> Q.
Variable lanczos3_filter_table : option (Q -> Q).
Variable RectBivariateSpline : list Q -> list Q -> list (list Q) -> Q -> Q -> Q.

Import Np NpFacts.

Lemma axis_indices_in_range (n : Z) (l : list Z) :
  Forall (fun i => 0 <= i < n) l -> axis_indices n l = Some l.
Proof.
  induction 1 as [|i l Hi _ IH]; cbn [axis_indices]; [reflexivity|].
  rewrite IH. unfold axis_index.
  assert (E : (0 <=? i) && (i <? n) = true)
    by (apply andb_true_iff; rewrite Z.leb_le, Z.ltb_lt; lia).
  now rewrite E.
Qed.

Lemma assign_elsewhere (idx : list (Z * Z)) :
  forall pix vals y x,
    ~ In (y, x) idx -> assign pix idx vals y x = pix y x.
Proof.
  induction idx as [|[y0 x0] idx IH]; intros pix vals y x Hnot;
    [reflexivity|].
  destruct vals as [|v vals]; [reflexivity|]. cbn [assign].
  rewrite IH by (intros Hin; apply Hnot; now right). cbv beta.
  destruct ((y =? y0) && (x =? x0)) eqn:E; [|reflexivity].
  apply andb_true_iff in E. rewrite !Z.eqb_eq in E. destruct E; subst.
  exfalso. apply Hnot. now left.
Qed.

Lemma assign_written (idx : list (Z * Z)) :
  forall pix vals p,
    NoDup idx -> length vals = length idx -> (p < length idx)%nat ->
    assign pix idx vals (fst (nth p idx (0, 0))) (snd (nth p idx (0, 0)))
    = nth p vals 0%Q.
Proof.
  induction idx as [|[y0 x0] idx IH]; intros pix vals p Hnd Hlen Hp;
    [simpl in Hp; lia|].
  destruct vals as [|v vals]; [discriminate|].
  inversion Hnd as [|? ? Hnotin Hnd']; subst. cbn [assign].
  destruct p as [|p]; cbn [nth fst snd].
  - rewrite assign_elsewhere by exact Hnotin. cbv beta.
    now rewrite !Z.eqb_refl.
  - apply IH; [exact Hnd' | simpl in Hlen; lia | simpl in Hp; lia].
Qed.

(** The retained target pixels are pairwise distinct. *)
Lemma resample_coords_targets_distinct targetwcs wcs spline fallback step
    margin Yo Xo Yi Xi fxi fyi :
  resample_coords RectBivariateSpline targetwcs wcs spline fallback step margin
    = Ok (Yo, Xo, Yi, Xi, fxi, fyi) ->
  NoDup (combine Yo Xo) /\ length Yo = length Xo /\
  length Yi = length Yo /\ length Xi = length Yo.
Proof.
  intros Hc. apply resample_coords_inv in Hc.
  destruct Hc as (mode & _ & Hc). cbv zeta in Hc.
  destruct Hc as (Hgx & _ & -> & -> & -> & -> & _).
  rewrite !take_length, !length_map. repeat split.
  rewrite combine_map_same.
  apply NoDup_map_inj_in; [|apply retained_NoDup].
  intros a b _ _ Hab.
  set (nx := length (fst (candidate_grid targetwcs wcs
                            (grid_margin mode margin)))) in *.
  assert (Hnx : nx <> 0%nat) by (unfold nx; now rewrite length_zero_iff_nil).
  inversion Hab as [[Hq Hm]].
  rewrite (Nat.div_mod_eq a nx), (Nat.div_mod_eq b nx).
  assert ((a / nx = b / nx)%nat) by lia.
  assert ((a mod nx = b mod nx)%nat) by lia.
  congruence.
Qed.

Lemma zipWith_combine_nth {A} (f : Z -> Z -> A) (Y X : list Z) (p : nat)
    (d : A) :
  length Y = length X -> (p < length Y)%nat ->
  nth p (zipWith f Y X) d =
  f (fst (nth p (combine Y X) (0, 0))) (snd (nth p (combine Y X) (0, 0))).
Proof.
  intros Hlen Hp. rewrite combine_nth by exact Hlen. cbn [fst snd].
  apply zipWith_nth; lia.
Qed.

(** Pasting values at the returned target pixels of a fresh image. *)
Lemma paste_spec targetwcs wcs spline fallback step margin
    Yo Xo Yi Xi fxi fyi (vals : list Q) :
  resample_coords RectBivariateSpline targetwcs wcs spline fallback step margin
    = Ok (Yo, Xo, Yi, Xi, fxi, fyi) ->
  length vals = length Yo ->
  exists out,
    setitem (zeros2 (imageh targetwcs) (imagew targetwcs)) Yo Xo vals
      = Ok out /\
    shape out = (imageh targetwcs, imagew targetwcs) /\
    getitem out Yo Xo = Ok vals /\
    (forall p, (p < length Yo)%nat ->
       pixel out (nth p Yo 0) (nth p Xo 0) = nth p vals 0%Q) /\
    (forall y x, ~ In (y, x) (combine Yo Xo) -> pixel out y x = 0%Q).
Proof.
  intros Hc Hlen.
  destruct (resample_coords_targets_distinct _ _ _ _ _ _ _ _ _ _ _ _ Hc)
    as (Hnd & LX & _ & _).
  pose proof (resample_coords_bounds RectBivariateSpline _ _ _ _ _ _ _ _ _ _
                _ _ Hc) as (BX & BY & _ & _).
  apply axis_indices_in_range in BX, BY.
  unfold setitem, getitem. cbn [zeros2 shape]. rewrite BX, BY.
  eexists. split; [reflexivity|]. cbn [shape pixel]. rewrite BX, BY.
  assert (Hread : forall p, (p < length Yo)%nat ->
            assign (fun _ _ => 0%Q) (combine Yo Xo) vals
              (nth p Yo 0) (nth p Xo 0) = nth p vals 0%Q).
  { intros p Hp.
    pose proof (assign_written (combine Yo Xo) (fun _ _ => 0%Q) vals p Hnd)
      as Hw.
    rewrite length_combine, <- LX, Nat.min_id in Hw.
    specialize (Hw Hlen Hp). rewrite combine_nth in Hw by exact LX.
    exact Hw. }
  repeat split.
  - f_equal. apply (nth_ext _ _ 0%Q 0%Q).
    + rewrite zipWith_length. lia.
    + intros p Hp. rewrite zipWith_length in Hp.
      rewrite (zipWith_nth _ _ _ _ _ 0 0) by lia. apply Hread. lia.
  - exact Hread.
  - intros y x Hnot. now apply assign_elsewhere.
Qed.

(** X14.  The use [target[Yo,Xo] = ims[i]] of the docstring: on a target of
    zeros of the size of the target WCS the assignment never raises
    [IndexError], each returned pixel receives its own value (reading
    [target[Yo,Xo]] back gives [ims[i]]), and every other pixel stays 0. *)
Theorem paste_values_roundtrip targetwcs wcs Limages L spline fallback step
    margin Yo Xo Yi Xi ims (vals : list Q) :
  resample_with_wcs lanczos_filter lanczos3_filter_table RectBivariateSpline
    targetwcs wcs Limages L spline fallback step margin
    = Ok (Yo, Xo, Yi, Xi, ims) ->
  In vals ims ->
  exists out,
    setitem (zeros2 (imageh targetwcs) (imagew targetwcs)) Yo Xo vals
      = Ok out /\
    shape out = (imageh targetwcs, imagew targetwcs) /\
    getitem out Yo Xo = Ok vals /\
    (forall y x, ~ In (y, x) (combine Yo Xo) -> pixel out y x = 0%Q).
Proof.
  intros Hr Hin. apply resample_ok_iff in Hr.
  destruct Hr as (_ & fxi & fyi & Hc & Hv).
  assert (Hlen : length vals = length Yo).
  { destruct (resample_coords_targets_distinct _ _ _ _ _ _ _ _ _ _ _ _ Hc)
      as (_ & LX & LYi & LXi).
    unfold resample_values in Hv. destruct Limages as [|im Limages'].
    - inversion Hv; subst ims. contradiction.
    - apply (lanczos_shape _ _ (length Yo)) in Hv.
      + destruct Hv as [_ Hall]. unfold all_length in Hall.
        rewrite Forall_forall in Hall. now apply Hall.
      + exact LYi.
      + exact LXi.
      + apply resample_coords_inv in Hc. destruct Hc as (mode & _ & Hc).
        cbv zeta in Hc. destruct Hc as (_ & _ & -> & _ & _ & -> & -> & _).
        rewrite zipWith_length, !take_length, length_map. lia.
      + apply resample_coords_inv in Hc. destruct Hc as (mode & _ & Hc).
        cbv zeta in Hc. destruct Hc as (_ & _ & -> & _ & -> & _ & _ & ->).
        rewrite zipWith_length, !take_length, length_map. lia.
      + unfold all_length. rewrite Forall_map. apply Forall_forall.
        intros _ _. unfold zeros. rewrite repeat_length. now rewrite LX. }
  destruct (paste_spec _ _ _ _ _ _ _ _ _ _ _ _ vals Hc Hlen)
    as (out & H1 & H2 & H3 & _ & H5).
  exists out. repeat split; assumption.
Qed.

(** X15.  The use [target[Yo,Xo] = nearest_neighbour[Yi,Xi]] of the
    docstring, for a source image of the shape of the source WCS: whenever
    the call succeeds, neither indexing raises [IndexError], each returned
    target pixel receives the sample of its source pixel, and every other
    target pixel stays 0. *)
Theorem nearest_neighbour_copies_source_pixels targetwcs wcs src L spline
    fallback step margin Yo Xo Yi Xi ims :
  shape src = (imageh wcs, imagew wcs) ->
  resample_with_wcs lanczos_filter lanczos3_filter_table RectBivariateSpline
    targetwcs wcs [] L spline fallback step margin
    = Ok (Yo, Xo, Yi, Xi, ims) ->
  exists out,
    nearest_neighbour lanczos_filter lanczos3_filter_table
      RectBivariateSpline targetwcs wcs src L spline fallback step margin
      = Ok out /\
    shape out = (imageh targetwcs, imagew targetwcs) /\
    (forall p, (p < length Yo)%nat ->
       pixel out (nth p Yo 0) (nth p Xo 0)
       = pixel src (nth p Yi 0) (nth p Xi 0)) /\
    (forall y x, ~ In (y, x) (combine Yo Xo) -> pixel out y x = 0%Q).
Proof.
  intros Hsrc Hr. unfold nearest_neighbour. rewrite Hr. cbn [bind].
  apply resample_ok_iff in Hr. destruct Hr as (_ & fxi & fyi & Hc & _).
  destruct (resample_coords_targets_distinct _ _ _ _ _ _ _ _ _ _ _ _ Hc)
    as (_ & LX & LYi & LXi).
  pose proof (resample_coords_bounds RectBivariateSpline _ _ _ _ _ _ _ _ _ _
                _ _ Hc) as (_ & _ & BXi & BYi).
  apply axis_indices_in_range in BXi, BYi.
  unfold getitem at 1. rewrite Hsrc, BXi, BYi. cbn [bind].
  assert (Hlen : length (zipWith (pixel src) Yi Xi) = length Yo)
    by (rewrite zipWith_length; lia).
  destruct (paste_spec _ _ _ _ _ _ _ _ _ _ _ _ _ Hc Hlen)
    as (out & H1 & H2 & _ & H4 & H5).
  exists out. repeat split; try assumption.
  intros p Hp. rewrite (H4 p Hp).
  apply zipWith_nth; lia.
Qed.

(** X16.  The script part of [resample.py] (lines 350-356, default options,
    one image of the shape of the source WCS): the only exception of the
    resampling and of the assignment [out[Yo,Xo] = ims[0]] is
    [NoOverlapError]; otherwise [out] has the size of the target, holds the
    resampled values at the returned pixels and 0 everywhere else. *)
Theorem reproject_outcome cowcs wcs pix :
  shape pix = (imageh wcs, imagew wcs) ->
  match reproject lanczos_filter lanczos3_filter_table RectBivariateSpline
          cowcs wcs pix with
  | Raise e => e = NoOverlapError
  | Ok out =>
      shape out = (imageh cowcs, imagew cowcs) /\
      exists Yo Xo Yi Xi vals,
        resample_with_wcs lanczos_filter lanczos3_filter_table
          RectBivariateSpline cowcs wcs [pix] 3 true true 25 12
          = Ok (Yo, Xo, Yi, Xi, [vals]) /\
        getitem out Yo Xo = Ok vals /\
        (forall y x, ~ In (y, x) (combine Yo Xo) -> pixel out y x = 0%Q)
  end.
Proof.
  intros Hshape.
  assert (Hs : shapes_ok wcs [pix] = true).
  { unfold shapes_ok, shape_eqb. cbn [forallb]. rewrite Hshape.
    cbn [fst snd]. now rewrite !Z.eqb_refl. }
  unfold reproject.
  destruct (resample_with_wcs lanczos_filter lanczos3_filter_table
              RectBivariateSpline cowcs wcs [pix] 3 true true 25 12)
    as [[[[[Yo Xo] Yi] Xi] ims]|e] eqn:Hr; cbn [bind].
  - pose proof Hr as Hok. apply resample_ok_iff in Hok.
    destruct Hok as (_ & fxi & fyi & Hc & Hv).
    destruct (resample_coords_targets_distinct _ _ _ _ _ _ _ _ _ _ _ _ Hc)
      as (_ & LX & LYi & LXi).
    assert (Hims : exists vals, ims = [vals] /\ length vals = length Yo).
    { unfold resample_values in Hv.
      apply (lanczos_shape _ _ (length Yo)) in Hv.
      - destruct Hv as [Hl Hall]. cbn [map length] in Hl.
        destruct ims as [|vals [|v2 ims]]; try discriminate.
        exists vals. split; [reflexivity|].
        now apply Forall_cons_iff in Hall.
      - exact LYi.
      - exact LXi.
      - apply resample_coords_inv in Hc. destruct Hc as (mode & _ & Hc).
        cbv zeta in Hc. destruct Hc as (_ & _ & -> & _ & _ & -> & -> & _).
        rewrite zipWith_length, !take_length, length_map. lia.
      - apply resample_coords_inv in Hc. destruct Hc as (mode & _ & Hc).
        cbv zeta in Hc. destruct Hc as (_ & _ & -> & _ & -> & _ & _ & ->).
        rewrite zipWith_length, !take_length, length_map. lia.
      - repeat constructor. unfold zeros. rewrite repeat_length.
        now rewrite LX. }
    destruct Hims as (vals & -> & Hlen).
    destruct (paste_spec _ _ _ _ _ _ _ _ _ _ _ _ vals Hc Hlen)
      as (out & H1 & H2 & H3 & _ & H5).
    rewrite H1. split; [exact H2|].
    exists Yo, Xo, Yi, Xi, vals. repeat split; assumption.
  - apply (resample_raise_inv lanczos_filter lanczos3_filter_table
             RectBivariateSpline) in Hr.
    destruct Hr as [[Hbad _] | [_ [Hmode | [_ ->]]]];
      [congruence | | reflexivity].
    apply select_mode_raises in Hmode.
    destruct Hmode as [_ [[Hz _] | [_ [[_ ->] | (_ & _ & _ & Hc & _)]]]];
      [discriminate | reflexivity | discriminate].
Qed.

End Paste.

(** ** Two mappers that describe the same grid *)

Section Coverage.

Variable lanczos_filter : Z -> Q -> Q.
Variable lanczos3_filter_table : option (Q -> Q).
Variable RectBivariateSpline : list Q -> list Q -> list (list Q) -> Q -> Q -> Q.

Import Np NpFacts.

Lemma Forall2_In_l {A B} (R : A -> B -> Prop) (l : list A) (l' : list B) a :
  Forall2 R l l' -> In a l -> exists b, In b l' /\ R a b.
Proof.
  induction 1 as [|x y l l' Hxy _ IH]; intros Hin; [contradiction|].
  destruct Hin as [<-|Hin].
  - exists y. split; [now left | exact Hxy].
  - destruct (IH Hin) as (b & Hb & Hab). exists b. split; [now right|exact Hab].
Qed.

Lemma Forall2_In_r {A B} (R : A -> B -> Prop) (l : list A) (l' : list B) b :
  Forall2 R l l' -> In b l' -> exists a, In a l /\ R a b.
Proof.
  induction 1 as [|x y l l' Hxy _ IH]; intros Hin; [contradiction|].
  destruct Hin as [<-|Hin].
  - exists x. split; [now left | exact Hxy].
  - destruct (IH Hin) as (a & Ha & Hab). exists a. split; [now right|exact Hab].
Qed.

(** The rounded minimum (maximum) of values that are integers. *)
Lemma round_amin_ints (vs : list Q) (cs : list Z) (c : Z) :
  Forall2 (fun v k => (v == inject_Z k)%Q) vs cs ->
  In c cs -> (forall k, In k cs -> c <= k) ->
  round (amin vs) = c.
Proof.
  intros HF Hc Hle.
  assert (Hne : vs <> []).
  { intros ->. inversion HF; subst. contradiction. }
  destruct (amin_is_min vs Hne) as [Hin Hall].
  apply round_inject_Z. apply Qle_antisym.
  - destruct (Forall2_In_r _ _ _ _ HF Hc) as (v & Hv & Ev).
    rewrite Forall_forall in Hall. rewrite <- Ev. now apply Hall.
  - destruct (Forall2_In_l _ _ _ _ HF Hin) as (k & Hk & Ek).
    rewrite Ek. rewrite <- Zle_Qle. now apply Hle.
Qed.

Lemma round_amax_ints (vs : list Q) (cs : list Z) (c : Z) :
  Forall2 (fun v k => (v == inject_Z k)%Q) vs cs ->
  In c cs -> (forall k, In k cs -> k <= c) ->
  round (amax vs) = c.
Proof.
  intros HF Hc Hle.
  assert (Hne : vs <> []).
  { intros ->. inversion HF; subst. contradiction. }
  destruct (amax_is_max vs Hne) as [Hin Hall].
  apply round_inject_Z. apply Qle_antisym.
  - destruct (Forall2_In_l _ _ _ _ HF Hin) as (k & Hk & Ek).
    rewrite Ek. rewrite <- Zle_Qle. now apply Hle.
  - destruct (Forall2_In_r _ _ _ _ HF Hc) as (v & Hv & Ev).
    rewrite Forall_forall in Hall. rewrite <- Ev. now apply Hall.
Qed.

(** When the corners project onto themselves the bounding box is the whole
    source image. *)
Lemma bbox_same_grid (targetwcs wcs : WCS) :
  same_grid_corners targetwcs wcs ->
  0 < imagew wcs -> 0 < imageh wcs ->
  bbox targetwcs wcs = (0, 0, imagew wcs - 1, imageh wcs - 1).
Proof.
  intros Hc Hw Hh. unfold bbox, corner_XY.
  unfold same_grid_corners in Hc.
  set (cs := corners (imagew wcs) (imageh wcs)) in *.
  assert (Fx : Forall2 (fun v k => (v == inject_Z k)%Q)
                 (map fst (map (project_corner targetwcs wcs) cs))
                 (map fst cs)).
  { clearbody cs. induction Hc as [|c l [Hx _] _ IH]; cbn [map];
      constructor; assumption. }
  assert (Fy : Forall2 (fun v k => (v == inject_Z k)%Q)
                 (map snd (map (project_corner targetwcs wcs) cs))
                 (map snd cs)).
  { clear Fx. clearbody cs. induction Hc as [|c l [_ Hy] _ IH]; cbn [map];
      constructor; assumption. }
  cbv zeta.
  rewrite (round_amin_ints _ _ 0 Fx), (round_amin_ints _ _ 0 Fy),
    (round_amax_ints _ _ (imagew wcs - 1) Fx),
    (round_amax_ints _ _ (imageh wcs - 1) Fy); [reflexivity | | | | | | | |];
    unfold cs, corners; cbn [map fst snd In]; intros; lia.
Qed.

(** On the same grid the direct path returns every pixel, each paired with
    itself. *)
Lemma same_grid_coords_cover targetwcs wcs fallback step margin :
  same_grid targetwcs wcs ->
  same_grid_corners targetwcs wcs ->
  imagew targetwcs = imagew wcs -> imageh targetwcs = imageh wcs ->
  0 < imagew wcs -> 0 < imageh wcs ->
  exists Yo Xo fxi fyi,
    resample_coords RectBivariateSpline targetwcs wcs false fallback step
      margin = Ok (Yo, Xo, Yo, Xo, fxi, fyi) /\
    (forall y x, In (y, x) (combine Yo Xo) <->
                 0 <= x < imagew wcs /\ 0 <= y < imageh wcs).
Proof.
  intros Hsame Hcor EW EH Hw Hh.
  assert (Hg : candidate_grid targetwcs wcs 0
               = (arange 0 (imagew wcs), arange 0 (imageh wcs))).
  { unfold candidate_grid. rewrite (bbox_same_grid _ _ Hcor Hw Hh).
    unfold dense_axis. rewrite EW, EH. f_equal; f_equal; lia. }
  assert (Hmode : select_mode targetwcs wcs false fallback step margin
                  = Ok None) by reflexivity.
  destruct (resample_coords_total RectBivariateSpline targetwcs wcs false
              fallback step margin None Hmode)
    as [[[[[[Yo Xo] Yi] Xi] fxi] fyi] Hr].
  { cbn [grid_margin]. rewrite Hg. cbn [fst]. intros E.
    apply (f_equal (@length Z)) in E. rewrite arange_length in E.
    cbn [length] in E. lia. }
  { cbn [grid_margin]. rewrite Hg. cbn [snd]. intros E.
    apply (f_equal (@length Z)) in E. rewrite arange_length in E.
    cbn [length] in E. lia. }
  destruct (direct_same_grid RectBivariateSpline _ _ _ _ _ _ _ _ _ _ _
              Hsame Hr) as (EY & EX & _ & _).
  subst Yi Xi. exists Yo, Xo, fxi, fyi. split; [exact Hr|].
  intros y x. split.
  - intros Hin.
    pose proof (resample_coords_bounds RectBivariateSpline _ _ _ _ _ _ _ _ _
                  _ _ _ Hr) as (_ & _ & BX & BY).
    rewrite Forall_forall in BX, BY. split.
    + apply BX. eapply in_combine_r. exact Hin.
    + apply BY. eapply in_combine_l. exact Hin.
  - intros [Hx Hy].
    destruct (resample_coords_cells RectBivariateSpline _ _ _ _ _ _ _ _ _ _
                _ _ Hr) as (mode & Hm & Hcells).
    rewrite Hmode in Hm. inversion Hm; subst mode. cbv zeta in Hcells.
    cbn [grid_margin] in Hcells. rewrite Hg in Hcells. cbn [fst snd] in Hcells.
    assert (Hcell : In (y, x, (y, x)) (combine (combine Yo Xo) (combine Yo Xo))).
    { apply Hcells. rewrite !arange_In. cbn [coord_at].
      destruct (Hsame x y) as [Ex Ey].
      rewrite (round_inject_Z _ _ Ex), (round_inject_Z _ _ Ey).
      repeat split; lia. }
    eapply in_combine_l. exact Hcell.
Qed.

(** X17.  Resampling an image grid onto itself covers it: when both
    directions between the two mappers are the identity on integer pixels
    and the two images have the same, non-empty size, the direct path
    succeeds and returns every pixel of the image, once, each paired with
    itself as its source pixel. *)
Theorem same_grid_returns_every_pixel targetwcs wcs Limages L fallback step
    margin :
  same_grid targetwcs wcs ->
  same_grid_corners targetwcs wcs ->
  imagew targetwcs = imagew wcs -> imageh targetwcs = imageh wcs ->
  0 < imagew wcs -> 0 < imageh wcs ->
  shapes_ok wcs Limages = true ->
  exists Yo Xo ims,
    resample_with_wcs lanczos_filter lanczos3_filter_table RectBivariateSpline
      targetwcs wcs Limages L false fallback step margin
      = Ok (Yo, Xo, Yo, Xo, ims) /\
    NoDup (combine Yo Xo) /\
    (forall y x, In (y, x) (combine Yo Xo) <->
                 0 <= x < imagew wcs /\ 0 <= y < imageh wcs).
Proof.
  intros Hsame Hcor EW EH Hw Hh Hs.
  destruct (same_grid_coords_cover _ _ fallback step margin Hsame Hcor EW EH
              Hw Hh) as (Yo & Xo & fxi & fyi & Hr & Hcov).
  destruct (resample_values_total lanczos_filter lanczos3_filter_table
              Limages L Xo Xo Yo fxi fyi) as [ims Hv].
  exists Yo, Xo, ims. split; [|split; [|exact Hcov]].
  - apply resample_ok_iff. split; [exact Hs|].
    exists fxi, fyi. split; assumption.
  - now destruct (resample_coords_targets_distinct RectBivariateSpline
                    _ _ _ _ _ _ _ _ _ _ _ _ Hr).
Qed.

(** X18.  Nearest-neighbour resampling of an image onto its own grid gives
    the image back: under the conditions of X17 and for a source image of
    the shape of the mapper, [target[Yo,Xo] = src[Yi,Xi]] raises nothing and
    the target equals the source at every pixel of the image. *)
Theorem nearest_neighbour_same_grid targetwcs wcs src L fallback step margin :
  same_grid targetwcs wcs ->
  same_grid_corners targetwcs wcs ->
  imagew targetwcs = imagew wcs -> imageh targetwcs = imageh wcs ->
  0 < imagew wcs -> 0 < imageh wcs ->
  shape src = (imageh wcs, imagew wcs) ->
  exists out,
    nearest_neighbour lanczos_filter lanczos3_filter_table RectBivariateSpline
      targetwcs wcs src L false fallback step margin = Ok out /\
    shape out = shape src /\
    (forall y x, 0 <= x < imagew wcs -> 0 <= y < imageh wcs ->
       pixel out y x = pixel src y x).
Proof.
  intros Hsame Hcor EW EH Hw Hh Hsrc.
  destruct (same_grid_coords_cover _ _ fallback step margin Hsame Hcor EW EH
              Hw Hh) as (Yo & Xo & fxi & fyi & Hc & Hcov).
  assert (Hr : resample_with_wcs lanczos_filter lanczos3_filter_table
                 RectBivariateSpline targetwcs wcs [] L false fallback step
                 margin = Ok (Yo, Xo, Yo, Xo, [])).
  { apply resample_ok_iff. split; [reflexivity|].
    exists fxi, fyi. split; [exact Hc | reflexivity]. }
  unfold nearest_neighbour. rewrite Hr. cbn [bind].
  destruct (resample_coords_targets_distinct RectBivariateSpline
              _ _ _ _ _ _ _ _ _ _ _ _ Hc) as (_ & LX & _ & _).
  pose proof (resample_coords_bounds RectBivariateSpline _ _ _ _ _ _ _ _ _ _
                _ _ Hc) as (_ & _ & BXi & BYi).
  apply axis_indices_in_range in BXi, BYi.
  unfold getitem at 1. rewrite Hsrc, BXi, BYi. cbn [bind].
  assert (Hlen : length (zipWith (pixel src) Yo Xo) = length Yo)
    by (rewrite zipWith_length; lia).
  destruct (paste_spec RectBivariateSpline _ _ _ _ _ _ _ _ _ _ _ _ _ Hc Hlen)
    as (out & H1 & H2 & _ & H4 & _).
  exists out. split; [exact H1|]. split; [now rewrite H2, EW, EH|].
  intros y x Hx Hy.
  assert (Hin : In (y, x) (combine Yo Xo)) by (apply Hcov; split; assumption).
  destruct (In_nth _ _ (0, 0) Hin) as (p & Hp & Ep).
  rewrite length_combine in Hp. rewrite combine_nth in Ep by exact LX.
  inversion Ep as [[Ey Ex]].
  rewrite (H4 p) by lia. rewrite Ey, Ex.
  rewrite (zipWith_nth _ _ _ _ _ 0 0) by lia. now rewrite Ey, Ex.
Qed.

End Coverage.

(** ** The array expressions of [index-stats.py] *)

Section IndexStats.

(** X19.  The wrap of right ascensions (lines 52 and 164): every entry is
    kept or moved down by one full turn, so that the array keeps its length
    and its values modulo 360, and right ascensions in [(-180, 540]], which
    contains the range [[0, 360]] of [xyztoradec], end up in
    [(-180, 180]]. *)
Theorem wrap_ra_centred (ra : list Q) :
  Forall (fun r => (- (180) < r <= 540)%Q) ra ->
  Forall2 (fun r r' => (r' == r)%Q \/ (r' == r - 360)%Q) ra (wrap_ra ra) /\
  Forall (fun r' => (- (180) < r' <= 180)%Q) (wrap_ra ra).
Proof.
  induction 1 as [|r ra [Hlo Hhi] _ [IH2 IH]]; cbn [wrap_ra map];
    [split; constructor|].
  fold (wrap_ra ra).
  destruct (Qle_bool r 180) eqn:E.
  - apply Qle_bool_iff in E. split; constructor; try assumption.
    + left. ring.
    + split; lra.
  - assert (Hgt : (180 < r)%Q).
    { apply Qnot_le_lt. intros Hle. apply Qle_bool_iff in Hle. congruence. }
    split; constructor; try assumption.
    + right. ring.
    + split; lra.
Qed.

End IndexStats.

(** ** More runs of the model *)

Section MoreRuns.

Import Np.

Abbreviation run := (resample_with_wcs tent_filter None flat_spline).
Abbreviation interp := (_lanczos_interpolate tent_filter None).

(** A 5 x 4 target and a 3 x 3 source shifted by half a pixel in x and one
    pixel in y; a source far outside a 100 x 100 target; a 3 x 2 grid. *)
Abbreviation tgt := (grid_wcs 5 4).
Abbreviation srcw := (shifted_wcs 3 3 (1 # 2) 1).
Abbreviation big := (grid_wcs 100 100).
Abbreviation far := (shifted_wcs 4 4 200 0).
Abbreviation same := (grid_wcs 3 2).

Lemma grid_wcs_same_grid_corners (W H : Z) :
  same_grid_corners (grid_wcs W H) (grid_wcs W H).
Proof.
  unfold same_grid_corners, grid_wcs, shifted_wcs, project_corner, corners.
  cbn [imagew imageh pixelxy2radec radec2pixelxy].
  repeat constructor; cbn [fst snd]; rewrite inject_Z_plus; ring.
Qed.

Lemma resample_only_overlap_errors_witness :
  run big far [] 1 false true 25 12 = Raise NoOverlapError /\
  (NoOverlapError = NoOverlapError \/ NoOverlapError = SmallOverlapError).
Proof.
  assert (H : run big far [] 1 false true 25 12 = Raise NoOverlapError)
    by (vm_compute; reflexivity).
  split; [exact H|].
  exact (resample_only_overlap_errors tent_filter None flat_spline
           big far [] 1 false true 25 12 _ eq_refl (or_introl eq_refl) H).
Defined.

Lemma resample_returns_exactly_in_bounds_cells_witness :
  run tgt srcw [] 1 false true 25 12
    = Ok ([1;1;1;2;2;2;3;3;3], [0;1;2;0;1;2;0;1;2],
          [0;0;0;1;1;1;2;2;2], [0;0;2;0;0;2;0;0;2], []) /\
  exists mode,
    select_mode tgt srcw false true 25 12 = Ok mode /\
    let g := candidate_grid tgt srcw (grid_margin mode 12) in
    forall y x yi xi,
      In (y, x, (yi, xi))
        (combine (combine [1;1;1;2;2;2;3;3;3] [0;1;2;0;1;2;0;1;2])
           (combine [0;0;0;1;1;1;2;2;2] [0;0;2;0;0;2;0;0;2])) <->
      In x (fst g) /\ In y (snd g) /\
      xi = round (fst (coord_at flat_spline tgt srcw mode x y)) /\
      yi = round (snd (coord_at flat_spline tgt srcw mode x y)) /\
      0 <= xi < imagew srcw /\ 0 <= yi < imageh srcw.
Proof.
  assert (H : run tgt srcw [] 1 false true 25 12
              = Ok ([1;1;1;2;2;2;3;3;3], [0;1;2;0;1;2;0;1;2],
                    [0;0;0;1;1;1;2;2;2], [0;0;2;0;0;2;0;0;2], []))
    by (vm_compute; reflexivity).
  split; [exact H|].
  exact (resample_returns_exactly_in_bounds_cells tent_filter None flat_spline
           _ _ _ _ _ _ _ _ _ _ _ _ _ H).
Defined.

Lemma resample_targets_row_major_witness :
  run tgt srcw [] 1 false true 25 12
    = Ok ([1;1;1;2;2;2;3;3;3], [0;1;2;0;1;2;0;1;2],
          [0;0;0;1;1;1;2;2;2], [0;0;2;0;0;2;0;0;2], []) /\
  forall p q, (p < q)%nat -> (q < length [1;1;1;2;2;2;3;3;3])%nat ->
    nth p [1;1;1;2;2;2;3;3;3] 0 < nth q [1;1;1;2;2;2;3;3;3] 0 \/
    (nth p [1;1;1;2;2;2;3;3;3] 0 = nth q [1;1;1;2;2;2;3;3;3] 0 /\
     nth p [0;1;2;0;1;2;0;1;2] 0 < nth q [0;1;2;0;1;2;0;1;2] 0).
Proof.
  assert (H : run tgt srcw [] 1 false true 25 12
              = Ok ([1;1;1;2;2;2;3;3;3], [0;1;2;0;1;2;0;1;2],
                    [0;0;0;1;1;1;2;2;2], [0;0;2;0;0;2;0;0;2], []))
    by (vm_compute; reflexivity).
  split; [exact H|].
  exact (resample_targets_row_major tent_filter None flat_spline
           _ _ _ _ _ _ _ _ _ _ _ _ _ H).
Defined.

Lemma resample_targets_within_bbox_witness :
  run tgt srcw [] 1 false true 25 12
    = Ok ([1;1;1;2;2;2;3;3;3], [0;1;2;0;1;2;0;1;2],
          [0;0;0;1;1;1;2;2;2], [0;0;2;0;0;2;0;0;2], []) /\
  let x0 := fst (fst (fst (bbox tgt srcw))) in
  let y0 := snd (fst (fst (bbox tgt srcw))) in
  let x1 := snd (fst (bbox tgt srcw)) in
  let y1 := snd (bbox tgt srcw) in
  let m := margin_at_grid tgt srcw false true 25 12 in
  Forall (fun x => x0 - m <= x <= x1 + m) [0;1;2;0;1;2;0;1;2] /\
  Forall (fun y => y0 - m <= y <= y1 + m) [1;1;1;2;2;2;3;3;3].
Proof.
  assert (H : run tgt srcw [] 1 false true 25 12
              = Ok ([1;1;1;2;2;2;3;3;3], [0;1;2;0;1;2;0;1;2],
                    [0;0;0;1;1;1;2;2;2], [0;0;2;0;0;2;0;0;2], []))
    by (vm_compute; reflexivity).
  split; [exact H|].
  exact (resample_targets_within_bbox tent_filter None flat_spline
           _ _ _ _ _ _ _ _ _ _ _ _ _ H).
Defined.

Lemma remainders_at_most_half_witness :
  resample_coords flat_spline tgt srcw false true 25 12
    = Ok ([1;1;1;2;2;2;3;3;3], [0;1;2;0;1;2;0;1;2],
          [0;0;0;1;1;1;2;2;2], [0;0;2;0;0;2;0;0;2],
          [-1 # 2; 1 # 2; 3 # 2; -1 # 2; 1 # 2; 3 # 2; -1 # 2; 1 # 2;
           3 # 2]%Q,
          [0; 0; 0; 1; 1; 1; 2; 2; 2]%Q) /\
  Forall (fun d => (- (1 # 2) <= d <= 1 # 2)%Q)
    (zipWith (fun f i => (f - inject_Z i)%Q)
       [-1 # 2; 1 # 2; 3 # 2; -1 # 2; 1 # 2; 3 # 2; -1 # 2; 1 # 2; 3 # 2]%Q
       [0;0;2;0;0;2;0;0;2]) /\
  Forall (fun d => (- (1 # 2) <= d <= 1 # 2)%Q)
    (zipWith (fun f i => (f - inject_Z i)%Q)
       [0; 0; 0; 1; 1; 1; 2; 2; 2]%Q [0;0;0;1;1;1;2;2;2]).
Proof.
  assert (H : resample_coords flat_spline tgt srcw false true 25 12
    = Ok ([1;1;1;2;2;2;3;3;3], [0;1;2;0;1;2;0;1;2],
          [0;0;0;1;1;1;2;2;2], [0;0;2;0;0;2;0;0;2],
          [-1 # 2; 1 # 2; 3 # 2; -1 # 2; 1 # 2; 3 # 2; -1 # 2; 1 # 2;
           3 # 2]%Q,
          [0; 0; 0; 1; 1; 1; 2; 2; 2]%Q))
    by (vm_compute; reflexivity).
  split; [exact H|].
  exact (remainders_at_most_half flat_spline _ _ _ _ _ _ _ _ _ _ _ _ H).
Defined.

Lemma direct_no_overlap_iff_bbox_misses_target_witness :
  shapes_ok far [] = true /\ 0 < imagew big /\ 0 < imageh big /\
  let x0 := fst (fst (fst (bbox big far))) in
  let y0 := snd (fst (fst (bbox big far))) in
  let x1 := snd (fst (bbox big far)) in
  let y1 := snd (bbox big far) in
  (run big far [] 1 false true 25 12 = Raise NoOverlapError <->
   x1 < 0 \/ imagew big <= x0 \/ y1 < 0 \/ imageh big <= y0).
Proof.
  split; [reflexivity|]. split; [reflexivity|]. split; [reflexivity|].
  apply (direct_no_overlap_iff_bbox_misses_target tent_filter None
           flat_spline big far [] 1 true 25 12); reflexivity.
Defined.

Lemma lanczos_depends_on_kernel_values_witness :
  (forall x, lfunc tent_filter None 1 1 x
             = lfunc tent_filter (Some (fun _ => 0%Q)) 1 1 x) /\
  interp 1 [1] [1] [1 # 4]%Q [0]%Q [zeros 1] [const_image 3 3 5] =
  _lanczos_interpolate tent_filter (Some (fun _ => 0%Q))
    1 [1] [1] [1 # 4]%Q [0]%Q [zeros 1] [const_image 3 3 5].
Proof.
  assert (H : forall x, lfunc tent_filter None 1 1 x
                        = lfunc tent_filter (Some (fun _ => 0%Q)) 1 1 x)
    by (intros x; reflexivity).
  split; [exact H|].
  exact (lanczos_depends_on_kernel_values tent_filter tent_filter None
           (Some (fun _ => 0%Q)) 1 [1] [1] [1 # 4]%Q [0]%Q [zeros 1]
           [const_image 3 3 5] H).
Defined.

Lemma table_only_for_order_3_witness :
  (1 <> 3 /\
   interp 1 [1] [1] [1 # 4]%Q [0]%Q [zeros 1] [const_image 3 3 5] =
   _lanczos_interpolate tent_filter (Some (fun _ => 0%Q))
     1 [1] [1] [1 # 4]%Q [0]%Q [zeros 1] [const_image 3 3 5]) /\
  (3 = 3 /\
   _lanczos_interpolate tent_filter (Some (tent_filter 3))
     3 [1] [1] [1 # 4]%Q [0]%Q [zeros 1] [const_image 3 3 5] =
   _lanczos_interpolate (fun _ _ => 0%Q) (Some (tent_filter 3))
     3 [1] [1] [1 # 4]%Q [0]%Q [zeros 1] [const_image 3 3 5]).
Proof.
  assert (H13 : 1 <> 3) by lia.
  split.
  - split; [exact H13|].
    exact (proj1 (table_only_for_order_3 tent_filter tent_filter None
                    (Some (fun _ => 0%Q)) (tent_filter 3) 1 [1] [1]
                    [1 # 4]%Q [0]%Q [zeros 1] [const_image 3 3 5]) H13).
  - split; [reflexivity|].
    exact (proj2 (table_only_for_order_3 tent_filter (fun _ _ => 0%Q) None
                    None (tent_filter 3) 3 [1] [1]
                    [1 # 4]%Q [0]%Q [zeros 1] [const_image 3 3 5]) eq_refl).
Defined.


Lemma paste_values_roundtrip_witness :
  run same same [ramp_image 2 3] 1 false true 25 12
    = Ok ([0;0;0;1;1;1], [0;1;2;0;1;2], [0;0;0;1;1;1], [0;1;2;0;1;2],
          [[0; 1; 2; 10; 11; 12]%Q]) /\
  In [0; 1; 2; 10; 11; 12]%Q [[0; 1; 2; 10; 11; 12]%Q] /\
  exists out,
    setitem (zeros2 (imageh same) (imagew same))
      [0;0;0;1;1;1] [0;1;2;0;1;2] [0; 1; 2; 10; 11; 12]%Q = Ok out /\
    shape out = (imageh same, imagew same) /\
    getitem out [0;0;0;1;1;1] [0;1;2;0;1;2] = Ok [0; 1; 2; 10; 11; 12]%Q /\
    (forall y x, ~ In (y, x) (combine [0;0;0;1;1;1] [0;1;2;0;1;2]) ->
       pixel out y x = 0%Q).
Proof.
  assert (H : run same same [ramp_image 2 3] 1 false true 25 12
    = Ok ([0;0;0;1;1;1], [0;1;2;0;1;2], [0;0;0;1;1;1], [0;1;2;0;1;2],
          [[0; 1; 2; 10; 11; 12]%Q]))
    by (vm_compute; reflexivity).
  assert (Hin : In [0; 1; 2; 10; 11; 12]%Q [[0; 1; 2; 10; 11; 12]%Q])
    by (left; reflexivity).
  split; [exact H|]. split; [exact Hin|].
  exact (paste_values_roundtrip tent_filter None flat_spline
           _ _ _ _ _ _ _ _ _ _ _ _ _ _ H Hin).
Defined.

Lemma nearest_neighbour_copies_source_pixels_witness :
  shape (ramp_image 3 3) = (imageh srcw, imagew srcw) /\
  run tgt srcw [] 1 false true 25 12
    = Ok ([1;1;1;2;2;2;3;3;3], [0;1;2;0;1;2;0;1;2],
          [0;0;0;1;1;1;2;2;2], [0;0;2;0;0;2;0;0;2], []) /\
  exists out,
    nearest_neighbour tent_filter None flat_spline tgt srcw (ramp_image 3 3)
      1 false true 25 12 = Ok out /\
    shape out = (imageh tgt, imagew tgt) /\
    (forall p, (p < length [1;1;1;2;2;2;3;3;3])%nat ->
       pixel out (nth p [1;1;1;2;2;2;3;3;3] 0) (nth p [0;1;2;0;1;2;0;1;2] 0)
       = pixel (ramp_image 3 3) (nth p [0;0;0;1;1;1;2;2;2] 0)
           (nth p [0;0;2;0;0;2;0;0;2] 0)) /\
    (forall y x,
       ~ In (y, x) (combine [1;1;1;2;2;2;3;3;3] [0;1;2;0;1;2;0;1;2]) ->
       pixel out y x = 0%Q).
Proof.
  assert (H : run tgt srcw [] 1 false true 25 12
              = Ok ([1;1;1;2;2;2;3;3;3], [0;1;2;0;1;2;0;1;2],
                    [0;0;0;1;1;1;2;2;2], [0;0;2;0;0;2;0;0;2], []))
    by (vm_compute; reflexivity).
  split; [reflexivity|]. split; [exact H|].
  exact (nearest_neighbour_copies_source_pixels tent_filter None flat_spline
           tgt srcw (ramp_image 3 3) 1 false true 25 12 _ _ _ _ _ eq_refl H).
Defined.

Lemma reproject_outcome_witness :
  shape (ramp_image 3 3) = (imageh srcw, imagew srcw) /\
  match reproject tent_filter None flat_spline tgt srcw (ramp_image 3 3) with
  | Raise e => e = NoOverlapError
  | Ok out =>
      shape out = (imageh tgt, imagew tgt) /\
      exists Yo Xo Yi Xi vals,
        run tgt srcw [ramp_image 3 3] 3 true true 25 12
          = Ok (Yo, Xo, Yi, Xi, [vals]) /\
        getitem out Yo Xo = Ok vals /\
        (forall y x, ~ In (y, x) (combine Yo Xo) -> pixel out y x = 0%Q)
  end.
Proof.
  split; [reflexivity|].
  exact (reproject_outcome tent_filter None flat_spline tgt srcw
           (ramp_image 3 3) eq_refl).
Defined.

Lemma same_grid_returns_every_pixel_witness :
  same_grid same same /\ same_grid_corners same same /\
  imagew same = imagew same /\ imageh same = imageh same /\
  0 < imagew same /\ 0 < imageh same /\
  shapes_ok same [ramp_image 2 3] = true /\
  exists Yo Xo ims,
    run same same [ramp_image 2 3] 1 false true 25 12
      = Ok (Yo, Xo, Yo, Xo, ims) /\
    NoDup (combine Yo Xo) /\
    (forall y x, In (y, x) (combine Yo Xo) <->
                 0 <= x < imagew same /\ 0 <= y < imageh same).
Proof.
  pose proof (grid_wcs_same_grid 3 2) as Hs.
  pose proof (grid_wcs_same_grid_corners 3 2) as Hc.
  split; [exact Hs|]. split; [exact Hc|].
  repeat (split; [reflexivity|]).
  exact (same_grid_returns_every_pixel tent_filter None flat_spline
           same same [ramp_image 2 3] 1 true 25 12 Hs Hc eq_refl eq_refl
           eq_refl eq_refl eq_refl).
Defined.

Lemma nearest_neighbour_same_grid_witness :
  same_grid same same /\ same_grid_corners same same /\
  imagew same = imagew same /\ imageh same = imageh same /\
  0 < imagew same /\ 0 < imageh same /\
  shape (ramp_image 2 3) = (imageh same, imagew same) /\
  exists out,
    nearest_neighbour tent_filter None flat_spline same same (ramp_image 2 3)
      1 false true 25 12 = Ok out /\
    shape out = shape (ramp_image 2 3) /\
    (forall y x, 0 <= x < imagew same -> 0 <= y < imageh same ->
       pixel out y x = pixel (ramp_image 2 3) y x).
Proof.
  pose proof (grid_wcs_same_grid 3 2) as Hs.
  pose proof (grid_wcs_same_grid_corners 3 2) as Hc.
  split; [exact Hs|]. split; [exact Hc|].
  repeat (split; [reflexivity|]).
  exact (nearest_neighbour_same_grid tent_filter None flat_spline
           same same (ramp_image 2 3) 1 true 25 12 Hs Hc eq_refl eq_refl
           eq_refl eq_refl eq_refl).
Defined.

Lemma wrap_ra_centred_witness :
  Forall (fun r => (- (180) < r <= 540)%Q) [10; 200; 350; 180]%Q /\
  Forall2 (fun r r' => (r' == r)%Q \/ (r' == r - 360)%Q)
    [10; 200; 350; 180]%Q (wrap_ra [10; 200; 350; 180]%Q) /\
  Forall (fun r' => (- (180) < r' <= 180)%Q) (wrap_ra [10; 200; 350; 180]%Q).
Proof.
  assert (H : Forall (fun r => (- (180) < r <= 540)%Q) [10; 200; 350; 180]%Q)
    by (repeat constructor; lra).
  split; [exact H|].
  exact (wrap_ra_centred _ H).
Defined.

(** The failing input of C5: a 4 x 4 source 20 pixels beyond the right
    edge of a 100 x 100 target, spline step 25 and margin 12.  The clamped
    x-range is [[108, 100]]. *)
Lemma small_overlap_raised_without_overlap_witness :
  let t := grid_wcs 100 100 in
  let s := shifted_wcs 4 4 120 0 in
  shapes_ok s [] = true /\ 0 < 25 /\ 0 <= 12 /\
  axis_hi (imagew t) (snd (fst (bbox t s))) 12
    - axis_lo (fst (fst (fst (bbox t s)))) 12 = -8 /\
  axis_hi (imageh t) (snd (bbox t s)) 12
    - axis_lo (snd (fst (fst (bbox t s)))) 12 = 15 /\
  (fst (candidate_grid t s 12) = [] \/ snd (candidate_grid t s 12) = []) /\
  (fst (candidate_grid t s 0) = [] \/ snd (candidate_grid t s 0) = []) /\
  run t s [] 3 true false 25 12 = Raise SmallOverlapError /\
  run t s [] 3 true true 25 12 = Raise NoOverlapError /\
  (forall fallback, run t s [] 3 false fallback 25 12 = Raise NoOverlapError).
Proof.
  intros t s.
  assert (Hstep : 0 < 25) by lia.
  assert (Hm : 0 <= 12) by lia.
  assert (Ex : axis_hi (imagew t) (snd (fst (bbox t s))) 12
               - axis_lo (fst (fst (fst (bbox t s)))) 12 = -8)
    by (vm_compute; reflexivity).
  assert (Ey : axis_hi (imageh t) (snd (bbox t s)) 12
               - axis_lo (snd (fst (fst (bbox t s)))) 12 = 15)
    by (vm_compute; reflexivity).
  split; [reflexivity|]. split; [exact Hstep|]. split; [exact Hm|].
  split; [exact Ex|]. split; [exact Ey|].
  apply (small_overlap_raised_without_overlap tent_filter None flat_spline
           t s [] 3 25 12 eq_refl Hstep Hm).
  left. rewrite Ex, Ey. lia.
Defined.

End MoreRuns.
